(** * The "accurate" ASCII renderer plugin of p5.asciify

    A shallow embedding of the plugin's fragment shaders
    ([shaderGenerators.min], [brightnessSplit.frag]) and of the renderer
    class that drives them ([AccurateAsciiRenderer.ts],
    [AccurateRendererPlugin.ts]), followed by the properties of the
    rendering pipeline.

    Conventions of the embedding.
    - A GLSL [float] is a rational ([Q]); the comparisons of the shaders
      ([<], [>], [>=], [==]) are the rational ones.  In the first modules
      the arithmetic is exact.  The two shaders that decide by comparing
      values they have computed, the brightness splitter and the character
      matcher, are given a second time with the floating-point arithmetic
      as a parameter ([Mediump]); with the exact arithmetic for it they are
      the shaders of the first modules.
    - A [sampler2D] is a function from texture coordinates to texels: the
      filtering and wrapping of the GPU are whatever that function does.
    - A GLSL [for] loop with constant bounds is a fold over [seq 0 n]; a
      [break] keeps the state for the remaining iterations.
    - JavaScript objects used as records of options are finite maps from
      property names to values. *)

From Stdlib Require Import QArith Qpower Qround Qminmax Lqa ZArith Lia.
From stdpp Require Import base option list gmap strings pretty.

#[local] Open Scope Q_scope.
#[local] Set Warnings "-register-all".
#[local] Set Warnings "-notation-overridden".
#[local] Set Warnings "-notation-incompatible-prefix".

(** ** GLSL values and built-in functions *)

Module Glsl.

Record vec2 : Type := Vec2 { ux : Q; uy : Q }.
Record vec3 : Type := Vec3 { tx : Q; ty : Q; tz : Q }.
Record vec4 : Type := Vec4 { vx : Q; vy : Q; vz : Q; vw : Q }.

Definition sampler2D : Type := vec2 -> vec4.

Definition texture2D (s : sampler2D) (coord : vec2) : vec4 := s coord.

(** [vec4(0)], [vec3(v)], [vec4(v3, w)] and the [.xyz] swizzle. *)
Definition vec4_splat (v : Q) : vec4 := Vec4 v v v v.
Definition vec3_splat (v : Q) : vec3 := Vec3 v v v.
Definition vec4_of (v : vec3) (w : Q) : vec4 := Vec4 (tx v) (ty v) (tz v) w.
Definition xyz (v : vec4) : vec3 := Vec3 (vx v) (vy v) (vz v).

(** Scalar built-ins. *)
Definition float (n : Z) : Q := inject_Z n.
Definition floor (v : Q) : Q := inject_Z (Qfloor v).
Definition ltb (a b : Q) : bool := negb (Qle_bool b a).
Definition glsl_min (a b : Q) : Q := if ltb b a then b else a.
Definition glsl_max (a b : Q) : Q := if ltb a b then b else a.
Definition clamp (v lo hi : Q) : Q := glsl_min (glsl_max v lo) hi.
Definition step (edge v : Q) : Q := if ltb v edge then 0 else 1.
Definition glsl_mod (a b : Q) : Q := a - b * floor (a / b).

(** Component-wise operations on [vec2]. *)
Definition map2 (f : Q -> Q) (a : vec2) : vec2 := Vec2 (f (ux a)) (f (uy a)).
Definition zip2 (f : Q -> Q -> Q) (a b : vec2) : vec2 :=
    Vec2 (f (ux a) (ux b)) (f (uy a) (uy b)).
Definition add2 := zip2 Qplus.
Definition sub2 := zip2 Qminus.
Definition mul2 := zip2 Qmult.
Definition div2 := zip2 Qdiv.
Definition adds2 (a : vec2) (k : Q) : vec2 := map2 (fun c => c + k) a.
Definition muls2 (a : vec2) (k : Q) : vec2 := map2 (fun c => c * k) a.
Definition floor2 : vec2 -> vec2 := map2 floor.
Definition clamp2 (a : vec2) (lo hi : Q) : vec2 := map2 (fun c => clamp c lo hi) a.

(** [a.xyz == b.xyz]: equality of the three colour channels. *)
Definition xyz_eqb (a b : vec4) : bool :=
    Qeq_bool (vx a) (vx b) && Qeq_bool (vy a) (vy b) && Qeq_bool (vz a) (vz b).

(** [for (int i = from; i < from + count; i++) body]: the body returns
    [None] when it executes [break], and the new state otherwise (a
    [continue] returns the state as it stands). *)
Fixpoint for_loop {S : Type} (from count : nat) (body : nat -> S -> option S) (st : S) : S :=
  match count with
  | O => st
  | Datatypes.S k =>
      match body from st with
      | None => st
      | Some st' => for_loop (Datatypes.S from) k body st'
      end
  end.

(** [float(i)] for a loop counter or a constant [int]. *)
Definition floatn (n : nat) : Q := inject_Z (Z.of_nat n).

(** The luminance weights used by the brightness shaders. *)
Definition luminance (c : vec4) : Q := 0.299 * vx c + 0.587 * vy c + 0.114 * vz c.

End Glsl.

(** ** [brightnessSplit.frag] *)

Module BrightnessSplit.
Import Glsl.

Record uniforms : Type := Uniforms {
    u_inputImage : sampler2D;
    u_brightnessTexture : sampler2D;
    u_inputImageSize : vec2;
    u_gridCols : Z;
    u_gridRows : Z;
    u_pixelRatio : Q
}.

Definition EPSILON : Q := 0.01.

Definition logicalFragCoord (u : uniforms) (gl_FragCoord : vec2) : vec2 :=
    floor2 (map2 (fun c => c / u_pixelRatio u) gl_FragCoord).

Definition originalColor (u : uniforms) (gl_FragCoord : vec2) : vec4 :=
    let imageTexCoord := div2 (logicalFragCoord u gl_FragCoord) (u_inputImageSize u) in
    texture2D (u_inputImage u) imageTexCoord.

Definition averageBrightness (u : uniforms) (gl_FragCoord : vec2) : Q :=
    let cellWidth := ux (u_inputImageSize u) / float (u_gridCols u) in
    let cellHeight := uy (u_inputImageSize u) / float (u_gridRows u) in
    let gridX := floor (ux (logicalFragCoord u gl_FragCoord) / cellWidth) in
    let gridY := floor (uy (logicalFragCoord u gl_FragCoord) / cellHeight) in
    let gridX := clamp gridX 0 (float (u_gridCols u - 1)) in
    let gridY := clamp gridY 0 (float (u_gridRows u - 1)) in
    let brightnessTexCoord :=
      div2 (adds2 (Vec2 gridX gridY) 0.5)
           (Vec2 (float (u_gridCols u)) (float (u_gridRows u))) in
    vx (texture2D (u_brightnessTexture u) brightnessTexCoord).

Definition fragmentBrightness (u : uniforms) (gl_FragCoord : vec2) : Q :=
    luminance (originalColor u gl_FragCoord).

(** [main]: the value written to [gl_FragColor].  The difference and
    [EPSILON] are the exact ones here: for a difference within rounding of
    [-EPSILON] the shader's comparison is that of
    [BrightnessSplitMediump.main]. *)
Definition main (u : uniforms) (gl_FragCoord : vec2) : vec4 :=
    if ltb (vw (originalColor u gl_FragCoord)) EPSILON then Vec4 0 0 0 0
    else
      let brightnessDifference :=
        fragmentBrightness u gl_FragCoord - averageBrightness u gl_FragCoord in
      let finalColorValue := if ltb brightnessDifference (- EPSILON) then 0 else 1 in
      vec4_of (vec3_splat finalColorValue) 1.

End BrightnessSplit.

(** ** [generateBrightnessSampleShader(cellHeight, cellWidth)] *)

Module BrightnessSample.
Import Glsl.

Record uniforms : Type := Uniforms {
  u_inputImage : sampler2D;
  u_inputImageSize : vec2;
  u_gridCols : Z;
  u_gridRows : Z
}.

Section Generated.

(** The template parameters: [const int u = ${t}, f = ${i}]. *)
Variables u f : nat.

Variable U : uniforms.
Variable gl_FragCoord : vec2.

(** [e]: the size of a cell in pixels; [v]: the cell's origin in pixels. *)
Definition e : vec2 :=
  div2 (u_inputImageSize U) (Vec2 (float (u_gridCols U)) (float (u_gridRows U))).

Definition v : vec2 := mul2 (floor2 gl_FragCoord) e.

(** [m]: the texture coordinate of sub-sample [(s, g)]. *)
Definition m (s g : nat) : vec2 :=
  clamp2
    (div2 (add2 v (mul2 (adds2 (Vec2 (floatn s) (floatn g)) 0.5)
                        (div2 e (Vec2 (floatn u) (floatn f)))))
          (u_inputImageSize U))
    0 1.

Definition accumulate : Q :=
  for_loop 0 u (fun s i =>
    Some (for_loop 0 f (fun g i =>
      let d := texture2D (u_inputImage U) (m s g) in
      let t := 0.299 * vx d + 0.587 * vy d + 0.114 * vz d in
      Some (i + t)) i)) 0.

Definition main : vec4 :=
  let t := floatn (u * f) in
  let i := accumulate / t in
  vec4_of (vec3_splat i) 1.

End Generated.

End BrightnessSample.

(** ** [generateColorSampleShader(numBuckets, cellHeight, cellWidth)] *)

Module ColorSample.
Import Glsl.

Record uniforms : Type := Uniforms {
  u_inputImage : sampler2D;
  u_inputImageBW : sampler2D;
  u_inputImageSize : vec2;
  u_gridCols : Z;
  u_gridRows : Z;
  u_colorRank : Z
}.

(** The arrays [vec4 c[e]] and [float b[e]], kept side by side: bucket [i]
    is the pair [(c[i], b[i])]. *)
Definition buckets : Type := list (vec4 * Q).

(** [for (i < e) if (m.xyz == c[i].xyz) { b[i] += 1.; z = true; break; }]:
    [None] when the loop ends with [z] still false. *)
Fixpoint increment (m : vec4) (cb : buckets) : option buckets :=
  match cb with
  | [] => None
  | (c, b) :: rest =>
      if xyz_eqb m c then Some ((c, b + 1) :: rest)
      else cons (c, b) <$> increment m rest
  end.

(** [for (i < e) if (b[i] == 0.) { c[i] = m; b[i] = 1.; break; }] *)
Fixpoint occupy (m : vec4) (cb : buckets) : buckets :=
  match cb with
  | [] => []
  | (c, b) :: rest =>
      if Qeq_bool b 0 then (m, 1) :: rest else (c, b) :: occupy m rest
  end.

(** What one matching sub-sample does to the buckets. *)
Definition tally (cb : buckets) (m : vec4) : buckets :=
  match increment m cb with
  | Some cb' => cb'
  | None => occupy m cb
  end.

(** [for (i < e) { u = b[i]; k = c[i]; if (u > z) z = u, m = k; }] on the
    state [(z, m)]. *)
Definition pick (zm : Q * vec4) (cb : vec4 * Q) : Q * vec4 :=
  let '(z, m) := zm in
  let '(k, u) := cb in
  if ltb z u then (u, k) else (z, m).

Section Generated.

(** The template parameters: [const int e = ${t}, u = ${i}, f = ${n}]. *)
Variables e u f : nat.

Variable U : uniforms.
Variable gl_FragCoord : vec2.

(** [t]: the size of a cell in pixels; [i]: the cell's origin in pixels. *)
Definition t : vec2 :=
  div2 (u_inputImageSize U) (Vec2 (float (u_gridCols U)) (float (u_gridRows U))).

Definition i : vec2 := mul2 (floor2 gl_FragCoord) t.

(** [v]: the source pixel at the centre of the cell. *)
Definition v : vec4 :=
  let k := div2 (add2 i (muls2 t 0.5)) (u_inputImageSize U) in
  texture2D (u_inputImage U) k.

(** [s]: the texture coordinate of sub-sample [(v, k)]. *)
Definition s (v k : nat) : vec2 :=
  clamp2
    (div2 (add2 i (mul2 (adds2 (Vec2 (floatn v) (floatn k)) 0.5)
                        (div2 t (Vec2 (floatn u) (floatn f)))))
          (u_inputImageSize U))
    0 1.

(** The test that decides whether a sub-sample is tallied ([z] before the
    [continue]). *)
Definition selected (coord : vec2) : bool :=
  let d := texture2D (u_inputImageBW U) coord in
  let r := step 0.5 (vx d) in
  if (u_colorRank U =? 1)%Z && ltb 0.5 r then true
  else if (u_colorRank U =? 2)%Z && Qle_bool r 0.5 then true
  else false.

Definition initial : buckets := repeat (vec4_splat 0, 0) e.

Definition sampled : buckets :=
  for_loop 0 u (fun v cb =>
    Some (for_loop 0 f (fun k cb =>
      let m := texture2D (u_inputImage U) (s v k) in
      if negb (selected (s v k)) then Some cb
      else Some (tally cb m)) cb)) initial.

Definition most_frequent : Q * vec4 := fold_left pick sampled (0, vec4_splat 0).

Definition main : vec4 :=
  let '(z, m) := most_frequent in
  let m := if (u_colorRank U =? 2)%Z && Qeq_bool z 0 then v else m in
  vec4_of (xyz m) 1.

End Generated.

End ColorSample.

(** ** [generateCharacterSelectionShader(fontSize)] *)

Module CharacterSelection.
Import Glsl.

Record uniforms : Type := Uniforms {
  u_characterTexture : sampler2D;
  u_charsetCols : Q;
  u_charsetRows : Q;
  u_sketchTexture : sampler2D;
  u_gridPixelDimensions : vec2;
  u_gridCellDimensions : vec2;
  u_charPaletteTexture : sampler2D;
  u_charPaletteSize : vec2
}.

Section Generated.

(** The template parameter [${t}], the font size. *)
Variable T : nat.

Variable U : uniforms.
Variable gl_FragCoord : vec2.

(** [const float u = float(${t}), f = u * u] *)
Definition u : Q := floatn T.
Definition f : Q := u * u.

(** [e]: the cell's origin in texture space; [v]: its extent (the value
    [v] holds after it is reassigned). *)
Definition r : vec2 := div2 (u_gridPixelDimensions U) (u_gridCellDimensions U).

Definition e : vec2 :=
  div2 (mul2 (floor2 (floor2 gl_FragCoord)) r) (u_gridPixelDimensions U).

Definition v : vec2 :=
  sub2 (div2 (mul2 (adds2 (floor2 (floor2 gl_FragCoord)) 1) r) (u_gridPixelDimensions U)) e.

Definition k : Q := 1 / u.

(** [vec2 r = vec2(float(f) + .5, float(u) + .5) * k] for the loop counters
    [u] (outer) and [f] (inner). *)
Definition offset (u f : nat) : vec2 := muls2 (Vec2 (floatn f + 0.5) (floatn u + 0.5)) k.

(** The sub-sample of the binary mask at [(u, f)]. *)
Definition mask (u f : nat) : vec4 :=
  texture2D (u_sketchTexture U) (add2 e (mul2 (offset u f) v)).

(** The flag [s] after the two loops that look for a sample with positive
    alpha. *)
Definition transparent : bool :=
  for_loop 0 T (fun u s =>
    if negb s then None
    else Some (for_loop 0 T (fun f s =>
      if negb s then None
      else
        let i := mask u f in
        Some (if ltb 0 (vw i) then false else s)) s)) true.

(** [m]: the atlas index of palette entry [u], read from the palette
    texture. *)
Definition m (u : nat) : Q :=
  let t := ux (u_charPaletteSize U) in
  let s := Vec2 ((floatn u + 0.5) / t) (0.5 / uy (u_charPaletteSize U)) in
  let r := texture2D (u_charPaletteTexture U) s in
  vx r * 255 + vy r * 255 * 256 + vz r * 255 * 65536.

(** The sub-sample of the glyph with atlas index [m] at [(u, f)]. *)
Definition glyph (m : Q) (u f : nat) : vec4 :=
  let y := floor (m / u_charsetCols U) in
  let s := Vec2 ((m - u_charsetCols U * y) / u_charsetCols U) (y / u_charsetRows U) in
  let C := Vec2 (1 / u_charsetCols U) (1 / u_charsetRows U) in
  texture2D (u_characterTexture U) (add2 s (mul2 (offset u f) C)).

(** The sum of squared differences accumulated in [y] by the two inner
    loops, for the glyph with atlas index [m]: the exact sum.  The value
    the shader accumulates in floating point is
    [CharacterSelectionMediump.ssd]. *)
Definition ssd (m : Q) : Q :=
  for_loop 0 T (fun u y =>
    Some (for_loop 0 T (fun f y =>
      let m := vx (mask u f) - vx (glyph m u f) in
      Some (y + m * m)) y)) 0.

(** One iteration of the scan of the palette, on the state [(i, g)].  The
    errors compared are the exact ones here; the shader compares the
    errors it has computed ([CharacterSelectionMediump.scan_body]), so
    that entries of equal or nearly equal exact error can compare either
    way. *)
Definition scan_body (u : nat) (ig : Q * Q) : option (Q * Q) :=
  let '(i, g) := ig in
  let t := ux (u_charPaletteSize U) in
  if Qle_bool t (floatn u) then None
  else
    let y := ssd (m u) / f in
    Some (if ltb y i then (y, m u) else (i, g)).

Definition scan : Q * Q := for_loop 0 1024 scan_body (1e20, 0).

Definition main : vec4 :=
  if transparent then vec4_splat 0
  else
    let '(_, g) := scan in
    let i := glsl_mod g 256 in
    let g := floor (g / 256) in
    Vec4 (i / 255) (g / 255) 0 1.

End Generated.

End CharacterSelection.

(** ** The shader sources

    The three generators are template strings: the text below is the text
    of [shaderGenerators.min] with the template parameters printed in
    decimal where the template interpolates them. *)

Module ShaderSource.

Definition LF : string := String (Ascii.ascii_of_nat 10) EmptyString.
Definition CRLF : string := String (Ascii.ascii_of_nat 13) LF.

Definition generateCharacterSelectionShader (t : nat) : string :=
  String.concat "" [
    LF;
    "precision mediump float;uniform sampler2D u_characterTexture;uniform flo";
    "at u_charsetCols,u_charsetRows;uniform sampler2D u_sketchTexture;uniform";
    " vec2 u_gridPixelDimensions,u_gridCellDimensions;uniform sampler2D u_cha";
    "rPaletteTexture;uniform vec2 u_charPaletteSize;const float u=float(";
    pretty t;
    "),f=u*u;void main(){vec2 v=floor(floor(gl_FragCoord.xy).xy),r=u_gridPixe";
    "lDimensions/u_gridCellDimensions,e=v*r/u_gridPixelDimensions;v=(v+vec2(1";
    "))*r/u_gridPixelDimensions-e;bool s=true;float k=1./u;for(int u=0;u<";
    pretty t;
    ";u++){if(!s)break;for(int f=0;f<";
    pretty t;
    ";f++){if(!s)break;vec2 r=vec2(float(f)+.5,float(u)+.5)*k;vec4 i=texture2";
    "D(u_sketchTexture,e+r*v);if(i.w>0.)s=false;}}if(s){gl_FragColor=vec4(0);";
    "return;}float i=1e20,g=0.,t=u_charPaletteSize.x;for(int u=0;u<1024;u++){";
    "if(float(u)>=t)break;vec2 s=vec2((float(u)+.5)/t,.5/u_charPaletteSize.y)";
    ";vec4 r=texture2D(u_charPaletteTexture,s);float m=r.x*255.+r.y*255.*256.";
    "+r.z*255.*65536.,y=floor(m/u_charsetCols);s=vec2((m-u_charsetCols*y)/u_c";
    "harsetCols,y/u_charsetRows);vec2 C=vec2(1./u_charsetCols,1./u_charsetRow";
    "s);y=0.;for(int u=0;u<";
    pretty t;
    ";u++)for(int f=0;f<";
    pretty t;
    ";f++){vec2 r=vec2(float(f)+.5,float(u)+.5)*k;float m=texture2D(u_sketchT";
    "exture,e+r*v).x-texture2D(u_characterTexture,s+r*C).x;y+=m*m;}y/=f;if(y<";
    "i)i=y,g=m;}i=mod(g,256.);g=floor(g/256.);gl_FragColor=vec4(i/255.,g/255.";
    ",0,1);}";
    LF
  ].

Definition generateBrightnessSampleShader (t i : nat) : string :=
  String.concat "" [
    LF;
    "precision mediump float;uniform sampler2D u_inputImage;uniform vec2 u_in";
    "putImageSize;uniform int u_gridCols,u_gridRows;const int u=";
    pretty t;
    ",f=";
    pretty i;
    ";void main(){vec2 v=floor(gl_FragCoord.xy),e=u_inputImageSize/vec2(float";
    "(u_gridCols),float(u_gridRows));v*=e;float i=0.,t=float(u*f);for(int s=0";
    ";s<u;s++)for(int g=0;g<f;g++){vec2 m=clamp((v+(vec2(float(s),float(g))+.";
    "5)*(e/vec2(float(u),float(f))))/u_inputImageSize,0.,1.);vec4 d=texture2D";
    "(u_inputImage,m);float t=.299*d.x+.587*d.y+.114*d.z;i+=t;}i/=t;gl_FragCo";
    "lor=vec4(vec3(i),1);}";
    LF
  ].

Definition generateColorSampleShader (t i n : nat) : string :=
  String.concat "" [
    LF;
    "precision mediump float;uniform sampler2D u_inputImage,u_inputImageBW;un";
    "iform vec2 u_inputImageSize;uniform int u_gridCols,u_gridRows,u_colorRan";
    "k;const int e=";
    pretty t;
    ",u=";
    pretty i;
    ",f=";
    pretty n;
    ";void main(){vec2 i=floor(gl_FragCoord.xy),t=u_inputImageSize/vec2(float";
    "(u_gridCols),float(u_gridRows));i*=t;vec2 k=(i+t*.5)/u_inputImageSize;ve";
    "c4 v=texture2D(u_inputImage,k),c[e];float b[e];for(int i=0;i<e;i++)c[i]=";
    "vec4(0),b[i]=0.;for(int v=0;v<u;v++)for(int k=0;k<f;k++){vec2 s=clamp((i";
    "+(vec2(float(v),float(k))+.5)*(t/vec2(float(u),float(f))))/u_inputImageS";
    "ize,0.,1.);vec4 m=texture2D(u_inputImage,s),d=texture2D(u_inputImageBW,s";
    ");float r=step(.5,d.x);bool z=false;if(u_colorRank==1&&r>.5)z=true;else ";
    "if(u_colorRank==2&&r<=.5)z=true;if(!z)continue;z=false;for(int i=0;i<e;i";
    "++)if(m.xyz==c[i].xyz){b[i]+=1.;z=true;break;}if(!z)for(int i=0;i<e;i++)";
    "if(b[i]==0.){c[i]=m;b[i]=1.;break;}}float z=0.;vec4 m=vec4(0);for(int i=";
    "0;i<e;i++){float u=b[i];vec4 k=c[i];if(u>z)z=u,m=k;}if(u_colorRank==2&&z";
    "==0.)m=v;gl_FragColor=vec4(m.xyz,1);}";
    LF
  ].

Definition brightnessSplitShader : string :=
  String.concat CRLF [
    "precision mediump float;";
    "";
    "// Uniforms";
    "uniform sampler2D u_inputImage;        // Original input image";
    "uniform sampler2D u_brightnessTexture; // Average brightness texture";
    "uniform vec2 u_inputImageSize;         // Size of the input image (e.g., 800.0, 800.0)";
    "uniform int u_gridCols;                // Number of grid columns (e.g., 100)";
    "uniform int u_gridRows;                // Number of grid rows (e.g., 100)";
    "uniform float u_pixelRatio;            // Device pixel ratio";
    "";
    "// Constants";
    "const float EPSILON = 0.01;           // Epsilon threshold for floating-point comparison";
    "";
    "void main() {";
    "    // Adjust fragment coordinates based on pixel ratio to get logical pixel position";
    "    vec2 logicalFragCoord = floor(gl_FragCoord.xy / u_pixelRatio);";
    "";
    "    // Calculate the size of each grid cell in logical pixels";
    "    float cellWidth = u_inputImageSize.x / float(u_gridCols);";
    "    float cellHeight = u_inputImageSize.y / float(u_gridRows);";
    "";
    "    // Normalize fragment coordinates to [0, 1] for sampling the original image";
    "    vec2 imageTexCoord = logicalFragCoord / u_inputImageSize;";
    "";
    "    // Sample the original image color at the current fragment";
    "    vec4 originalColor = texture2D(u_inputImage, imageTexCoord);";
    "";
    "    // Early return if pixel is transparent";
    "    if (originalColor.a < EPSILON) {";
    "        gl_FragColor = vec4(0.0, 0.0, 0.0, 0.0);";
    "        return;";
    "    }";
    "";
    "    // Rest of the brightness processing for non-transparent pixels";
    "    float gridX = floor(logicalFragCoord.x / cellWidth);";
    "    float gridY = floor(logicalFragCoord.y / cellHeight);";
    "";
    "    gridX = clamp(gridX, 0.0, float(u_gridCols - 1));";
    "    gridY = clamp(gridY, 0.0, float(u_gridRows - 1));";
    "";
    "    vec2 brightnessTexCoord = (vec2(gridX, gridY) + 0.5) / vec2(float(u_gridCols), float(u_gridRows));";
    "    float averageBrightness = texture2D(u_brightnessTexture, brightnessTexCoord).r;";
    "";
    "    float fragmentBrightness = 0.299 * originalColor.r + 0.587 * originalColor.g + 0.114 * originalColor.b;";
    "    float brightnessDifference = fragmentBrightness - averageBrightness;";
    "";
    "    float finalColorValue = brightnessDifference < -EPSILON ? 0.0 : 1.0;";
    "    gl_FragColor = vec4(vec3(finalColorValue), 1.0);";
    "}";
    ""
  ].

Definition vertexShader : string :=
  String.concat CRLF [
    "precision mediump float;";
    "";
    "attribute vec3 aPosition;";
    "attribute vec2 aTexCoord;";
    "";
    "varying vec2 v_texCoord;";
    "";
    "void main() {";
    "    vec4 positionVec4 = vec4(aPosition, 1.0);";
    "";
    "    positionVec4.xy = positionVec4.xy * 2.0 - 1.0;";
    "";
    "    gl_Position = positionVec4;";
    "";
    "    v_texCoord = aTexCoord;";
    "}"
  ].

End ShaderSource.

(** ** JavaScript values *)

Module Js.

(** An object whose key order matters ([Object.keys]) is an association
    list in insertion order. *)
Inductive value : Type :=
| Undefined
| Null
| Boolean (b : bool)
| Number (n : Q)
| Str (s : string)
| Function (name : string) (props : list (string * value))
| Object (props : list (string * value)).

Definition object : Type := list (string * value).

(** [typeof v] *)
Definition typeof (v : value) : string :=
  match v with
  | Undefined => "undefined"
  | Null | Object _ => "object"
  | Boolean _ => "boolean"
  | Number _ => "number"
  | Str _ => "string"
  | Function _ _ => "function"
  end.

(** The truthiness of a value in a condition. *)
Definition truthy (v : value) : bool :=
  match v with
  | Undefined | Null => false
  | Boolean b => b
  | Number n => negb (Qeq_bool n 0)
  | Str s => negb (String.eqb s "")
  | Function _ _ | Object _ => true
  end.

(** [o.k] on the properties of an object: [undefined] when [k] is absent. *)
Fixpoint get (o : object) (k : string) : value :=
  match o with
  | [] => Undefined
  | (k', v) :: rest => if String.eqb k' k then v else get rest k
  end.

(** [v.k] for a truthy value [v]; a primitive has none of the properties
    read here. *)
Definition prop (v : value) (k : string) : value :=
  match v with
  | Object o | Function _ o => get o k
  | _ => Undefined
  end.

(** [Object.keys(o)] *)
Definition keys (o : object) : list string := fst <$> o.

(** [s.toLowerCase()], on the ASCII letters. *)
Definition lower (c : Ascii.ascii) : Ascii.ascii :=
  let n := Ascii.nat_of_ascii c in
  if (65 <=? n)%nat && (n <=? 90)%nat then Ascii.ascii_of_nat (n + 32) else c.

Fixpoint toLowerCase (s : string) : string :=
  match s with
  | EmptyString => EmptyString
  | String c rest => String (lower c) (toLowerCase rest)
  end.

(** [s.includes(sub)] *)
Fixpoint includes (s sub : string) : bool :=
  String.prefix sub s ||
  match s with
  | EmptyString => false
  | String _ rest => includes rest sub
  end.

(** [l.join(sep)] *)
Definition join (sep : string) (l : list string) : string := String.concat sep l.

(** A call either returns or throws [new Error(message)]. *)
Inductive completion (A : Type) : Type :=
| Return (a : A)
| Throw (message : string).
Arguments Return {A} a.
Arguments Throw {A} message.

End Js.

(** ** Resolution of the host's base class ([getBaseClass]) *)

Module BaseClass.
Import Js.

Section Lookup.

(** The two places the class is looked for: the namespace [renderers]
    imported from the host library, and the global object [window].
    [None] is a binding for which [typeof] gives ["undefined"]. *)
Variable renderers : option object.
Variable window : option object.

Definition strategy1 : option value :=
  match renderers with
  | Some ns =>
      let renderer2d := get ns "renderer2d" in
      let feature := prop renderer2d "feature" in
      let cls := prop feature "P5AsciifyAbstractFeatureRenderer2D" in
      if truthy renderer2d && truthy feature
         && negb (String.eqb (typeof cls) "undefined")
      then Some cls else None
  | None => None
  end.

Definition strategy2 : option value :=
  match window with
  | Some w =>
      let cls := get w "P5AsciifyAbstractFeatureRenderer2D" in
      if truthy cls && String.eqb (typeof cls) "function" then Some cls else None
  | None => None
  end.

Definition related (key : string) : bool :=
  includes (toLowerCase key) "asciify" || includes (toLowerCase key) "p5".

Definition availableGlobals : list string :=
  match window with
  | Some w => List.filter related (keys w)
  | None => []
  end.

Definition notFoundMessage : string :=
  ("`P5AsciifyAbstractFeatureRenderer2D` not found. " ++
   "Please ensure p5.asciify is loaded before this plugin. " ++
   (if (0 <? length availableGlobals)%nat
    then "Found related globals: " ++ join ", " availableGlobals
    else "No related globals found."))%string.

Definition getBaseClass : completion value :=
  match strategy1 with
  | Some cls => Return cls
  | None =>
      match strategy2 with
      | Some cls => Return cls
      | None => Throw notFoundMessage
      end
  end.

End Lookup.

End BaseClass.

(** ** The renderer's options *)

Module Options.
Import Js.

Definition ACCURATE_DEFAULT_OPTIONS : gmap string value :=
  list_to_map [
    ("enabled", Boolean true);
    ("characters", Str " .:-=+*%@#");
    ("characterColor", Str "#FFFFFF");
    ("characterColorMode", Str "sampled");
    ("backgroundColor", Str "#000000");
    ("backgroundColorMode", Str "sampled");
    ("invertMode", Boolean false);
    ("rotationAngle", Number 0);
    ("flipHorizontally", Boolean false);
    ("flipVertically", Boolean false)
  ].

(** [{ ...a, ...b }]: the properties of [b] override those of [a]. *)
Definition spread (a b : gmap string value) : gmap string value := b ∪ a.

(** The constructor's parameter [options = ACCURATE_DEFAULT_OPTIONS]:
    [None] is an argument that is [undefined] or left out. *)
Definition defaulted (options : option (gmap string value)) : gmap string value :=
  match options with
  | Some o => o
  | None => ACCURATE_DEFAULT_OPTIONS
  end.

Definition mergedOptions (options : option (gmap string value)) : gmap string value :=
  spread ACCURATE_DEFAULT_OPTIONS (defaulted options).

End Options.

(** ** The renderer class ([P5AsciifyAccurateRenderer]) and the plugin *)

Module Renderer.
Import Js ShaderSource.

(** The p5 instance hands out the objects it creates; an object is known by
    the number it was created under. *)
Record p5 : Type := P5 { created : nat }.

Record Shader : Type := MkShader {
  shader_id : nat;
  vertSrc : string;
  fragSrc : string
}.

Inductive constant : Type := UNSIGNED_INT | NEAREST.

Record FramebufferOptions : Type := MkFramebufferOptions {
  density : nat;
  opt_width : nat;
  opt_height : nat;
  depthFormat : constant;
  textureFiltering : constant
}.

Record Framebuffer : Type := MkFramebuffer {
  framebuffer_id : nat;
  settings : FramebufferOptions;
  width : nat;
  height : nat
}.

Definition createShader (p : p5) (vert frag : string) : Shader * p5 :=
  (MkShader (created p) vert frag, P5 (S (created p))).

Definition createFramebuffer (p : p5) (o : FramebufferOptions) : Framebuffer * p5 :=
  (MkFramebuffer (created p) o (opt_width o) (opt_height o), P5 (S (created p))).

(** [fb.resize(w, h)] *)
Definition resize (fb : Framebuffer) (w h : nat) : Framebuffer :=
  MkFramebuffer (framebuffer_id fb) (settings fb) w h.

Record P5AsciifyGrid : Type := MkGrid {
  cols : nat;
  rows : nat;
  cellWidth : nat;
  cellHeight : nat;
  grid_width : nat;
  grid_height : nat
}.

Record P5AsciifyFontManager : Type := MkFontManager {
  fontSize : nat
}.

Section Class.

(** The base class belongs to the host library.  What it keeps besides the
    fields this class reads is [Host]; its constructor and its
    [resizeFramebuffers] are whatever the host provides. *)
Variable Host : Type.

Record Base : Type := MkBase {
  _p : p5;
  _captureFramebuffer : Framebuffer;
  _grid : P5AsciifyGrid;
  _fontManager : P5AsciifyFontManager;
  _options : gmap string value;
  _host : Host
}.

Variable super_constructor :
  p5 -> Framebuffer -> P5AsciifyGrid -> P5AsciifyFontManager -> gmap string value -> Base.
Variable super_resizeFramebuffers : Base -> Base.

Record P5AsciifyAccurateRenderer : Type := MkRenderer {
  super : Base;
  _characterSelectionShader : Shader;
  _brightnessSampleShader : Shader;
  _colorSampleShader : Shader;
  _brightnessSplitShader : Shader;
  _brightnessSampleFramebuffer : Framebuffer;
  _brightnessSplitFramebuffer : Framebuffer
}.

(** [this._p.createShader(vert, frag)] and [this._p.createFramebuffer(o)]:
    the new object and [this] with the p5 instance as the call leaves it. *)
Definition with_p (this : Base) (p : p5) : Base :=
  MkBase p (_captureFramebuffer this) (_grid this) (_fontManager this)
         (_options this) (_host this).

Definition this_createShader (this : Base) (vert frag : string) : Shader * Base :=
  let '(sh, p) := createShader (_p this) vert frag in (sh, with_p this p).

Definition this_createFramebuffer (this : Base) (o : FramebufferOptions)
  : Framebuffer * Base :=
  let '(fb, p) := createFramebuffer (_p this) o in (fb, with_p this p).

Definition constructor (p5Instance : p5) (captureFramebuffer : Framebuffer)
    (grid : P5AsciifyGrid) (fontManager : P5AsciifyFontManager)
    (options : option (gmap string value)) : P5AsciifyAccurateRenderer :=
  let mergedOptions := Options.mergedOptions options in
  let this := super_constructor p5Instance captureFramebuffer grid fontManager mergedOptions in
  let '(characterSelectionShader, this) :=
    this_createShader this vertexShader
      (generateCharacterSelectionShader (fontSize (_fontManager this))) in
  let '(brightnessSampleShader, this) :=
    this_createShader this vertexShader
      (generateBrightnessSampleShader (cellHeight (_grid this)) (cellWidth (_grid this))) in
  let '(colorSampleShader, this) :=
    this_createShader this vertexShader
      (generateColorSampleShader 16 (cellHeight (_grid this)) (cellWidth (_grid this))) in
  let '(brightnessSplitShader, this) :=
    this_createShader this vertexShader brightnessSplitShader in
  let '(brightnessSampleFramebuffer, this) :=
    this_createFramebuffer this
      (MkFramebufferOptions 1 (cols (_grid this)) (rows (_grid this)) UNSIGNED_INT NEAREST) in
  let '(brightnessSplitFramebuffer, this) :=
    this_createFramebuffer this
      (MkFramebufferOptions 1 (width (_captureFramebuffer this))
         (height (_captureFramebuffer this)) UNSIGNED_INT NEAREST) in
  MkRenderer this characterSelectionShader brightnessSampleShader colorSampleShader
    brightnessSplitShader brightnessSampleFramebuffer brightnessSplitFramebuffer.

Definition resizeFramebuffers (this : P5AsciifyAccurateRenderer)
  : P5AsciifyAccurateRenderer :=
  let base := super_resizeFramebuffers (super this) in
  MkRenderer base
    (_characterSelectionShader this) (_brightnessSampleShader this)
    (_colorSampleShader this) (_brightnessSplitShader this)
    (resize (_brightnessSampleFramebuffer this) (cols (_grid base)) (rows (_grid base)))
    (resize (_brightnessSplitFramebuffer this)
       (width (_captureFramebuffer base)) (height (_captureFramebuffer base))).

Definition resetShaders (this : P5AsciifyAccurateRenderer)
  : P5AsciifyAccurateRenderer :=
  let base := super this in
  let '(characterSelectionShader, base) :=
    this_createShader base vertexShader
      (generateCharacterSelectionShader (fontSize (_fontManager base))) in
  let '(brightnessSampleShader, base) :=
    this_createShader base vertexShader
      (generateBrightnessSampleShader (cellHeight (_grid base)) (cellWidth (_grid base))) in
  let '(colorSampleShader, base) :=
    this_createShader base vertexShader
      (generateColorSampleShader 16 (cellHeight (_grid base)) (cellWidth (_grid base))) in
  MkRenderer base characterSelectionShader brightnessSampleShader colorSampleShader
    (_brightnessSplitShader this)
    (_brightnessSampleFramebuffer this) (_brightnessSplitFramebuffer this).

(** [AccurateRendererPlugin.create]: [options || ACCURATE_DEFAULT_OPTIONS]. *)
Definition create (p : p5) (captureFramebuffer : Framebuffer) (grid : P5AsciifyGrid)
    (fontManager : P5AsciifyFontManager) (options : option (gmap string value))
  : P5AsciifyAccurateRenderer :=
  constructor p captureFramebuffer grid fontManager
    (Some (match options with
           | Some o => o
           | None => Options.ACCURATE_DEFAULT_OPTIONS
           end)).

End Class.

Arguments MkBase {Host}.
Arguments _p {Host}.
Arguments _captureFramebuffer {Host}.
Arguments _grid {Host}.
Arguments _fontManager {Host}.
Arguments _options {Host}.
Arguments _host {Host}.
Arguments MkRenderer {Host}.
Arguments super {Host}.
Arguments _characterSelectionShader {Host}.
Arguments _brightnessSampleShader {Host}.
Arguments _colorSampleShader {Host}.
Arguments _brightnessSplitShader {Host}.
Arguments _brightnessSampleFramebuffer {Host}.
Arguments _brightnessSplitFramebuffer {Host}.
Arguments with_p {Host}.
Arguments this_createShader {Host}.
Arguments this_createFramebuffer {Host}.
Arguments constructor {Host}.
Arguments resizeFramebuffers {Host}.
Arguments resetShaders {Host}.
Arguments create {Host}.

End Renderer.

(** ** Notions the properties are stated with *)

Module Spec.
Import Glsl.

(** [sub] occurs in [s]. *)
Definition occurs_in (sub s : string) : Prop :=
  exists a b : string, s = (a ++ sub ++ b)%string.

(** The arithmetic mean of a list of values. *)
Definition sum (l : list Q) : Q := fold_right Qplus 0 l.

Definition arithmetic_mean (l : list Q) : Q := sum l / inject_Z (Z.of_nat (length l)).

(** A texture coordinate inside [0,1] x [0,1]. *)
Definition in_texture_space (c : vec2) : Prop :=
  (0 <= ux c /\ ux c <= 1) /\ (0 <= uy c /\ uy c <= 1).

(** The pairs of loop counters of a [rows] x [columns] double loop, in the
    order the loops visit them. *)
Definition traversal (rows columns : nat) : list (nat * nat) :=
  flat_map (fun a => map (fun b => (a, b)) (seq 0 columns)) (seq 0 rows).

(** The brightness splitter as an exact indicator of
    [luminance >= average], with no tolerance in the comparison. *)
Definition exact_indicator (U : BrightnessSplit.uniforms) (gl_FragCoord : vec2) : Prop :=
  ~ vw (BrightnessSplit.originalColor U gl_FragCoord) < BrightnessSplit.EPSILON ->
  BrightnessSplit.main U gl_FragCoord =
    vec4_of (vec3_splat
               (if Qle_bool (BrightnessSplit.averageBrightness U gl_FragCoord)
                            (BrightnessSplit.fragmentBrightness U gl_FragCoord)
                then 1 else 0)) 1.

(** A texture whose first channel holds values of [0,1], as every
    normalised texture format does. *)
Definition normalised (s : sampler2D) : Prop := forall c, 0 <= vx (s c) /\ vx (s c) <= 1.

(** The colour that carries the atlas index [g] of a glyph: its two
    base-256 digits in the red and green channels. *)
Definition encode_index (g : Q) : vec4 :=
  Vec4 (glsl_mod g 256 / 255) (floor (g / 256) / 255) 0 1.

(** Position [u] is an entry of the palette, whose size is
    [u_charPaletteSize.x]. *)
Definition palette_entry (U : CharacterSelection.uniforms) (u : nat) : Prop :=
  floatn u < ux (CharacterSelection.u_charPaletteSize U).

(** One iteration of a scan for the least error, for entries of error
    [err u] and atlas index [idx u] in a palette of size [t]: the shape of
    the matcher's loop body. *)
Definition scan_step (err idx : nat -> Q) (t : Q) (u : nat) (ig : Q * Q)
  : option (Q * Q) :=
  let '(i, g) := ig in
  if Qle_bool t (floatn u) then None
  else Some (if ltb (err u) i then (err u, idx u) else (i, g)).

(** Position [u] is an entry of the palette that the scan reaches: one of
    the first 1024. *)
Definition scanned_entry (U : CharacterSelection.uniforms) (u : nat) : Prop :=
  (u < 1024)%nat /\ palette_entry U u.


(** The sub-samples of a cell that the colour sampler visits, in the order
    it visits them, and the colours of those the requested rank selects. *)
Definition sub_samples (u f : nat) (U : ColorSample.uniforms) (gl_FragCoord : vec2)
  : list vec2 :=
  map (fun vk => ColorSample.s u f U gl_FragCoord (fst vk) (snd vk)) (traversal u f).

Definition matching_colors (u f : nat) (U : ColorSample.uniforms) (gl_FragCoord : vec2)
  : list vec4 :=
  map (texture2D (ColorSample.u_inputImage U))
      (List.filter (ColorSample.selected U) (sub_samples u f U gl_FragCoord)).

(** The distinct colours of a list of samples, in the order in which they
    are first encountered. *)
Fixpoint first_encounters (ms : list vec4) : list vec4 :=
  match ms with
  | [] => []
  | m :: rest => m :: List.filter (fun c => negb (xyz_eqb c m)) (first_encounters rest)
  end.

(** How often a colour occurs among the samples. *)
Definition occurrences (c : vec4) (ms : list vec4) : nat :=
  length (List.filter (xyz_eqb c) ms).

(** The tallies of a sampler with [e] buckets: the first [e] distinct
    colours in encounter order, each with its number of occurrences. *)
Definition tallies (e : nat) (ms : list vec4) : list (vec4 * nat) :=
  map (fun c => (c, occurrences c ms)) (firstn e (first_encounters ms)).

(** Two colours with equal red, green and blue channels. *)
Definition same_xyz (a b : vec4) : Prop :=
  vx a == vx b /\ vy a == vy b /\ vz a == vz b.

(** Pairwise distinct colours. *)
Fixpoint distinct_colors (l : list vec4) : Prop :=
  match l with
  | [] => True
  | c :: rest => (forall c', In c' rest -> xyz_eqb c' c = false) /\ distinct_colors rest
  end.

(** What one more sample does to the tallies: the tally of its colour
    goes up by one, or the colour takes the next free bucket, if any. *)
Fixpoint count_up (m : vec4) (tl : list (vec4 * nat)) : option (list (vec4 * nat)) :=
  match tl with
  | [] => None
  | (c, n) :: rest =>
      if xyz_eqb m c then Some ((c, S n) :: rest)
      else cons (c, n) <$> count_up m rest
  end.

Definition tallies_step (e : nat) (tl : list (vec4 * nat)) (m : vec4) : list (vec4 * nat) :=
  match count_up m tl with
  | Some tl' => tl'
  | None => if (length tl <? e)%nat then tl ++ [(m, 1%nat)] else tl
  end.

(** A bucket of the shader holds a tally: the same colour channels, the
    same count. *)
Definition bucket_holds (cb : vec4 * Q) (cn : vec4 * nat) : Prop :=
  xyz_eqb (fst cb) (fst cn) = true /\ snd cb == floatn (snd cn).

(** The [e] buckets of the shader hold the tallies [tl], in their order,
    and are otherwise as initialised. *)
Definition buckets_hold (e : nat) (cb : ColorSample.buckets) (tl : list (vec4 * nat)) : Prop :=
  exists occupied : ColorSample.buckets,
    cb = occupied ++ repeat (vec4_splat 0, 0) (e - length tl) /\
    Forall2 bucket_holds occupied tl.

(** Two sets of uniforms that give the sampler the same inputs: textures
    that agree texel by texel, and the same sizes and rank. *)
Definition same_inputs (U U' : ColorSample.uniforms) : Prop :=
  (forall c, ColorSample.u_inputImage U c = ColorSample.u_inputImage U' c) /\
  (forall c, ColorSample.u_inputImageBW U c = ColorSample.u_inputImageBW U' c) /\
  ColorSample.u_inputImageSize U = ColorSample.u_inputImageSize U' /\
  ColorSample.u_gridCols U = ColorSample.u_gridCols U' /\
  ColorSample.u_gridRows U = ColorSample.u_gridRows U' /\
  ColorSample.u_colorRank U = ColorSample.u_colorRank U'.

(** Strings made of decimal digits, and strings that do not start with
    one. *)
Definition is_digit (c : Ascii.ascii) : bool :=
  let n := Ascii.nat_of_ascii c in (48 <=? n)%nat && (n <=? 57)%nat.

Fixpoint all_digits (s : string) : Prop :=
  match s with
  | EmptyString => True
  | String c rest => is_digit c = true /\ all_digits rest
  end.

Definition no_leading_digit (s : string) : Prop :=
  match s with
  | EmptyString => True
  | String c _ => is_digit c = false
  end.

(** A renderer whose three generator-derived shaders are the generators'
    output for the font size and the cell dimensions the renderer holds. *)
Definition generated_from_current {Host : Type}
    (this : Renderer.P5AsciifyAccurateRenderer Host) : Prop :=
  let base := Renderer.super this in
  let fontSize := Renderer.fontSize (Renderer._fontManager base) in
  let cellHeight := Renderer.cellHeight (Renderer._grid base) in
  let cellWidth := Renderer.cellWidth (Renderer._grid base) in
  (Renderer.vertSrc (Renderer._characterSelectionShader this) = ShaderSource.vertexShader /\
   Renderer.fragSrc (Renderer._characterSelectionShader this)
     = ShaderSource.generateCharacterSelectionShader fontSize) /\
  (Renderer.vertSrc (Renderer._brightnessSampleShader this) = ShaderSource.vertexShader /\
   Renderer.fragSrc (Renderer._brightnessSampleShader this)
     = ShaderSource.generateBrightnessSampleShader cellHeight cellWidth) /\
  (Renderer.vertSrc (Renderer._colorSampleShader this) = ShaderSource.vertexShader /\
   Renderer.fragSrc (Renderer._colorSampleShader this)
     = ShaderSource.generateColorSampleShader 16 cellHeight cellWidth).

(** A source that one of the three generators returns. *)
Definition from_generator (src : string) : Prop :=
  (exists t, src = ShaderSource.generateCharacterSelectionShader t) \/
  (exists t i, src = ShaderSource.generateBrightnessSampleShader t i) \/
  (exists t i n, src = ShaderSource.generateColorSampleShader t i n).

(** A shader field that [resetShaders()] compiles anew from a generator:
    after the call it holds a shader object created during the call, whose
    source a generator returned. *)
Definition recompiled_by_reset {Host : Type}
    (this : Renderer.P5AsciifyAccurateRenderer Host)
    (field : Renderer.P5AsciifyAccurateRenderer Host -> Renderer.Shader) : Prop :=
  (Renderer.created (Renderer._p (Renderer.super this))
   <= Renderer.shader_id (field (Renderer.resetShaders this)))%nat /\
  from_generator (Renderer.fragSrc (field (Renderer.resetShaders this))).

(** [resetShaders()] as compiling all four shader programs anew from
    generators. *)
Definition reset_recompiles_all {Host : Type}
    (this : Renderer.P5AsciifyAccurateRenderer Host) : Prop :=
  recompiled_by_reset this Renderer._characterSelectionShader /\
  recompiled_by_reset this Renderer._brightnessSampleShader /\
  recompiled_by_reset this Renderer._colorSampleShader /\
  recompiled_by_reset this Renderer._brightnessSplitShader.

End Spec.

(** ** Concrete inputs *)

Module Examples.
Import Glsl.

Definition pixel_centre : vec2 := Vec2 0.5 0.5.

(** A uniformly grey, opaque capture buffer. *)
Definition grey (level : Q) : sampler2D := fun _ => Vec4 level level level 1.

Definition sample_uniforms : BrightnessSample.uniforms :=
  BrightnessSample.Uniforms (grey (127 # 255)) (Vec2 8 8) 2 2.

(** A capture buffer of 2 x 1 pixels, the left one of grey level 127/255
    and the right one of level 129/255, on a grid of one cell; the
    brightness map the sampler computes for it (with the cell's height 1
    and width 2, as the renderer passes them); and the splitter's inputs
    for that frame. *)
Definition two_tone : sampler2D :=
  fun c => if ltb (ux c) 0.5 then Vec4 (127 # 255) (127 # 255) (127 # 255) 1
           else Vec4 (129 # 255) (129 # 255) (129 # 255) 1.

Definition two_tone_brightness : sampler2D :=
  fun _ => BrightnessSample.main 1 2
             (BrightnessSample.Uniforms two_tone (Vec2 2 1) 1 1) pixel_centre.

Definition split_uniforms : BrightnessSplit.uniforms :=
  BrightnessSplit.Uniforms two_tone two_tone_brightness (Vec2 2 1) 1 1 1.

(** An opaque white mask and a fully transparent one. *)
Definition white : sampler2D := fun _ => Vec4 1 1 1 1.
Definition clear : sampler2D := fun _ => Vec4 0 0 0 0.

(** An atlas of two glyphs side by side: glyph 0, on the left half, is
    black; glyph 1, on the right half, is white. *)
Definition two_glyph_atlas : sampler2D :=
  fun c => if ltb (ux c) 0.5 then Vec4 0 0 0 1 else Vec4 1 1 1 1.

(** A palette of [n] entries: the last one names glyph 1, all the others
    name glyph 0. *)
Definition palette_last_white (n : Q) : sampler2D :=
  fun c => if ltb (ux c) ((n - 1) / n) then Vec4 0 0 0 1 else Vec4 (1 # 255) 0 0 1.

(** The matcher on a grid of one cell, with font size 1. *)
Definition matcher_uniforms (sketch : sampler2D) (n : Q) : CharacterSelection.uniforms :=
  CharacterSelection.Uniforms two_glyph_atlas 2 1 sketch (Vec2 8 8) (Vec2 1 1)
    (palette_last_white n) (Vec2 n 1).

(** A capture buffer whose left half is red and whose right half is blue,
    under a mask that is white everywhere, on a grid of one cell. *)
Definition red_blue : sampler2D :=
  fun c => if ltb (ux c) 0.5 then Vec4 1 0 0 1 else Vec4 0 0 1 1.

Definition sampler_uniforms (rank : Z) : ColorSample.uniforms :=
  ColorSample.Uniforms red_blue white (Vec2 2 2) 1 1 rank.

(** A page on which p5 and an old p5.asciify have put their globals, but
    neither the [renderers] namespace nor the class is to be found. *)
Definition bare_window : Js.object :=
  [ ("document", Js.Object []);
    ("p5", Js.Function "p5" []);
    ("P5Asciifier", Js.Function "P5Asciifier" []);
    ("setup", Js.Function "setup" []) ].

(** A host whose base class keeps nothing beyond the fields the renderer
    reads, and a renderer built on it. *)
Definition plain_host (p : Renderer.p5) (c : Renderer.Framebuffer)
    (g : Renderer.P5AsciifyGrid) (fm : Renderer.P5AsciifyFontManager)
    (o : gmap string Js.value) : Renderer.Base unit :=
  Renderer.MkBase p c g fm o tt.

Definition capture : Renderer.Framebuffer :=
  Renderer.MkFramebuffer 0
    (Renderer.MkFramebufferOptions 1 800 600 Renderer.UNSIGNED_INT Renderer.NEAREST)
    800 600.

Definition grid : Renderer.P5AsciifyGrid := Renderer.MkGrid 100 37 8 16 800 592.

Definition plain_renderer : Renderer.P5AsciifyAccurateRenderer unit :=
  Renderer.constructor plain_host (Renderer.P5 1) capture grid
    (Renderer.MkFontManager 16) None.

End Examples.

(** ** The render pass ([P5AsciifyAccurateRenderer.render]) *)

Module Render.
Import Js Renderer.

(** [render] only issues calls on the p5 instance, on shaders and on
    framebuffers.  A call names an object by the field it is read from. *)
Inductive object : Type :=
| this_captureFramebuffer
| this_brightnessSampleFramebuffer
| this_brightnessSplitFramebuffer
| this_primaryColorFramebuffer
| this_secondaryColorFramebuffer
| this_transformFramebuffer
| this_rotationFramebuffer
| this_characterFramebuffer
| this_fontManager_texture
| this_characterColorPalette_framebuffer.

Inductive program : Type :=
| this_brightnessSampleShader
| this_brightnessSplitShader
| this_colorSampleShader
| this_characterSelectionShader.

(** The value of a uniform: a texture, a number or an array of numbers. *)
Inductive uniform : Type :=
| sampler (o : object)
| number (n : Q)
| numbers (l : list Q).

Inductive call : Type :=
| begin (o : object)
| end_ (o : object)
| clear
| background (args : list value)
| shader (s : program)
| setUniform (s : program) (name : string) (v : uniform)
| rect (x y w h : Q).

(** What [render] reads from the fields the base class owns. *)
Record HostView : Type := MkHostView {
  primaryColorFramebuffer_width : nat;
  primaryColorFramebuffer_height : nat;
  secondaryColorFramebuffer_width : nat;
  secondaryColorFramebuffer_height : nat;
  characterFramebuffer_width : nat;
  characterFramebuffer_height : nat;
  fontManager_textureColumns : nat;
  fontManager_textureRows : nat;
  characterColorPalette_colors_length : nat;
  pixelDensity : Q
}.

(** [this._options.key]: [undefined] when the key is absent. *)
Definition option_value (options : gmap string value) (key : string) : value :=
  match options !! key with
  | Some v => v
  | None => Undefined
  end.

(** [v === n] for a number literal [n]. *)
Definition strict_equals_number (v : value) (n : Q) : bool :=
  match v with
  | Number m => Qeq_bool m n
  | _ => false
  end.

Section Render.

Variable Host : Type.
Variable view : Host -> HostView.
Variable this : P5AsciifyAccurateRenderer Host.

Definition inputImageSize : uniform :=
  numbers [ Glsl.floatn (width (_captureFramebuffer (super this)));
            Glsl.floatn (height (_captureFramebuffer (super this))) ].

Definition gridCols : uniform := number (Glsl.floatn (cols (_grid (super this)))).
Definition gridRows : uniform := number (Glsl.floatn (rows (_grid (super this)))).

Definition brightnessSamplePass : list call :=
  [ begin this_brightnessSampleFramebuffer;
    clear;
    shader this_brightnessSampleShader;
    setUniform this_brightnessSampleShader "u_inputImage" (sampler this_captureFramebuffer);
    setUniform this_brightnessSampleShader "u_inputImageSize" inputImageSize;
    setUniform this_brightnessSampleShader "u_gridCols" gridCols;
    setUniform this_brightnessSampleShader "u_gridRows" gridRows;
    rect 0 0 (Glsl.floatn (width (_brightnessSampleFramebuffer this)))
             (Glsl.floatn (height (_brightnessSampleFramebuffer this)));
    end_ this_brightnessSampleFramebuffer ].

Definition brightnessSplitPass : list call :=
  [ begin this_brightnessSplitFramebuffer;
    clear;
    shader this_brightnessSplitShader;
    setUniform this_brightnessSplitShader "u_inputImage" (sampler this_captureFramebuffer);
    setUniform this_brightnessSplitShader "u_brightnessTexture"
      (sampler this_brightnessSampleFramebuffer);
    setUniform this_brightnessSplitShader "u_inputImageSize" inputImageSize;
    setUniform this_brightnessSplitShader "u_gridCols" gridCols;
    setUniform this_brightnessSplitShader "u_gridRows" gridRows;
    setUniform this_brightnessSplitShader "u_pixelRatio"
      (number (pixelDensity (view (_host (super this)))));
    rect 0 0 (Glsl.floatn (width (_brightnessSplitFramebuffer this)))
             (Glsl.floatn (height (_brightnessSplitFramebuffer this)));
    end_ this_brightnessSplitFramebuffer ].

(** The body of a colour pass: a flat fill when the mode is [1], and the
    colour sampler with the given rank otherwise. *)
Definition colorPass (target : object) (mode color : string) (rank : Q) (w h : nat)
  : list call :=
  [ begin target ] ++
  (if strict_equals_number (option_value (_options (super this)) mode) 1
   then [ background [ option_value (_options (super this)) color ] ]
   else
     [ clear;
       shader this_colorSampleShader;
       setUniform this_colorSampleShader "u_inputImage" (sampler this_captureFramebuffer);
       setUniform this_colorSampleShader "u_inputImageBW"
         (sampler this_brightnessSplitFramebuffer);
       setUniform this_colorSampleShader "u_inputImageSize" inputImageSize;
       setUniform this_colorSampleShader "u_gridCols" gridCols;
       setUniform this_colorSampleShader "u_gridRows" gridRows;
       setUniform this_colorSampleShader "u_colorRank" (number rank);
       rect 0 0 (Glsl.floatn w) (Glsl.floatn h) ]) ++
  [ end_ target ].

Definition primaryColorPass : list call :=
  colorPass this_primaryColorFramebuffer "characterColorMode" "characterColor" 1
    (primaryColorFramebuffer_width (view (_host (super this))))
    (primaryColorFramebuffer_height (view (_host (super this)))).

Definition secondaryColorPass : list call :=
  colorPass this_secondaryColorFramebuffer "backgroundColorMode" "backgroundColor" 2
    (secondaryColorFramebuffer_width (view (_host (super this))))
    (secondaryColorFramebuffer_height (view (_host (super this)))).

(** [flag ? 255 : 0] *)
Definition channel (flag : value) : value :=
  if truthy flag then Number 255 else Number 0.

Definition transformPass : list call :=
  [ begin this_transformFramebuffer;
    background [ channel (option_value (_options (super this)) "invertMode");
                 channel (option_value (_options (super this)) "flipHorizontally");
                 channel (option_value (_options (super this)) "flipVertically") ];
    end_ this_transformFramebuffer ].

Definition rotationPass : list call :=
  [ begin this_rotationFramebuffer;
    background [ option_value (_options (super this)) "rotationAngle" ];
    end_ this_rotationFramebuffer ].

Definition characterPass : list call :=
  [ begin this_characterFramebuffer;
    clear;
    shader this_characterSelectionShader;
    setUniform this_characterSelectionShader "u_characterTexture"
      (sampler this_fontManager_texture);
    setUniform this_characterSelectionShader "u_charsetCols"
      (number (Glsl.floatn (fontManager_textureColumns (view (_host (super this))))));
    setUniform this_characterSelectionShader "u_charsetRows"
      (number (Glsl.floatn (fontManager_textureRows (view (_host (super this))))));
    setUniform this_characterSelectionShader "u_charPaletteTexture"
      (sampler this_characterColorPalette_framebuffer);
    setUniform this_characterSelectionShader "u_charPaletteSize"
      (numbers [ Glsl.floatn (characterColorPalette_colors_length (view (_host (super this))));
                 1 ]);
    setUniform this_characterSelectionShader "u_sketchTexture"
      (sampler this_brightnessSplitFramebuffer);
    setUniform this_characterSelectionShader "u_gridCellDimensions"
      (numbers [ Glsl.floatn (cols (_grid (super this)));
                 Glsl.floatn (rows (_grid (super this))) ]);
    setUniform this_characterSelectionShader "u_gridPixelDimensions"
      (numbers [ Glsl.floatn (grid_width (_grid (super this)));
                 Glsl.floatn (grid_height (_grid (super this))) ]);
    rect 0 0 (Glsl.floatn (characterFramebuffer_width (view (_host (super this)))))
             (Glsl.floatn (characterFramebuffer_height (view (_host (super this)))));
    end_ this_characterFramebuffer ].

(** The calls of one [render()], in order. *)
Definition render : list call :=
  brightnessSamplePass ++ brightnessSplitPass ++ primaryColorPass ++ secondaryColorPass
  ++ transformPass ++ rotationPass ++ characterPass.

End Render.

Arguments render {Host}.
Arguments colorPass {Host}.
Arguments primaryColorPass {Host}.
Arguments secondaryColorPass {Host}.

End Render.

(** ** The cached base class ([getCachedBaseClass]) *)

Module Cache.
Import Js BaseClass.

(** [getCachedBaseClass] with the module variable [cachedBaseClass] as the
    value it holds, [null] at first: the result of the call and the
    variable afterwards.  The test is [cachedBaseClass === null]. *)
Definition getCachedBaseClass (renderers window : option object) (cachedBaseClass : value)
  : completion value * value :=
  match cachedBaseClass with
  | Null =>
      match getBaseClass renderers window with
      | Return cls => (Return cls, cls)
      | Throw message => (Throw message, Null)
      end
  | _ => (Return cachedBaseClass, cachedBaseClass)
  end.

End Cache.

(** ** Notions for the properties of the pipeline *)

Module Props.
Import Glsl.

(** A texture coordinate strictly inside cell [(cx, cy)] of a grid of
    [cols] x [rows] cells laid over the texture (also: inside tile
    [(cx, cy)] of an atlas of [cols] x [rows] glyphs). *)
Definition inside_cell (cols rows : Q) (cx cy : Z) (c : vec2) : Prop :=
  (inject_Z cx / cols < ux c /\ ux c < (inject_Z cx + 1) / cols) /\
  (inject_Z cy / rows < uy c /\ uy c < (inject_Z cy + 1) / rows).

(** The centre of cell [(cx, cy)]. *)
Definition cell_centre (cols rows : Q) (cx cy : Z) : vec2 :=
  Vec2 ((inject_Z cx + 0.5) / cols) ((inject_Z cy + 0.5) / rows).

(** Sub-sample [(i, j)] of the [n] x [k] sub-samples of cell [(cx, cy)]:
    the point at the fraction [(i + 1/2) / n] of the cell's width and
    [(j + 1/2) / k] of its height. *)
Definition sub_sample_point (cols rows : Q) (cx cy : Z) (n k i j : nat) : vec2 :=
  Vec2 ((inject_Z cx + (floatn i + 0.5) / floatn n) / cols)
       ((inject_Z cy + (floatn j + 0.5) / floatn k) / rows).

(** Two coordinates of one point. *)
Definition same_point (a b : vec2) : Prop := ux a == ux b /\ uy a == uy b.

(** The atlas index a texel carries, as the matcher reads it from the
    palette texture. *)
Definition carried_index (r : vec4) : Q :=
  vx r * 255 + vy r * 255 * 256 + vz r * 255 * 65536.

End Props.

(** ** Notions for the calls of [render] *)

Module Trace.
Import Render.

#[global] Instance object_eq_dec : EqDecision object.
Proof. solve_decision. Defined.

#[global] Instance program_eq_dec : EqDecision program.
Proof. solve_decision. Defined.

(** The framebuffers [render] writes, in the order it writes them. *)
Definition targets : list object :=
  [ this_brightnessSampleFramebuffer; this_brightnessSplitFramebuffer;
    this_primaryColorFramebuffer; this_secondaryColorFramebuffer;
    this_transformFramebuffer; this_rotationFramebuffer; this_characterFramebuffer ].

Definition is_begin (o : object) (c : call) : bool :=
  match c with
  | begin o' => bool_decide (o' = o)
  | _ => false
  end.

Definition is_end (o : object) (c : call) : bool :=
  match c with
  | end_ o' => bool_decide (o' = o)
  | _ => false
  end.

(** The calls up to the first [o.end()]. *)
Fixpoint until_end (o : object) (t : list call) : list call :=
  match t with
  | [] => []
  | c :: rest => if is_end o c then [] else c :: until_end o rest
  end.

(** The calls between the first [o.begin()] and the [o.end()] that follows
    it. *)
Fixpoint pass_of (o : object) (t : list call) : list call :=
  match t with
  | [] => []
  | c :: rest => if is_begin o c then until_end o rest else pass_of o rest
  end.

(** A call that binds or releases a framebuffer. *)
Definition binds (c : call) : Prop :=
  match c with
  | begin _ | end_ _ => True
  | _ => False
  end.

(** A call that involves the shader [s]. *)
Definition uses (s : program) (c : call) : Prop :=
  match c with
  | shader s' | setUniform s' _ _ => s' = s
  | _ => False
  end.

(** The place of a framebuffer in the order of the passes ([None] for an
    object [render] does not write). *)
Fixpoint place_in (l : list object) (o : object) : option nat :=
  match l with
  | [] => None
  | o' :: rest => if bool_decide (o' = o) then Some 0%nat else S <$> place_in rest o
  end.

Definition place (o : object) : option nat := place_in targets o.

(** A call that draws. *)
Definition draws (c : call) : bool :=
  match c with
  | rect _ _ _ _ => true
  | _ => false
  end.

(** A name that occurs in a source text with a [,] or a [;] right after it,
    as the names of a declaration do. *)
Definition declared (name src : string) : Prop :=
  Spec.occurs_in (name ++ ",")%string src \/ Spec.occurs_in (name ++ ";")%string src.

(** The shader object a call names, for a given renderer. *)
Definition shader_of {Host : Type} (this : Renderer.P5AsciifyAccurateRenderer Host)
    (s : program) : Renderer.Shader :=
  match s with
  | this_brightnessSampleShader => Renderer._brightnessSampleShader this
  | this_brightnessSplitShader => Renderer._brightnessSplitShader this
  | this_colorSampleShader => Renderer._colorSampleShader this
  | this_characterSelectionShader => Renderer._characterSelectionShader this
  end.

End Trace.

(** ** More concrete inputs *)

Module Cases.

(** What the host of the examples shows of its own fields. *)
Definition plain_view (_ : unit) : Render.HostView :=
  Render.MkHostView 100 37 100 37 100 37 16 6 10 2.

(** A renderer whose character colour mode is the number 1. *)
Definition fixed_renderer : Renderer.P5AsciifyAccurateRenderer unit :=
  Renderer.constructor Examples.plain_host (Renderer.P5 1) Examples.capture Examples.grid
    (Renderer.MkFontManager 16)
    (Some (<["characterColorMode" := Js.Number 1]> (∅ : gmap string Js.value))).

(** A page on which p5.asciify has put the class as a global. *)
Definition window_with_class : Js.object :=
  [ ("p5", Js.Function "p5" []);
    ("P5AsciifyAbstractFeatureRenderer2D",
     Js.Function "P5AsciifyAbstractFeatureRenderer2D" []) ].

(** The imported namespace with [null] where the class should be. *)
Definition namespace_with_null : Js.object :=
  [ ("renderer2d",
     Js.Object [ ("feature",
                  Js.Object [ ("P5AsciifyAbstractFeatureRenderer2D", Js.Null) ]) ]) ].

(** The frame of a uniformly grey capture buffer, pass after pass: the
    splitter reads the brightness the sampler wrote, and the colour sampler
    and the matcher read the mask the splitter wrote. *)
Definition grey_split : BrightnessSplit.uniforms :=
  BrightnessSplit.Uniforms (Examples.grey (127 # 255))
    (fun _ => BrightnessSample.main 2 2 Examples.sample_uniforms Examples.pixel_centre)
    (Glsl.Vec2 8 8) 2 2 1.

Definition grey_colors (rank : Z) : ColorSample.uniforms :=
  ColorSample.Uniforms (Examples.grey (127 # 255))
    (fun _ => BrightnessSplit.main grey_split Examples.pixel_centre)
    (Glsl.Vec2 8 8) 2 2 rank.

(** The same for a fully transparent capture buffer. *)
Definition clear_split : BrightnessSplit.uniforms :=
  BrightnessSplit.Uniforms Examples.clear Examples.clear (Glsl.Vec2 8 8) 2 2 1.

Definition clear_colors (rank : Z) : ColorSample.uniforms :=
  ColorSample.Uniforms Examples.clear
    (fun _ => BrightnessSplit.main clear_split Examples.pixel_centre)
    (Glsl.Vec2 8 8) 2 2 rank.

(** The matcher on the mask the splitter wrote for the given inputs. *)
Definition matcher_after (S : BrightnessSplit.uniforms) : CharacterSelection.uniforms :=
  Examples.matcher_uniforms (fun _ => BrightnessSplit.main S Examples.pixel_centre) 2.

End Cases.

(** ** The shaders in floating point ([precision mediump float]) *)

(** In the modules above the shaders' floats are exact rationals.  A
    shader computes with floating-point values: every operation gives a
    value of the format, and a literal that the format does not hold is
    read as a value that it holds.  GLSL ES leaves the precision to the
    implementation, so the arithmetic is a parameter here.  What is read
    as written: the comparisons, [floor], the unary minus, the conversion
    of an [int], and the literals that are whole numbers or [.5]. *)

Module Mediump.
Import Glsl.

Record arithmetic : Type := Arithmetic {
  flit : Q -> Q;
  fadd : Q -> Q -> Q;
  fsub : Q -> Q -> Q;
  fmul : Q -> Q -> Q;
  fdiv : Q -> Q -> Q
}.

(** The arithmetic of the modules above. *)
Definition exact : arithmetic := Arithmetic (fun q => q) Qplus Qminus Qmult Qdiv.

End Mediump.

(** *** [brightnessSplit.frag] *)

Module BrightnessSplitMediump.
Import Glsl Mediump.

Section Shader.

Variable A : arithmetic.
Variable u : BrightnessSplit.uniforms.
Variable gl_FragCoord : vec2.

Definition EPSILON : Q := flit A 0.01.

Definition logicalFragCoord : vec2 :=
  floor2 (map2 (fun c => fdiv A c (BrightnessSplit.u_pixelRatio u)) gl_FragCoord).

Definition originalColor : vec4 :=
  let imageTexCoord := zip2 (fdiv A) logicalFragCoord (BrightnessSplit.u_inputImageSize u) in
  texture2D (BrightnessSplit.u_inputImage u) imageTexCoord.

Definition averageBrightness : Q :=
  let cellWidth :=
    fdiv A (ux (BrightnessSplit.u_inputImageSize u)) (float (BrightnessSplit.u_gridCols u)) in
  let cellHeight :=
    fdiv A (uy (BrightnessSplit.u_inputImageSize u)) (float (BrightnessSplit.u_gridRows u)) in
  let gridX := floor (fdiv A (ux logicalFragCoord) cellWidth) in
  let gridY := floor (fdiv A (uy logicalFragCoord) cellHeight) in
  let gridX := clamp gridX 0 (float (BrightnessSplit.u_gridCols u - 1)) in
  let gridY := clamp gridY 0 (float (BrightnessSplit.u_gridRows u - 1)) in
  let brightnessTexCoord :=
    zip2 (fdiv A) (map2 (fun c => fadd A c 0.5) (Vec2 gridX gridY))
         (Vec2 (float (BrightnessSplit.u_gridCols u)) (float (BrightnessSplit.u_gridRows u))) in
  vx (texture2D (BrightnessSplit.u_brightnessTexture u) brightnessTexCoord).

Definition fragmentBrightness : Q :=
  fadd A (fadd A (fmul A (flit A 0.299) (vx originalColor))
                 (fmul A (flit A 0.587) (vy originalColor)))
         (fmul A (flit A 0.114) (vz originalColor)).

Definition brightnessDifference : Q := fsub A fragmentBrightness averageBrightness.

(** [main]: the value written to [gl_FragColor]. *)
Definition main : vec4 :=
  if ltb (vw originalColor) EPSILON then Vec4 0 0 0 0
  else
    let finalColorValue := if ltb brightnessDifference (- EPSILON) then 0 else 1 in
    vec4_of (vec3_splat finalColorValue) 1.

End Shader.

End BrightnessSplitMediump.

(** *** [generateCharacterSelectionShader(fontSize)] *)

Module CharacterSelectionMediump.
Import Glsl Mediump.

Section Generated.

Variable A : arithmetic.

(** The template parameter [${t}], the font size. *)
Variable T : nat.

Variable U : CharacterSelection.uniforms.
Variable gl_FragCoord : vec2.

(** [const float u = float(${t}), f = u * u] *)
Definition u : Q := floatn T.
Definition f : Q := fmul A u u.

Definition r : vec2 :=
  zip2 (fdiv A) (CharacterSelection.u_gridPixelDimensions U)
       (CharacterSelection.u_gridCellDimensions U).

Definition e : vec2 :=
  zip2 (fdiv A) (zip2 (fmul A) (floor2 (floor2 gl_FragCoord)) r)
       (CharacterSelection.u_gridPixelDimensions U).

Definition v : vec2 :=
  zip2 (fsub A)
    (zip2 (fdiv A)
       (zip2 (fmul A) (map2 (fun c => fadd A c 1) (floor2 (floor2 gl_FragCoord))) r)
       (CharacterSelection.u_gridPixelDimensions U))
    e.

Definition k : Q := fdiv A 1 u.

(** [vec2 r = vec2(float(f) + .5, float(u) + .5) * k] for the loop counters
    [u] (outer) and [f] (inner). *)
Definition offset (u f : nat) : vec2 :=
  map2 (fun c => fmul A c k) (Vec2 (fadd A (floatn f) 0.5) (fadd A (floatn u) 0.5)).

(** The sub-sample of the binary mask at [(u, f)]. *)
Definition mask (u f : nat) : vec4 :=
  texture2D (CharacterSelection.u_sketchTexture U)
    (zip2 (fadd A) e (zip2 (fmul A) (offset u f) v)).

(** The flag [s] after the two loops that look for a sample with positive
    alpha. *)
Definition transparent : bool :=
  for_loop 0 T (fun u s =>
    if negb s then None
    else Some (for_loop 0 T (fun f s =>
      if negb s then None
      else
        let i := mask u f in
        Some (if ltb 0 (vw i) then false else s)) s)) true.

(** [m]: the atlas index of palette entry [u], read from the palette
    texture. *)
Definition m (u : nat) : Q :=
  let t := ux (CharacterSelection.u_charPaletteSize U) in
  let s := Vec2 (fdiv A (fadd A (floatn u) 0.5) t)
                (fdiv A 0.5 (uy (CharacterSelection.u_charPaletteSize U))) in
  let r := texture2D (CharacterSelection.u_charPaletteTexture U) s in
  fadd A (fadd A (fmul A (vx r) 255) (fmul A (fmul A (vy r) 255) 256))
         (fmul A (fmul A (vz r) 255) 65536).

(** The sub-sample of the glyph with atlas index [m] at [(u, f)]. *)
Definition glyph (m : Q) (u f : nat) : vec4 :=
  let y := floor (fdiv A m (CharacterSelection.u_charsetCols U)) in
  let s := Vec2 (fdiv A (fsub A m (fmul A (CharacterSelection.u_charsetCols U) y))
                         (CharacterSelection.u_charsetCols U))
                (fdiv A y (CharacterSelection.u_charsetRows U)) in
  let C := Vec2 (fdiv A 1 (CharacterSelection.u_charsetCols U))
                (fdiv A 1 (CharacterSelection.u_charsetRows U)) in
  texture2D (CharacterSelection.u_characterTexture U)
    (zip2 (fadd A) s (zip2 (fmul A) (offset u f) C)).

(** [float m = mask.x - glyph.x; y += m * m]: one step of the accumulation. *)
Definition accumulate (m : Q) (u f : nat) (y : Q) : Q :=
  let d := fsub A (vx (mask u f)) (vx (glyph m u f)) in
  fadd A y (fmul A d d).

(** The sum of squared differences accumulated in [y] by the two inner
    loops, for the glyph with atlas index [m]. *)
Definition ssd (m : Q) : Q :=
  for_loop 0 T (fun u y =>
    Some (for_loop 0 T (fun f y => Some (accumulate m u f y)) y)) 0.

(** [y /= f]: the error of palette entry [u] that the scan compares. *)
Definition error (u : nat) : Q := fdiv A (ssd (m u)) f.

(** One iteration of the scan of the palette, on the state [(i, g)]. *)
Definition scan_body (u : nat) (ig : Q * Q) : option (Q * Q) :=
  let '(i, g) := ig in
  let t := ux (CharacterSelection.u_charPaletteSize U) in
  if Qle_bool t (floatn u) then None
  else
    let y := error u in
    Some (if ltb y i then (y, m u) else (i, g)).

Definition scan : Q * Q := for_loop 0 1024 scan_body (flit A 1e20, 0).

(** [i = mod(g, 256.); g = floor(g / 256.); vec4(i / 255., g / 255., 0, 1)] *)
Definition encode (g : Q) : vec4 :=
  let i := fsub A g (fmul A 256 (floor (fdiv A g 256))) in
  let g := floor (fdiv A g 256) in
  Vec4 (fdiv A i 255) (fdiv A g 255) 0 1.

Definition main : vec4 :=
  if transparent then vec4_splat 0
  else
    let '(_, g) := scan in encode g.

End Generated.

End CharacterSelectionMediump.

(** ** Notions for the arithmetic *)

Module Rounding.
Import Glsl Mediump.

(** An arithmetic whose literals, sums, differences and products are
    within [delta] of the exact ones, as long as these are within
    [-2, 2]. *)
Definition accurate (A : arithmetic) (delta : Q) : Prop :=
  (forall q, -2 <= q <= 2 -> - delta <= flit A q - q <= delta) /\
  (forall a b, -2 <= a + b <= 2 -> - delta <= fadd A a b - (a + b) <= delta) /\
  (forall a b, -2 <= a - b <= 2 -> - delta <= fsub A a b - (a - b) <= delta) /\
  (forall a b, -2 <= a * b <= 2 -> - delta <= fmul A a b - a * b <= delta).

(** A colour whose red, green and blue are within [0,1]. *)
Definition unit_color (c : vec4) : Prop :=
  (0 <= vx c <= 1) /\ (0 <= vy c <= 1) /\ (0 <= vz c <= 1).


End Rounding.

(** ** IEEE 754 binary32 with round to nearest, ties to even *)

(** An arithmetic to run the shaders with: each result is the value of 24
    significant bits nearest to the exact one.  The exponent is not
    bounded (no overflow, no subnormal values). *)

Module Float32.
Import Mediump.

(** For [0 < a]: the [e] with [2 ^ e <= a < 2 ^ (e + 1)]. *)
Definition exponent (a : Q) : Z :=
  let e := (Z.log2 (Qnum a) - Z.log2 (Zpos (Qden a)) - 1)%Z in
  if Qle_bool (2 ^ (e + 1)) a then (e + 1)%Z else e.

(** The whole number nearest to [x], the even one of two. *)
Definition nearest_even (x : Q) : Z :=
  let n := Qfloor x in
  match Qcompare (x - inject_Z n) 0.5 with
  | Lt => n
  | Gt => (n + 1)%Z
  | Eq => if Z.even n then n else (n + 1)%Z
  end.

Definition magnitude (a : Q) : Q :=
  let ulp := 2 ^ (exponent a - 23) in
  inject_Z (nearest_even (a / ulp)) * ulp.

Definition round (q : Q) : Q :=
  match Qcompare q 0 with
  | Eq => 0
  | Gt => Qred (magnitude q)
  | Lt => Qred (- magnitude (- q))
  end.

Definition binary32 : arithmetic :=
  Arithmetic round
    (fun a b => round (a + b)) (fun a b => round (a - b))
    (fun a b => round (a * b)) (fun a b => round (a / b)).

(** The texel a byte gives in a normalised texture. *)
Definition byte (b : Z) : Q := round (inject_Z b / 255).

(** A pixel of bytes (38, 34, 45) in a cell whose brightness is the byte
    39, the texels being what [texel] makes of the bytes: as fractions of
    255, the luminance is below the cell's brightness by 0.01. *)
Definition at_threshold (texel : Z -> Q) : BrightnessSplit.uniforms :=
  BrightnessSplit.Uniforms
    (fun _ => Glsl.Vec4 (texel 38%Z) (texel 34%Z) (texel 45%Z) 1)
    (fun _ => Glsl.Vec4 (texel 39%Z) (texel 39%Z) (texel 39%Z) 1)
    (Glsl.Vec2 1 1) 1 1 1.

(** An atlas of two glyphs of 2 x 2 texels side by side: glyph 0 has the
    grey levels [g0 g1] over [g2 g3], and glyph 1 has them in the reverse
    order, [g3 g2] over [g1 g0]. *)
Definition reversed_glyphs (g0 g1 g2 g3 : Q) : Glsl.sampler2D :=
  fun c =>
    let level :=
      if Glsl.ltb (Glsl.uy c) 0.5 then
        if Glsl.ltb (Glsl.ux c) 0.25 then g0
        else if Glsl.ltb (Glsl.ux c) 0.5 then g1
        else if Glsl.ltb (Glsl.ux c) 0.75 then g3
        else g2
      else
        if Glsl.ltb (Glsl.ux c) 0.25 then g2
        else if Glsl.ltb (Glsl.ux c) 0.5 then g3
        else if Glsl.ltb (Glsl.ux c) 0.75 then g1
        else g0 in
    Glsl.Vec4 level level level 1.

(** The matcher with font size 2 on a white cell, with that atlas for the
    bytes (55, 83, 201, 189) and a palette of the two glyphs: the two
    glyphs have the same squared differences, in another order. *)
Definition tie : CharacterSelection.uniforms :=
  CharacterSelection.Uniforms
    (reversed_glyphs (byte 55%Z) (byte 83%Z) (byte 201%Z) (byte 189%Z)) 2 1
    Examples.white (Glsl.Vec2 8 8) (Glsl.Vec2 1 1)
    (Examples.palette_last_white 2) (Glsl.Vec2 2 1).

End Float32.

(** ** [getBaseClass] as the UMD build has it *)

(** In the build ([part_003]) the namespace is read from the host's module
    object, the second argument [e] of the factory:
    [typeof e.renderers < "u" && e.renderers.renderer2d && ...].  Loaded
    as a script, the factory gets the global [p5asciify] for [e]. *)

Module Bundle.
Import Js BaseClass.

Inductive thrown : Type :=
| Error (message : string)
| TypeError.

Inductive outcome : Type :=
| Returns (cls : value)
| Throws (what : thrown).

(** Strategy 2 and the [throw] after it. *)
Definition from_window (window : option object) : outcome :=
  match strategy2 window with
  | Some cls => Returns cls
  | None => Throws (Error (notFoundMessage window))
  end.

(** Reading a property of [undefined] or [null] throws a [TypeError]. *)
Definition getBaseClass (e : value) (window : option object) : outcome :=
  match e with
  | Undefined | Null => Throws TypeError
  | _ =>
      match prop e "renderers" with
      | Undefined => from_window window
      | Null => Throws TypeError
      | namespace =>
          let renderer2d := prop namespace "renderer2d" in
          let feature := prop renderer2d "feature" in
          let cls := prop feature "P5AsciifyAbstractFeatureRenderer2D" in
          if truthy renderer2d && truthy feature
             && negb (String.eqb (typeof cls) "undefined")
          then Returns cls else from_window window
      end
  end.

(** The binding [renderers] of the source for the module object [e]:
    [None] when [typeof e.renderers] is ["undefined"]; a value with no
    properties is an object without any. *)
Definition renderers (e : value) : option object :=
  match prop e "renderers" with
  | Undefined => None
  | Object o | Function _ o => Some o
  | _ => Some []
  end.

(** What [getBaseClass] of the source gives, as an outcome. *)
Definition of_completion (c : completion value) : outcome :=
  match c with
  | Return cls => Returns cls
  | Throw message => Throws (Error message)
  end.

(** C9 as stated, for the build: with the class unresolved the error
    thrown names the missing symbol, and with the class resolved by either
    strategy nothing is thrown. *)
Definition unresolved_is_described (e : value) (window : option object) : Prop :=
  (strategy1 (renderers e) = None -> strategy2 window = None ->
   exists message,
     getBaseClass e window = Throws (Error message) /\
     Spec.occurs_in "P5AsciifyAbstractFeatureRenderer2D" message) /\
  (forall cls,
     strategy1 (renderers e) = Some cls \/ strategy2 window = Some cls ->
     exists cls', getBaseClass e window = Returns cls').

End Bundle.

(** * Properties *)

(** ** GLSL built-ins *)

Section GlslFacts.
Import Glsl.

Lemma ltb_lt (a b : Q) : ltb a b = true <-> a < b.
Proof.
  unfold ltb. rewrite negb_true_iff, <- not_true_iff_false, Qle_bool_iff.
  split; [apply Qnot_le_lt | apply Qlt_not_le].
Qed.

Lemma ltb_ge (a b : Q) : ltb a b = false <-> b <= a.
Proof.
  unfold ltb. rewrite negb_false_iff. apply Qle_bool_iff.
Qed.

Lemma clamp_unit (x : Q) : 0 <= clamp x 0 1 /\ clamp x 0 1 <= 1.
Proof.
  unfold clamp, glsl_min, glsl_max.
  destruct (ltb x 0) eqn:H0.
  - destruct (ltb 1 0) eqn:H1; [apply ltb_lt in H1; lra | lra].
  - apply ltb_ge in H0.
    destruct (ltb 1 x) eqn:H1; [lra | apply ltb_ge in H1; lra].
Qed.

Lemma clamp2_unit (c : vec2) : Spec.in_texture_space (clamp2 c 0 1).
Proof. split; apply clamp_unit. Qed.

(** A loop whose body never breaks is a fold over its counter's values. *)
Lemma for_loop_fold {S : Type} (g : nat -> S -> S) (from count : nat) (st : S) :
  for_loop from count (fun i st => Some (g i st)) st
  = fold_left (fun st i => g i st) (seq from count) st.
Proof.
  revert from st. induction count as [| k IH]; intros from st; [reflexivity |].
  simpl. apply IH.
Qed.

(** A loop that adds one term per iteration adds the sum of the terms. *)
Lemma for_loop_sum (h : nat -> Q) (from count : nat) (acc : Q) :
  for_loop from count (fun i acc => Some (acc + h i)) acc
  == acc + Spec.sum (map h (seq from count)).
Proof.
  revert from acc. induction count as [| k IH]; intros from acc; simpl.
  - lra.
  - rewrite IH. lra.
Qed.

Lemma for_loop_sum_rows (row : nat -> Q -> Q) (h : nat -> Q) (from count : nat) (acc : Q) :
  (forall i acc, row i acc == acc + h i) ->
  for_loop from count (fun i acc => Some (row i acc)) acc
  == acc + Spec.sum (map h (seq from count)).
Proof.
  intros Hrow. revert from acc. induction count as [| k IH]; intros from acc; simpl.
  - lra.
  - rewrite IH, Hrow. lra.
Qed.

Lemma sum_app (a b : list Q) : Spec.sum (a ++ b) == Spec.sum a + Spec.sum b.
Proof.
  induction a as [| x a IH]; simpl; [lra |]. rewrite IH. lra.
Qed.

Lemma sum_traversal (h : nat -> nat -> Q) (columns from count : nat) :
  Spec.sum (map (fun a => Spec.sum (map (h a) (seq 0 columns))) (seq from count))
  == Spec.sum (map (fun ab => h (fst ab) (snd ab))
                 (flat_map (fun a => map (fun b => (a, b)) (seq 0 columns)) (seq from count))).
Proof.
  revert from. induction count as [| k IH]; intros from; simpl; [reflexivity |].
  rewrite map_app, sum_app, IH, map_map. simpl. reflexivity.
Qed.

Lemma traversal_length (rows columns : nat) :
  length (Spec.traversal rows columns) = (rows * columns)%nat.
Proof.
  unfold Spec.traversal.
  assert (H : forall from,
    length (flat_map (fun a => map (fun b => (a, b)) (seq 0 columns)) (seq from rows))
    = (rows * columns)%nat); [| apply H].
  induction rows as [| k IH]; intros from; simpl; [reflexivity |].
  rewrite length_app, length_map, length_seq, IH. reflexivity.
Qed.

Lemma traversal_in (rows columns a b : nat) :
  In (a, b) (Spec.traversal rows columns) <-> (a < rows)%nat /\ (b < columns)%nat.
Proof.
  unfold Spec.traversal. rewrite in_flat_map. split.
  - intros [a' [Ha Hb]]. apply in_map_iff in Hb as [b' [Heq Hb]].
    injection Heq as -> ->. apply in_seq in Ha, Hb. lia.
  - intros [Ha Hb]. exists a. split; [apply in_seq; lia |].
    apply in_map_iff. exists b. split; [reflexivity | apply in_seq; lia].
Qed.

(** The two shapes of loop that clear a flag and break once it is clear. *)
Lemma for_loop_flag (test : nat -> bool) (from count : nat) (s : bool) :
  for_loop from count
    (fun i s => if negb s then None else Some (if test i then false else s)) s
  = s && forallb (fun i => negb (test i)) (seq from count).
Proof.
  revert from s. induction count as [| k IH]; intros from s; simpl.
  - rewrite andb_true_r. reflexivity.
  - destruct s; simpl; [| reflexivity].
    rewrite IH. destruct (test from); reflexivity.
Qed.

Lemma for_loop_flag_rows (inner : nat -> bool -> bool) (row : nat -> bool)
    (from count : nat) (s : bool) :
  (forall i s, inner i s = s && row i) ->
  for_loop from count (fun i s => if negb s then None else Some (inner i s)) s
  = s && forallb row (seq from count).
Proof.
  intros Hinner. revert from s. induction count as [| k IH]; intros from s; simpl.
  - rewrite andb_true_r. reflexivity.
  - destruct s; simpl; [| reflexivity].
    rewrite IH, Hinner. reflexivity.
Qed.

Lemma sum_bounded (l : list Q) :
  (forall x, In x l -> 0 <= x /\ x <= 1) ->
  0 <= Spec.sum l /\ Spec.sum l <= inject_Z (Z.of_nat (length l)).
Proof.
  induction l as [| x l IH]; intros H.
  - simpl. unfold Qle. simpl. lia.
  - destruct (H x (or_introl eq_refl)) as [H0 H1].
    destruct IH as [IH0 IH1]; [intros y Hy; apply H; right; exact Hy |].
    change (length (x :: l)) with (S (length l)).
    rewrite Nat2Z.inj_succ. unfold Z.succ. rewrite inject_Z_plus.
    simpl Spec.sum. change (inject_Z 1) with 1. lra.
Qed.

Lemma floatn_plus (a b : nat) : floatn (a + b) == floatn a + floatn b.
Proof. unfold floatn. rewrite Nat2Z.inj_add, inject_Z_plus. reflexivity. Qed.

Lemma floatn_mult (a b : nat) : floatn (a * b) == floatn a * floatn b.
Proof. unfold floatn. rewrite Nat2Z.inj_mul, inject_Z_mult. reflexivity. Qed.

Lemma floatn_lt (a b : nat) : (a < b)%nat <-> floatn a < floatn b.
Proof. unfold floatn. rewrite <- Zlt_Qlt. lia. Qed.

Lemma floatn_le (a b : nat) : (a <= b)%nat <-> floatn a <= floatn b.
Proof. unfold floatn. rewrite <- Zle_Qle. lia. Qed.

Lemma for_loop_ext {S : Type} (body body' : nat -> S -> option S) (from count : nat) (st : S) :
  (forall i st, body i st = body' i st) ->
  for_loop from count body st = for_loop from count body' st.
Proof.
  intros Hext. revert from st. induction count as [| k IH]; intros from st; simpl.
  - reflexivity.
  - rewrite Hext. destruct (body' from st); [apply IH | reflexivity].
Qed.

(** Two nested loops without [break] visit the pairs of counters in the
    order of [Spec.traversal]. *)
Lemma for_loop_traversal {S : Type} (g : nat -> nat -> S -> S) (rows columns : nat) (st : S) :
  for_loop 0 rows (fun a st => Some (for_loop 0 columns (fun b st => Some (g a b st)) st)) st
  = fold_left (fun st ab => g (fst ab) (snd ab) st) (Spec.traversal rows columns) st.
Proof.
  unfold Spec.traversal. rewrite for_loop_fold.
  assert (H : forall from st,
    fold_left (fun st a => for_loop 0 columns (fun b st => Some (g a b st)) st)
      (seq from rows) st
    = fold_left (fun st ab => g (fst ab) (snd ab) st)
        (flat_map (fun a => map (fun b => (a, b)) (seq 0 columns)) (seq from rows)) st);
    [| apply H].
  induction rows as [| k IH]; intros from st'; [reflexivity |].
  cbn [seq fold_left flat_map].
  rewrite fold_left_app, <- IH. f_equal.
  rewrite for_loop_fold.
  generalize (seq 0 columns). intros l. revert st'.
  induction l as [| b l IHl]; intros st'; [reflexivity | apply IHl].
Qed.

End GlslFacts.

(** ** The sub-samples of a cell *)

Section CellFacts.
Import Glsl.

(** A fraction strictly inside a cell: [(c + p) / n] with [0 < p < 1]. *)
Lemma cell_fraction (c p n : Q) :
  0 < n -> 0 < p -> p < 1 -> c / n < (c + p) / n /\ (c + p) / n < (c + 1) / n.
Proof.
  intros Hn Hp0 Hp1.
  assert (Hinv : 0 < / n) by (apply Qinv_lt_0_compat; exact Hn).
  unfold Qdiv. split; apply Qmult_lt_r; try exact Hinv; lra.
Qed.

(** The offset of sub-sample [s] of [u]: strictly between 0 and 1. *)
Lemma sub_sample_offset (s u : nat) :
  (s < u)%nat -> 0 < (floatn s + 0.5) / floatn u /\ (floatn s + 0.5) / floatn u < 1.
Proof.
  intros Hs.
  assert (Hu : 0 < floatn u) by (apply (floatn_lt 0 u); lia).
  assert (Hs0 : 0 <= floatn s) by (apply (floatn_le 0 s); lia).
  assert (Hs1 : floatn s + 1 <= floatn u).
  { assert (H : (s + 1 <= u)%nat) by lia.
    apply floatn_le in H. rewrite floatn_plus in H. exact H. }
  split.
  - apply Qlt_shift_div_l; [exact Hu | lra].
  - apply Qlt_shift_div_r; [exact Hu | lra].
Qed.

Lemma clamp_inside (x : Q) : 0 <= x -> x <= 1 -> clamp x 0 1 = x.
Proof.
  intros H0 H1. unfold clamp, glsl_min, glsl_max.
  assert (Ha : ltb x 0 = false) by (apply ltb_ge; exact H0).
  rewrite Ha.
  assert (Hb : ltb 1 x = false) by (apply ltb_ge; exact H1).
  rewrite Hb. reflexivity.
Qed.

(** The coordinate the brightness and colour samplers compute for
    sub-sample [s] of [u] in cell [cx] of [cols], along an axis of [W]
    pixels. *)
Lemma sampler_axis (W cols : Q) (cx : Z) (s u : nat) :
  0 < W -> 0 < cols -> (s < u)%nat -> (0 <= cx)%Z -> inject_Z cx + 1 <= cols ->
  let a := clamp ((inject_Z cx * (W / cols)
                   + (floatn s + 0.5) * (W / cols / floatn u)) / W) 0 1 in
  inject_Z cx / cols < a /\ a < (inject_Z cx + 1) / cols.
Proof.
  intros HW Hcols Hs Hcx0 Hcx1 a.
  assert (Hu : 0 < floatn u) by (apply (floatn_lt 0 u); lia).
  destruct (sub_sample_offset s u Hs) as [Hp0 Hp1].
  assert (Heq : (inject_Z cx * (W / cols) + (floatn s + 0.5) * (W / cols / floatn u)) / W
                == (inject_Z cx + (floatn s + 0.5) / floatn u) / cols).
  { field. repeat split; lra. }
  destruct (cell_fraction (inject_Z cx) ((floatn s + 0.5) / floatn u) cols Hcols Hp0 Hp1)
    as [Hlo Hhi].
  assert (Hcx : 0 <= inject_Z cx) by (change 0 with (inject_Z 0); rewrite <- Zle_Qle; exact Hcx0).
  assert (H0 : 0 <= inject_Z cx / cols) by (apply Qle_shift_div_l; [exact Hcols | lra]).
  assert (H1 : (inject_Z cx + 1) / cols <= 1) by (apply Qle_shift_div_r; [exact Hcols | lra]).
  assert (Ha : a = (inject_Z cx * (W / cols) + (floatn s + 0.5) * (W / cols / floatn u)) / W).
  { unfold a. apply clamp_inside; rewrite Heq; lra. }
  rewrite Ha, Heq. split; assumption.
Qed.

(** The same coordinate, as a fraction of the cell. *)
Lemma sampler_axis_value (W cols : Q) (cx : Z) (s u : nat) :
  0 < W -> 0 < cols -> (s < u)%nat -> (0 <= cx)%Z -> inject_Z cx + 1 <= cols ->
  clamp ((inject_Z cx * (W / cols) + (floatn s + 0.5) * (W / cols / floatn u)) / W) 0 1
  == (inject_Z cx + (floatn s + 0.5) / floatn u) / cols.
Proof.
  intros HW Hcols Hs Hcx0 Hcx1.
  assert (Hu : 0 < floatn u) by (apply (floatn_lt 0 u); lia).
  destruct (sub_sample_offset s u Hs) as [Hp0 Hp1].
  assert (Heq : (inject_Z cx * (W / cols) + (floatn s + 0.5) * (W / cols / floatn u)) / W
                == (inject_Z cx + (floatn s + 0.5) / floatn u) / cols).
  { field. repeat split; lra. }
  destruct (cell_fraction (inject_Z cx) ((floatn s + 0.5) / floatn u) cols Hcols Hp0 Hp1)
    as [Hlo Hhi].
  assert (Hcx : 0 <= inject_Z cx) by (change 0 with (inject_Z 0); rewrite <- Zle_Qle; exact Hcx0).
  assert (H0 : 0 <= inject_Z cx / cols) by (apply Qle_shift_div_l; [exact Hcols | lra]).
  assert (H1 : (inject_Z cx + 1) / cols <= 1) by (apply Qle_shift_div_r; [exact Hcols | lra]).
  rewrite clamp_inside; [exact Heq | rewrite Heq; lra | rewrite Heq; lra].
Qed.

(** A cell of the grid that the fragment names. *)
Lemma cell_in_grid (x : Q) (cols : Z) :
  (0 <= Qfloor x < cols)%Z -> 0 < float cols /\ inject_Z (Qfloor x) + 1 <= float cols.
Proof.
  intros [H0 H1]. unfold float. split.
  - change 0 with (inject_Z 0). rewrite <- Zlt_Qlt. lia.
  - change 1 with (inject_Z 1). rewrite <- inject_Z_plus, <- Zle_Qle. lia.
Qed.


Lemma Qfloor_inject_Z (z : Z) : Qfloor (inject_Z z) = z.
Proof. apply Qfloor_Z. Qed.

End CellFacts.

(** ** Strings *)

Section StringFacts.
Import Js.

Lemma append_cons (c : Ascii.ascii) (a b : string) :
  (String c a ++ b = String c (a ++ b))%string.
Proof. reflexivity. Qed.

Lemma append_nil (b : string) : ("" ++ b = b)%string.
Proof. reflexivity. Qed.

Lemma prefix_append (a s : string) :
  String.prefix a s = true <-> exists b : string, s = (a ++ b)%string.
Proof.
  revert s. induction a as [| c a IH]; intros s.
  - split; [intros _; exists s; reflexivity | intros _; destruct s; reflexivity].
  - destruct s as [| d s]; cbn [String.prefix].
    + split; [discriminate | intros [b Hb]; discriminate Hb].
    + destruct (Ascii.ascii_dec c d) as [-> | Hne].
      * rewrite IH. split; intros [b Hb]; exists b;
          rewrite append_cons in *; congruence.
      * split; [discriminate | intros [b Hb]; rewrite append_cons in Hb; congruence].
Qed.

Lemma includes_occurs (s sub : string) :
  includes s sub = true <-> Spec.occurs_in sub s.
Proof.
  unfold Spec.occurs_in. induction s as [| c s IH].
  - cbn [includes]. rewrite orb_false_r, prefix_append. split.
    + intros [b Hb]. exists ""%string, b. exact Hb.
    + intros [a [b Hab]]. destruct a; [exists b; exact Hab | discriminate Hab].
  - cbn [includes]. rewrite orb_true_iff, IH, prefix_append. split.
    + intros [[b Hb] | [a [b Hab]]].
      * exists ""%string, b. exact Hb.
      * exists (String c a), b. rewrite append_cons. congruence.
    + intros [a [b Hab]]. destruct a as [| d a].
      * left. exists b. exact Hab.
      * right. exists a, b. rewrite append_cons in Hab. congruence.
Qed.

Lemma append_empty (s : string) : (s ++ "" = s)%string.
Proof. induction s as [| c s IH]; [reflexivity |]. rewrite append_cons, IH. reflexivity. Qed.

Lemma occurs_in_refl (s : string) : Spec.occurs_in s s.
Proof.
  exists ""%string, ""%string. rewrite append_nil, append_empty. reflexivity.
Qed.

Lemma append_assoc (a b c : string) : ((a ++ b) ++ c = a ++ (b ++ c))%string.
Proof.
  induction a as [| d a IH]; [reflexivity |].
  rewrite !append_cons, IH. reflexivity.
Qed.

Lemma occurs_in_prepend (sub p s : string) :
  Spec.occurs_in sub s -> Spec.occurs_in sub (p ++ s)%string.
Proof.
  intros [a [b ->]]. exists (p ++ a)%string, b. symmetry. apply append_assoc.
Qed.

Lemma occurs_in_append (sub s q : string) :
  Spec.occurs_in sub s -> Spec.occurs_in sub (s ++ q)%string.
Proof.
  intros [a [b ->]]. exists a, (b ++ q)%string.
  rewrite !append_assoc. reflexivity.
Qed.

Lemma join_occurs (sep key : string) (l : list string) :
  In key l -> Spec.occurs_in key (join sep l).
Proof.
  unfold join. induction l as [| x l IH]; [intros [] |].
  intros [-> | Hin].
  - destruct l; [apply occurs_in_refl |].
    change (Spec.occurs_in key (key ++ sep ++ String.concat sep (s :: l))%string).
    apply occurs_in_append, occurs_in_refl.
  - destruct l as [| y l]; [destruct Hin |].
    change (String.concat sep (x :: y :: l))
      with (x ++ sep ++ String.concat sep (y :: l))%string.
    apply occurs_in_prepend, occurs_in_prepend, IH, Hin.
Qed.

End StringFacts.

(** ** The brightness sampler *)

Section BrightnessSampleFacts.
Import Glsl BrightnessSample.

Lemma accumulate_sum (u f : nat) (U : uniforms) (gl_FragCoord : vec2) :
  accumulate u f U gl_FragCoord
  == Spec.sum (map (fun sg => luminance (texture2D (u_inputImage U)
                                           (m u f U gl_FragCoord (fst sg) (snd sg))))
                 (Spec.traversal u f)).
Proof.
  unfold accumulate, Spec.traversal.
  rewrite (for_loop_sum_rows _
             (fun s => Spec.sum (map (fun g => luminance (texture2D (u_inputImage U)
                                                  (m u f U gl_FragCoord s g)))
                                    (seq 0 f)))).
  - rewrite (sum_traversal
               (fun s g => luminance (texture2D (u_inputImage U) (m u f U gl_FragCoord s g)))).
    lra.
  - intros s acc.
    apply (for_loop_sum
             (fun g => luminance (texture2D (u_inputImage U) (m u f U gl_FragCoord s g)))).
Qed.

(** The sub-samples of the brightness sampler are the [u] x [f] points of
    the fragment's cell. *)
Lemma brightnessSample_sub_sample (u f : nat) (U : uniforms) (gl_FragCoord : vec2)
    (s g : nat) :
  0 < ux (u_inputImageSize U) -> 0 < uy (u_inputImageSize U) ->
  (0 <= Qfloor (ux gl_FragCoord) < u_gridCols U)%Z ->
  (0 <= Qfloor (uy gl_FragCoord) < u_gridRows U)%Z ->
  (s < u)%nat -> (g < f)%nat ->
  Props.same_point (m u f U gl_FragCoord s g)
    (Props.sub_sample_point (float (u_gridCols U)) (float (u_gridRows U))
       (Qfloor (ux gl_FragCoord)) (Qfloor (uy gl_FragCoord)) u f s g) /\
  Props.inside_cell (float (u_gridCols U)) (float (u_gridRows U))
    (Qfloor (ux gl_FragCoord)) (Qfloor (uy gl_FragCoord))
    (m u f U gl_FragCoord s g).
Proof.
  intros HW HH Hx Hy Hs Hg.
  destruct (cell_in_grid _ _ Hx) as [Hcols Hx1].
  destruct (cell_in_grid _ _ Hy) as [Hrows Hy1].
  destruct Hx as [Hx0 _]. destruct Hy as [Hy0 _].
  split; split.
  - apply (sampler_axis_value (ux (u_inputImageSize U)) (float (u_gridCols U))
             (Qfloor (ux gl_FragCoord)) s u HW Hcols Hs Hx0 Hx1).
  - apply (sampler_axis_value (uy (u_inputImageSize U)) (float (u_gridRows U))
             (Qfloor (uy gl_FragCoord)) g f HH Hrows Hg Hy0 Hy1).
  - apply (sampler_axis (ux (u_inputImageSize U)) (float (u_gridCols U))
             (Qfloor (ux gl_FragCoord)) s u HW Hcols Hs Hx0 Hx1).
  - apply (sampler_axis (uy (u_inputImageSize U)) (float (u_gridRows U))
             (Qfloor (uy gl_FragCoord)) g f HH Hrows Hg Hy0 Hy1).
Qed.

(** C3: for a cell of positive height [u] and width [f] (the bounds baked
    into the shader), the brightness sampler writes to the three colour
    channels the arithmetic mean of the luminance
    0.299 R + 0.587 G + 0.114 B of the [u] x [f] sub-samples of the cell,
    with alpha 1; every sub-sample's coordinate lies in [0,1] x [0,1];
    for a fragment of a cell of the grid over a capture buffer of positive
    size, sub-sample [(s, g)] is the point of the cell at the fractions
    [(s + 1/2) / u] of its width and [(g + 1/2) / f] of its height, strictly
    inside the cell; and the buffer the constructor creates for the pass
    is [cols] wide and [rows] high. *)
Theorem brightnessSample_mean_of_luminance
    (u f : nat) (U : uniforms) (gl_FragCoord : vec2) :
  (0 < u)%nat -> (0 < f)%nat ->
  let samples := map (fun sg => m u f U gl_FragCoord (fst sg) (snd sg)) (Spec.traversal u f) in
  let mean := Spec.arithmetic_mean (map (fun c => luminance (texture2D (u_inputImage U) c)) samples) in
  (vx (main u f U gl_FragCoord) == mean /\
   vy (main u f U gl_FragCoord) == mean /\
   vz (main u f U gl_FragCoord) == mean /\
   vw (main u f U gl_FragCoord) = 1) /\
  length samples = (u * f)%nat /\
  Forall Spec.in_texture_space samples /\
  (0 < ux (u_inputImageSize U) -> 0 < uy (u_inputImageSize U) ->
   (0 <= Qfloor (ux gl_FragCoord) < u_gridCols U)%Z ->
   (0 <= Qfloor (uy gl_FragCoord) < u_gridRows U)%Z ->
   forall s g, (s < u)%nat -> (g < f)%nat ->
     In (m u f U gl_FragCoord s g) samples /\
     Props.same_point (m u f U gl_FragCoord s g)
       (Props.sub_sample_point (float (u_gridCols U)) (float (u_gridRows U))
          (Qfloor (ux gl_FragCoord)) (Qfloor (uy gl_FragCoord)) u f s g) /\
     Props.inside_cell (float (u_gridCols U)) (float (u_gridRows U))
       (Qfloor (ux gl_FragCoord)) (Qfloor (uy gl_FragCoord))
       (m u f U gl_FragCoord s g)) /\
  (forall (Host : Type) super_constructor p c g fm options,
     let this := @Renderer.constructor Host super_constructor p c g fm options in
     Renderer.width (Renderer._brightnessSampleFramebuffer this)
       = Renderer.cols (Renderer._grid (Renderer.super this)) /\
     Renderer.height (Renderer._brightnessSampleFramebuffer this)
       = Renderer.rows (Renderer._grid (Renderer.super this))).
Proof.
  intros Hu Hf samples mean.
  assert (Hlen : length samples = (u * f)%nat).
  { unfold samples. rewrite length_map. apply traversal_length. }
  assert (Hmean : accumulate u f U gl_FragCoord / floatn (u * f) == mean).
  { unfold mean, Spec.arithmetic_mean, samples.
    rewrite !length_map, traversal_length, map_map, accumulate_sum.
    reflexivity. }
  split; [| split; [exact Hlen | split; [| split]]].
  - unfold main. simpl. repeat split; try exact Hmean.
  - unfold samples. apply List.Forall_forall. intros c Hc.
    apply in_map_iff in Hc as [sg [<- _]]. apply clamp2_unit.
  - intros HW HH Hx Hy s g Hs Hg. split.
    + unfold samples. apply in_map_iff. exists (s, g). split; [reflexivity |].
      apply traversal_in. split; assumption.
    + apply brightnessSample_sub_sample; assumption.
  - intros Host super_constructor p c g fm options. split; reflexivity.
Qed.

Lemma brightnessSample_mean_of_luminance_witness :
  (0 < 2)%nat /\ (0 < 2)%nat /\
  vx (main 2 2 Examples.sample_uniforms Examples.pixel_centre) == 127 # 255 /\
  Props.inside_cell 2 2 0 0 (m 2 2 Examples.sample_uniforms Examples.pixel_centre 1 0).
Proof.
  split; [lia |]. split; [lia |].
  destruct (brightnessSample_mean_of_luminance 2 2 Examples.sample_uniforms
              Examples.pixel_centre) as [[Hx _] [_ [_ [Hcell _]]]]; [lia | lia |].
  split.
  - rewrite Hx. vm_compute. reflexivity.
  - apply (Hcell ltac:(reflexivity) ltac:(reflexivity)
                 ltac:(vm_compute; split; [discriminate | reflexivity])
                 ltac:(vm_compute; split; [discriminate | reflexivity])
                 1%nat 0%nat ltac:(lia) ltac:(lia)).
Defined.

End BrightnessSampleFacts.

(** ** The brightness splitter *)

Section BrightnessSplitFacts.
Import Glsl BrightnessSplit.

(** C2, as stated, fails: in a cell of two opaque pixels of grey levels
    127/255 and 129/255, whose brightness the sampler computes as
    129/255, the first pixel is darker than the cell's average, yet the
    splitter outputs 1.0 for it, because the difference stays within
    [EPSILON]. *)
Lemma brightnessSplit_not_exact_indicator :
  ~ Spec.exact_indicator Examples.split_uniforms Examples.pixel_centre.
Proof.
  unfold Spec.exact_indicator. intros H.
  assert (Hopaque : ~ vw (originalColor Examples.split_uniforms Examples.pixel_centre) < EPSILON).
  { vm_compute. discriminate. }
  specialize (H Hopaque). vm_compute in H. discriminate H.
Qed.

(** The values at that pixel. *)
Example brightnessSplit_two_tone_values :
  fragmentBrightness Examples.split_uniforms Examples.pixel_centre == 127 # 255 /\
  averageBrightness Examples.split_uniforms Examples.pixel_centre == 129 # 255 /\
  main Examples.split_uniforms Examples.pixel_centre = Vec4 1 1 1 1.
Proof. split; [| split]; vm_compute; reflexivity. Qed.

End BrightnessSplitFacts.

(** ** IEEE 754 binary32 *)

Section Float32Facts.
Import Glsl Mediump Float32.

Lemma nearest_even_close (x : Q) :
  - (1 # 2) <= inject_Z (nearest_even x) - x <= 1 # 2.
Proof.
  unfold nearest_even.
  pose proof (Qfloor_le x) as Hlo.
  pose proof (Qlt_floor x) as Hhi.
  rewrite inject_Z_plus in Hhi. change (inject_Z 1) with 1 in Hhi.
  destruct (Qcompare (x - inject_Z (Qfloor x)) 0.5) eqn:Hc.
  - apply Qeq_alt in Hc.
    destruct (Z.even (Qfloor x)).
    + split; lra.
    + rewrite inject_Z_plus. change (inject_Z 1) with 1. split; lra.
  - apply Qlt_alt in Hc. split; lra.
  - apply Qgt_alt in Hc. rewrite inject_Z_plus. change (inject_Z 1) with 1.
    split; lra.
Qed.

Lemma exponent_below (a : Q) : 0 < a -> 2 ^ exponent a <= a.
Proof.
  intros Ha. unfold exponent.
  destruct (Qle_bool _ a) eqn:Htest; [apply Qle_bool_iff; exact Htest |].
  clear Htest. destruct a as [n d]. cbn [Qnum Qden].
  assert (Hn : (0 < n)%Z).
  { unfold Qlt in Ha. cbn in Ha. lia. }
  destruct (Z.log2_spec n Hn) as [Hn0 _].
  destruct (Z.log2_spec (Zpos d) ltac:(lia)) as [_ Hd1].
  pose proof (Z.log2_nonneg n) as Hln.
  pose proof (Z.log2_nonneg (Zpos d)) as Hld.
  replace (Z.log2 n - Z.log2 (Z.pos d) - 1)%Z
    with (Z.log2 n - Z.succ (Z.log2 (Z.pos d)))%Z by lia.
  rewrite Qpower_minus by discriminate.
  change 2 with (inject_Z 2).
  rewrite <- !Zpower_Qpower by lia.
  rewrite (Qmake_Qdiv n d).
  assert (HA : 0 < inject_Z (2 ^ Z.log2 n)).
  { change 0 with (inject_Z 0). rewrite <- Zlt_Qlt. apply Z.pow_pos_nonneg; lia. }
  assert (HAN : inject_Z (2 ^ Z.log2 n) <= inject_Z n) by (rewrite <- Zle_Qle; exact Hn0).
  assert (HD : 0 < inject_Z (Z.pos d)) by (change 0 with (inject_Z 0); rewrite <- Zlt_Qlt; lia).
  assert (HDB : inject_Z (Z.pos d) <= inject_Z (2 ^ Z.succ (Z.log2 (Z.pos d))))
    by (rewrite <- Zle_Qle; lia).
  apply Qle_shift_div_l; [exact HD |].
  apply Qle_trans with (inject_Z (2 ^ Z.log2 n)); [| exact HAN].
  set (A := inject_Z (2 ^ Z.log2 n)) in *.
  set (B := inject_Z (2 ^ Z.succ (Z.log2 (Z.pos d)))) in *.
  set (D := inject_Z (Z.pos d)) in *.
  assert (HB : 0 < B) by lra.
  assert (Heq : A / B * D == A * (D / B)) by (field; lra).
  rewrite Heq.
  assert (Hle : D / B <= 1) by (apply Qle_shift_div_r; [exact HB | lra]).
  assert (Hpos : 0 <= A * (1 - D / B)) by (apply Qmult_le_0_compat; lra).
  lra.
Qed.

Lemma magnitude_close (a : Q) :
  0 < a -> a <= 2 -> - (1 # 8388608) <= magnitude a - a <= 1 # 8388608.
Proof.
  intros Ha Ha2. unfold magnitude.
  pose proof (exponent_below a Ha) as Hexp.
  assert (He : (exponent a <= 1)%Z).
  { apply (Qpower_le_compat_l_inv 2); [| reflexivity].
    change (2 ^ 1) with 2. lra. }
  set (ulp := 2 ^ (exponent a - 23)).
  assert (Hulp : 0 < ulp) by (apply Qpower_0_lt; reflexivity).
  assert (Hsmall : ulp <= 1 # 4194304).
  { change (1 # 4194304) with (2 ^ (-22)).
    apply Qpower_le_compat_l; [lia | discriminate]. }
  pose proof (nearest_even_close (a / ulp)) as [Hlo Hhi].
  set (n := inject_Z (nearest_even (a / ulp))) in *.
  assert (Heq : n * ulp - a == (n - a / ulp) * ulp) by (field; lra).
  rewrite Heq.
  assert (H1 : 0 <= ((1 # 2) - (n - a / ulp)) * ulp) by (apply Qmult_le_0_compat; lra).
  assert (H2 : 0 <= ((n - a / ulp) + (1 # 2)) * ulp) by (apply Qmult_le_0_compat; lra).
  split; lra.
Qed.

Lemma round_close (q : Q) :
  -2 <= q <= 2 -> - (1 # 8388608) <= round q - q <= 1 # 8388608.
Proof.
  intros [Hlo Hhi]. unfold round.
  destruct (Qcompare q 0) eqn:Hc.
  - apply Qeq_alt in Hc. rewrite Hc. split; lra.
  - apply Qlt_alt in Hc. rewrite Qred_correct.
    pose proof (magnitude_close (- q) ltac:(lra) ltac:(lra)). lra.
  - apply Qgt_alt in Hc. rewrite Qred_correct.
    pose proof (magnitude_close q ltac:(lra) ltac:(lra)). lra.
Qed.

(** Within [-2, 2], binary32 is accurate to [2 ^ -23]. *)
Lemma binary32_accurate : Rounding.accurate binary32 (1 # 8388608).
Proof.
  unfold Rounding.accurate, binary32. cbn [flit fadd fsub fmul].
  split_and!; intros; apply round_close; assumption.
Qed.

End Float32Facts.

(** ** The brightness splitter in floating point *)

Section BrightnessSplitMediumpFacts.
Import Glsl Mediump BrightnessSplitMediump.

(** A factor within [0,1] keeps an error within its bound. *)
Lemma scaled_error (d x delta : Q) :
  - delta <= d <= delta -> 0 <= x <= 1 -> - delta <= d * x <= delta.
Proof.
  intros [Hd0 Hd1] [Hx0 Hx1].
  assert (Hdelta : 0 <= delta) by lra.
  destruct (Qlt_le_dec d 0) as [Hneg | Hpos].
  - assert (H1 : 0 <= (- d) * x) by (apply Qmult_le_0_compat; lra).
    assert (H2 : 0 <= (- d) * (1 - x)) by (apply Qmult_le_0_compat; lra).
    split; lra.
  - assert (H1 : 0 <= d * x) by (apply Qmult_le_0_compat; lra).
    assert (H2 : 0 <= d * (1 - x)) by (apply Qmult_le_0_compat; lra).
    split; lra.
Qed.

(** A weight times a channel, with a rounded weight and a rounded product. *)
Lemma weighted_channel (A : arithmetic) (delta w x : Q) :
  0 <= delta <= 1 # 100 -> Rounding.accurate A delta ->
  0 <= w <= 1 -> 0 <= x <= 1 ->
  - (2 * delta) <= fmul A (flit A w) x - w * x <= 2 * delta.
Proof.
  intros Hdelta [Hlit [_ [_ Hmul]]] Hw Hx.
  pose proof (Hlit w ltac:(lra)) as Hw'.
  pose proof (scaled_error (flit A w - w) x delta Hw' Hx) as Hs.
  assert (Hwx : 0 <= w * x) by (apply Qmult_le_0_compat; lra).
  assert (Hwx1 : 0 <= w * (1 - x)) by (apply Qmult_le_0_compat; lra).
  assert (Hprod : flit A w * x == w * x + (flit A w - w) * x) by ring.
  pose proof (Hmul (flit A w) x ltac:(rewrite Hprod; lra)) as Hm.
  rewrite Hprod in Hm. lra.
Qed.

Lemma fragmentBrightness_accurate (A : arithmetic) (delta : Q)
    (U : BrightnessSplit.uniforms) (gl_FragCoord : vec2) :
  0 <= delta <= 1 # 100 -> Rounding.accurate A delta ->
  Rounding.unit_color (originalColor A U gl_FragCoord) ->
  - (8 * delta) <= fragmentBrightness A U gl_FragCoord
                   - luminance (originalColor A U gl_FragCoord) <= 8 * delta.
Proof.
  intros Hdelta Hacc [Hr [Hg Hb]].
  pose proof (weighted_channel A delta 0.299 _ Hdelta Hacc ltac:(lra) Hr) as H1.
  pose proof (weighted_channel A delta 0.587 _ Hdelta Hacc ltac:(lra) Hg) as H2.
  pose proof (weighted_channel A delta 0.114 _ Hdelta Hacc ltac:(lra) Hb) as H3.
  destruct Hacc as [_ [Hadd _]].
  unfold fragmentBrightness, luminance.
  set (c := originalColor A U gl_FragCoord) in *.
  set (t1 := fmul A (flit A 0.299) (vx c)) in *.
  set (t2 := fmul A (flit A 0.587) (vy c)) in *.
  set (t3 := fmul A (flit A 0.114) (vz c)) in *.
  assert (B1 : 0 <= 0.299 * vx c <= 0.299).
  { assert (0 <= 0.299 * vx c) by (apply Qmult_le_0_compat; lra).
    assert (0 <= 0.299 * (1 - vx c)) by (apply Qmult_le_0_compat; lra). lra. }
  assert (B2 : 0 <= 0.587 * vy c <= 0.587).
  { assert (0 <= 0.587 * vy c) by (apply Qmult_le_0_compat; lra).
    assert (0 <= 0.587 * (1 - vy c)) by (apply Qmult_le_0_compat; lra). lra. }
  assert (B3 : 0 <= 0.114 * vz c <= 0.114).
  { assert (0 <= 0.114 * vz c) by (apply Qmult_le_0_compat; lra).
    assert (0 <= 0.114 * (1 - vz c)) by (apply Qmult_le_0_compat; lra). lra. }
  pose proof (Hadd t1 t2 ltac:(lra)) as H12.
  pose proof (Hadd (fadd A t1 t2) t3 ltac:(lra)) as H123.
  lra.
Qed.

(** C2, amended: for every opaque source pixel (alpha not below
    [EPSILON]) the splitter outputs exactly 1.0 when the difference it
    computes between the pixel's luminance and the cell's average
    brightness is not below [-EPSILON], and exactly 0.0 when it is, with
    alpha 1; the luminance, the difference and [EPSILON] are the shader's
    floating-point values, whatever the arithmetic.  For an arithmetic
    accurate to [delta] and channels within [0,1], this is the comparison
    of the luminance with the average minus 0.01 outside a band of
    [10 delta] on either side of that threshold: at and above
    [average - 0.01 + 10 delta] the output is 1.0, below
    [average - 0.01 - 10 delta] it is 0.0. *)
Theorem brightnessSplit_threshold (A : arithmetic) (U : BrightnessSplit.uniforms)
    (gl_FragCoord : vec2) :
  ~ vw (originalColor A U gl_FragCoord) < EPSILON A ->
  ((- EPSILON A <= brightnessDifference A U gl_FragCoord ->
    main A U gl_FragCoord = Vec4 1 1 1 1) /\
   (brightnessDifference A U gl_FragCoord < - EPSILON A ->
    main A U gl_FragCoord = Vec4 0 0 0 1)) /\
  (forall delta,
     0 <= delta <= 1 # 100 -> Rounding.accurate A delta ->
     Rounding.unit_color (originalColor A U gl_FragCoord) ->
     0 <= averageBrightness A U gl_FragCoord <= 1 ->
     (averageBrightness A U gl_FragCoord - 0.01 + 10 * delta
      <= luminance (originalColor A U gl_FragCoord) ->
      main A U gl_FragCoord = Vec4 1 1 1 1) /\
     (luminance (originalColor A U gl_FragCoord)
      < averageBrightness A U gl_FragCoord - 0.01 - 10 * delta ->
      main A U gl_FragCoord = Vec4 0 0 0 1)).
Proof.
  intros Hopaque.
  assert (Hmain :
    (- EPSILON A <= brightnessDifference A U gl_FragCoord ->
     main A U gl_FragCoord = Vec4 1 1 1 1) /\
    (brightnessDifference A U gl_FragCoord < - EPSILON A ->
     main A U gl_FragCoord = Vec4 0 0 0 1)).
  { unfold main.
    destruct (ltb (vw (originalColor A U gl_FragCoord)) (EPSILON A)) eqn:Ha.
    { apply ltb_lt in Ha. contradiction. }
    cbv zeta.
    destruct (ltb (brightnessDifference A U gl_FragCoord) (- EPSILON A)) eqn:Hd.
    - apply ltb_lt in Hd. split; intros H; [lra | reflexivity].
    - apply ltb_ge in Hd. split; intros H; [reflexivity | lra]. }
  split; [exact Hmain |].
  intros delta Hdelta Hacc Hcolor Havg.
  pose proof (fragmentBrightness_accurate A delta U gl_FragCoord Hdelta Hacc Hcolor) as Hlum.
  assert (Hbound : 0 <= luminance (originalColor A U gl_FragCoord) <= 1).
  { destruct Hcolor as [Hr [Hg Hb]]. unfold luminance. lra. }
  destruct Hacc as [Hlit [_ [Hsub _]]].
  pose proof (Hlit 0.01 ltac:(lra)) as Heps. fold (EPSILON A) in Heps.
  pose proof (Hsub (fragmentBrightness A U gl_FragCoord)
                (averageBrightness A U gl_FragCoord) ltac:(lra)) as Hdiff.
  fold (brightnessDifference A U gl_FragCoord) in Hdiff.
  destruct Hmain as [Hone Hzero].
  split; intros H; [apply Hone | apply Hzero]; lra.
Qed.

Lemma brightnessSplit_threshold_witness :
  ~ vw (originalColor Float32.binary32 (Float32.at_threshold Float32.byte)
          Examples.pixel_centre) < EPSILON Float32.binary32 /\
  main Float32.binary32 (Float32.at_threshold Float32.byte) Examples.pixel_centre
  = Vec4 0 0 0 1 /\
  main Float32.binary32 Examples.split_uniforms Examples.pixel_centre = Vec4 1 1 1 1.
Proof.
  assert (Hopaque :
    ~ vw (originalColor Float32.binary32 (Float32.at_threshold Float32.byte)
            Examples.pixel_centre) < EPSILON Float32.binary32).
  { vm_compute. discriminate. }
  split; [exact Hopaque |]. split.
  - apply (brightnessSplit_threshold Float32.binary32 (Float32.at_threshold Float32.byte)
             Examples.pixel_centre Hopaque).
    vm_compute. reflexivity.
  - assert (Hopaque' :
      ~ vw (originalColor Float32.binary32 Examples.split_uniforms Examples.pixel_centre)
        < EPSILON Float32.binary32) by (vm_compute; discriminate).
    apply (proj2 (brightnessSplit_threshold Float32.binary32 Examples.split_uniforms
                    Examples.pixel_centre Hopaque')
             (1 # 8388608)).
    + split; vm_compute; discriminate.
    + exact binary32_accurate.
    + split_and!; vm_compute; discriminate.
    + split; vm_compute; discriminate.
    + vm_compute. discriminate.
Defined.

(** At the threshold the arithmetic decides: the pixel of bytes
    (38, 34, 45) in a cell of brightness 39 has, as fractions of 255, a
    luminance below the average by 0.01 and gets 1.0 in exact arithmetic;
    in binary32 the difference computed is below [-EPSILON], and the pixel
    gets 0.0. *)
Example brightnessSplit_binary32_at_threshold :
  luminance (Vec4 (38 # 255) (34 # 255) (45 # 255) 1) - (39 # 255) == - 0.01 /\
  BrightnessSplit.main (Float32.at_threshold (fun b => inject_Z b / 255))
    Examples.pixel_centre = Vec4 1 1 1 1 /\
  brightnessDifference Float32.binary32 (Float32.at_threshold Float32.byte)
    Examples.pixel_centre < - EPSILON Float32.binary32 /\
  main Float32.binary32 (Float32.at_threshold Float32.byte) Examples.pixel_centre
  = Vec4 0 0 0 1.
Proof. split_and!; vm_compute; reflexivity. Qed.

End BrightnessSplitMediumpFacts.

(** ** The colour sampler *)

Section ColorFacts.
Import Glsl.

(** Equality of the colour channels is an equivalence. *)
Lemma xyz_eqb_same (a b : vec4) : xyz_eqb a b = true <-> Spec.same_xyz a b.
Proof.
  unfold xyz_eqb, Spec.same_xyz. rewrite !andb_true_iff, !Qeq_bool_iff. tauto.
Qed.

Lemma xyz_eqb_refl (a : vec4) : xyz_eqb a a = true.
Proof. apply xyz_eqb_same. repeat split; reflexivity. Qed.

Lemma xyz_eqb_sym (a b : vec4) : xyz_eqb a b = xyz_eqb b a.
Proof.
  destruct (xyz_eqb a b) eqn:Hab, (xyz_eqb b a) eqn:Hba; try reflexivity.
  - apply xyz_eqb_same in Hab. destruct Hab as [Hx [Hy Hz]].
    assert (H : xyz_eqb b a = true)
      by (apply xyz_eqb_same; repeat split; symmetry; assumption).
    congruence.
  - apply xyz_eqb_same in Hba. destruct Hba as [Hx [Hy Hz]].
    assert (H : xyz_eqb a b = true)
      by (apply xyz_eqb_same; repeat split; symmetry; assumption).
    congruence.
Qed.

Lemma xyz_eqb_trans (a b c : vec4) :
  xyz_eqb a b = true -> xyz_eqb b c = true -> xyz_eqb a c = true.
Proof.
  rewrite !xyz_eqb_same. intros [Hx [Hy Hz]] [Hx' [Hy' Hz']].
  repeat split; etransitivity; eassumption.
Qed.

(** Equivalent colours compare alike with any third colour. *)
Lemma xyz_eqb_compat (a b c : vec4) :
  xyz_eqb a b = true -> xyz_eqb a c = xyz_eqb b c.
Proof.
  intros Hab.
  destruct (xyz_eqb a c) eqn:Hac, (xyz_eqb b c) eqn:Hbc; try reflexivity.
  - rewrite xyz_eqb_sym in Hab. pose proof (xyz_eqb_trans _ _ _ Hab Hac). congruence.
  - pose proof (xyz_eqb_trans _ _ _ Hab Hbc). congruence.
Qed.

End ColorFacts.

Section ColorSampleFacts.
Import Glsl ColorSample.

Variables e u f : nat.
Variable U : uniforms.
Variable gl_FragCoord : vec2.

(** The buckets after the loops are the buckets after tallying, in
    traversal order, the colours of the selected sub-samples. *)
Lemma sampled_matching :
  sampled e u f U gl_FragCoord
  = fold_left tally (Spec.matching_colors u f U gl_FragCoord) (initial e).
Proof.
  unfold sampled.
  rewrite (for_loop_ext _
    (fun v cb => Some (for_loop 0 f (fun k cb =>
       Some (if negb (selected U (s u f U gl_FragCoord v k)) then cb
             else tally cb (texture2D (u_inputImage U) (s u f U gl_FragCoord v k)))) cb))).
  2: { intros v cb. f_equal. apply for_loop_ext. intros k cb'.
       destruct (selected U (s u f U gl_FragCoord v k)); reflexivity. }
  rewrite (for_loop_traversal
    (fun v k cb => if negb (selected U (s u f U gl_FragCoord v k)) then cb
                   else tally cb (texture2D (u_inputImage U) (s u f U gl_FragCoord v k)))).
  unfold Spec.matching_colors, Spec.sub_samples.
  generalize (Spec.traversal u f) (initial e). intros l.
  induction l as [| vk l IH]; intros cb; [reflexivity |].
  cbn [fold_left map List.filter fst snd].
  rewrite IH.
  destruct (selected U (s u f U gl_FragCoord vk.1 vk.2)); reflexivity.
Qed.

Lemma most_frequent_initial (n : nat) :
  fold_left pick (repeat (vec4_splat 0, 0) n) (0, vec4_splat 0) = (0, vec4_splat 0).
Proof.
  induction n as [| n IH]; [reflexivity | exact IH].
Qed.

Lemma matching_colors_nil :
  (forall v k, (v < u)%nat -> (k < f)%nat -> selected U (s u f U gl_FragCoord v k) = false) ->
  Spec.matching_colors u f U gl_FragCoord = [].
Proof.
  intros Hnone. unfold Spec.matching_colors, Spec.sub_samples.
  assert (Hall : forall vk, In vk (Spec.traversal u f) ->
            selected U (s u f U gl_FragCoord (fst vk) (snd vk)) = false).
  { intros [v k] Hin. apply traversal_in in Hin. apply Hnone; tauto. }
  induction (Spec.traversal u f) as [| vk l IH]; [reflexivity |].
  cbn [map List.filter]. rewrite (Hall vk (or_introl eq_refl)).
  apply IH. intros vk' Hin. apply Hall. right. exact Hin.
Qed.

(** The sub-samples of the colour sampler are the [u] x [f] points of the
    fragment's cell, and [v] is the texel at the centre of the cell. *)
Lemma colorSample_sub_sample :
  0 < ux (u_inputImageSize U) -> 0 < uy (u_inputImageSize U) ->
  (0 <= Qfloor (ux gl_FragCoord) < u_gridCols U)%Z ->
  (0 <= Qfloor (uy gl_FragCoord) < u_gridRows U)%Z ->
  (forall a b, (a < u)%nat -> (b < f)%nat ->
     Props.same_point (s u f U gl_FragCoord a b)
       (Props.sub_sample_point (float (u_gridCols U)) (float (u_gridRows U))
          (Qfloor (ux gl_FragCoord)) (Qfloor (uy gl_FragCoord)) u f a b) /\
     Props.inside_cell (float (u_gridCols U)) (float (u_gridRows U))
       (Qfloor (ux gl_FragCoord)) (Qfloor (uy gl_FragCoord))
       (s u f U gl_FragCoord a b)) /\
  (exists k,
     v U gl_FragCoord = texture2D (u_inputImage U) k /\
     Props.same_point k
       (Props.cell_centre (float (u_gridCols U)) (float (u_gridRows U))
          (Qfloor (ux gl_FragCoord)) (Qfloor (uy gl_FragCoord)))).
Proof.
  intros HW HH Hx Hy.
  destruct (cell_in_grid _ _ Hx) as [Hcols Hx1].
  destruct (cell_in_grid _ _ Hy) as [Hrows Hy1].
  destruct Hx as [Hx0 _]. destruct Hy as [Hy0 _].
  split.
  - intros a b Ha Hb. split; split.
    + apply (sampler_axis_value (ux (u_inputImageSize U)) (float (u_gridCols U))
               (Qfloor (ux gl_FragCoord)) a u HW Hcols Ha Hx0 Hx1).
    + apply (sampler_axis_value (uy (u_inputImageSize U)) (float (u_gridRows U))
               (Qfloor (uy gl_FragCoord)) b f HH Hrows Hb Hy0 Hy1).
    + apply (sampler_axis (ux (u_inputImageSize U)) (float (u_gridCols U))
               (Qfloor (ux gl_FragCoord)) a u HW Hcols Ha Hx0 Hx1).
    + apply (sampler_axis (uy (u_inputImageSize U)) (float (u_gridRows U))
               (Qfloor (uy gl_FragCoord)) b f HH Hrows Hb Hy0 Hy1).
  - eexists. split; [reflexivity |].
    unfold Props.same_point.
    cbn [ux uy Props.cell_centre div2 add2 muls2 zip2 map2 i t mul2 floor2 floor].
    unfold floor. split; field; lra.
Qed.

(** C6: when no sub-sample of the cell matches the requested rank, the
    sampler with rank 2 returns the colour of the source pixel at the
    centre of the cell (with alpha 1), and the sampler with rank 1, which
    has no such case, returns the zero the buckets were initialised with
    (with alpha 1); for a fragment of a cell of the grid over a capture
    buffer of positive size, the sub-samples are the [u] x [f] points of
    that cell, and the pixel rank 2 falls back to is the texel of the
    capture buffer at the centre of that cell. *)
Theorem colorSample_no_match_fallback :
  (forall v k, (v < u)%nat -> (k < f)%nat -> selected U (s u f U gl_FragCoord v k) = false) ->
  (u_colorRank U = 2%Z ->
   main e u f U gl_FragCoord = vec4_of (xyz (v U gl_FragCoord)) 1) /\
  (u_colorRank U = 1%Z ->
   main e u f U gl_FragCoord = Vec4 0 0 0 1) /\
  (0 < ux (u_inputImageSize U) -> 0 < uy (u_inputImageSize U) ->
   (0 <= Qfloor (ux gl_FragCoord) < u_gridCols U)%Z ->
   (0 <= Qfloor (uy gl_FragCoord) < u_gridRows U)%Z ->
   (forall a b, (a < u)%nat -> (b < f)%nat ->
      Props.same_point (s u f U gl_FragCoord a b)
        (Props.sub_sample_point (float (u_gridCols U)) (float (u_gridRows U))
           (Qfloor (ux gl_FragCoord)) (Qfloor (uy gl_FragCoord)) u f a b)) /\
   (u_colorRank U = 2%Z ->
    exists k,
      Props.same_point k
        (Props.cell_centre (float (u_gridCols U)) (float (u_gridRows U))
           (Qfloor (ux gl_FragCoord)) (Qfloor (uy gl_FragCoord))) /\
      main e u f U gl_FragCoord = vec4_of (xyz (texture2D (u_inputImage U) k)) 1)).
Proof.
  intros Hnone.
  assert (Hmost : most_frequent e u f U gl_FragCoord = (0, vec4_splat 0)).
  { unfold most_frequent. rewrite sampled_matching, (matching_colors_nil Hnone).
    apply most_frequent_initial. }
  assert (Hsecond : u_colorRank U = 2%Z ->
            main e u f U gl_FragCoord = vec4_of (xyz (v U gl_FragCoord)) 1).
  { unfold main. rewrite Hmost. intros ->. reflexivity. }
  split_and!.
  - exact Hsecond.
  - unfold main. rewrite Hmost. intros ->. reflexivity.
  - intros HW HH Hx Hy.
    destruct (colorSample_sub_sample HW HH Hx Hy) as [Hgrid [k [Hv Hk]]].
    split.
    + intros a b Ha Hb. apply (Hgrid a b Ha Hb).
    + intros Hrank. exists k. split; [exact Hk |].
      rewrite (Hsecond Hrank), Hv. reflexivity.
Qed.

End ColorSampleFacts.

Section TallyFacts.
Import Glsl ColorSample.

Lemma filter_app' {A : Type} (p : A -> bool) (a b : list A) :
  List.filter p (a ++ b) = List.filter p a ++ List.filter p b.
Proof. induction a as [| x a IH]; simpl; [reflexivity |]. destruct (p x); simpl; congruence. Qed.

(** A sample already met leaves the colours encountered as they are; a
    new one comes last. *)
Lemma first_encounters_snoc (ms : list vec4) (m : vec4) :
  Spec.first_encounters (ms ++ [m])
  = if existsb (fun c => xyz_eqb c m) ms then Spec.first_encounters ms
    else Spec.first_encounters ms ++ [m].
Proof.
  induction ms as [| x ms IH]; [reflexivity |].
  cbn [app Spec.first_encounters existsb]. rewrite IH.
  destruct (existsb (fun c => xyz_eqb c m) ms) eqn:Hseen.
  - rewrite orb_true_r. reflexivity.
  - rewrite orb_false_r, filter_app'. cbn [List.filter].
    rewrite (xyz_eqb_sym m x).
    destruct (xyz_eqb x m); cbn [negb]; [rewrite app_nil_r |]; reflexivity.
Qed.

Lemma first_encounters_in (ms : list vec4) (c : vec4) :
  In c (Spec.first_encounters ms) -> In c ms.
Proof.
  revert c. induction ms as [| x ms IH]; intros c; [intros [] |].
  cbn [Spec.first_encounters]. intros [-> | Hin]; [left; reflexivity |].
  apply filter_In in Hin as [Hin _]. right. apply IH, Hin.
Qed.

(** Every sample has its colour among the colours encountered. *)
Lemma first_encounters_seen (ms : list vec4) (m : vec4) :
  existsb (fun c => xyz_eqb c m) (Spec.first_encounters ms)
  = existsb (fun c => xyz_eqb c m) ms.
Proof.
  induction ms as [| x ms IH]; [reflexivity |].
  cbn [Spec.first_encounters existsb]. rewrite <- IH.
  destruct (xyz_eqb x m) eqn:Hxm; [reflexivity |]. cbn [orb].
  generalize (Spec.first_encounters ms). intros l.
  induction l as [| c l IHl]; [reflexivity |].
  cbn [List.filter existsb].
  destruct (xyz_eqb c x) eqn:Hcx; cbn [negb existsb].
  - rewrite (xyz_eqb_compat c x m Hcx), Hxm. exact IHl.
  - rewrite IHl. reflexivity.
Qed.

Lemma distinct_colors_filter (p : vec4 -> bool) (l : list vec4) :
  Spec.distinct_colors l -> Spec.distinct_colors (List.filter p l).
Proof.
  induction l as [| c l IH]; [trivial |].
  intros [Hc Hl]. cbn [List.filter]. destruct (p c).
  - split; [| apply IH, Hl].
    intros c' Hin. apply filter_In in Hin as [Hin _]. apply Hc, Hin.
  - apply IH, Hl.
Qed.

Lemma first_encounters_distinct (ms : list vec4) :
  Spec.distinct_colors (Spec.first_encounters ms).
Proof.
  induction ms as [| x ms IH]; [exact I |].
  cbn [Spec.first_encounters]. split.
  - intros c' Hin. apply filter_In in Hin as [_ Hne].
    apply negb_true_iff in Hne. exact Hne.
  - apply distinct_colors_filter, IH.
Qed.

(** The colours first encountered in a prefix of the samples come before
    those first encountered later. *)
Lemma first_encounters_prefix (ms later : list vec4) :
  exists l, Spec.first_encounters (ms ++ later) = Spec.first_encounters ms ++ l.
Proof.
  induction later as [| m later IH] using rev_ind.
  - exists []. rewrite !app_nil_r. reflexivity.
  - destruct IH as [l Hl]. rewrite app_assoc, first_encounters_snoc, Hl.
    destruct (existsb _ (ms ++ later)).
    + exists l. reflexivity.
    + exists (l ++ [m]). rewrite app_assoc. reflexivity.
Qed.

Lemma occurrences_snoc (c : vec4) (ms : list vec4) (m : vec4) :
  Spec.occurrences c (ms ++ [m])
  = (Spec.occurrences c ms + if xyz_eqb c m then 1 else 0)%nat.
Proof.
  unfold Spec.occurrences. rewrite filter_app', length_app. cbn [List.filter].
  destruct (xyz_eqb c m); reflexivity.
Qed.

Lemma occurrences_positive (c : vec4) (ms : list vec4) :
  In c ms -> (0 < Spec.occurrences c ms)%nat.
Proof.
  unfold Spec.occurrences. induction ms as [| x ms IH]; [intros [] |].
  intros [-> | Hin]; cbn [List.filter].
  - rewrite xyz_eqb_refl. simpl. lia.
  - destruct (xyz_eqb c x); [simpl; lia | apply IH, Hin].
Qed.

Lemma occurrences_unseen (m : vec4) (ms : list vec4) :
  existsb (fun c => xyz_eqb c m) ms = false -> Spec.occurrences m ms = 0%nat.
Proof.
  unfold Spec.occurrences. induction ms as [| x ms IH]; [reflexivity |].
  cbn [existsb List.filter]. intros H. apply orb_false_iff in H as [Hx Hms].
  rewrite xyz_eqb_sym, Hx. apply IH, Hms.
Qed.

Lemma in_firstn {A : Type} (n : nat) (l : list A) (x : A) :
  In x (firstn n l) -> In x l.
Proof.
  revert n. induction l as [| y l IH]; intros n; destruct n as [| n]; cbn [firstn].
  - intros [].
  - intros [].
  - intros [].
  - intros [-> | Hin]; [left; reflexivity | right; eapply IH, Hin].
Qed.

Lemma distinct_colors_firstn (n : nat) (l : list vec4) :
  Spec.distinct_colors l -> Spec.distinct_colors (firstn n l).
Proof.
  revert n. induction l as [| c l IH]; intros [| n]; try (intros; exact I).
  intros [Hc Hl]. cbn [firstn]. split; [| apply IH, Hl].
  intros c' Hin. apply Hc. eapply in_firstn, Hin.
Qed.

Lemma existsb_firstn {A : Type} (p : A -> bool) (n : nat) (l : list A) :
  existsb p (firstn n l) = true -> existsb p l = true.
Proof.
  rewrite !existsb_exists. intros [x [Hin Hp]]. exists x.
  split; [eapply in_firstn, Hin | exact Hp].
Qed.

(** The tally of a colour that is tracked goes up by one, and no other
    tally changes. *)
Lemma count_up_tracked (l : list vec4) (ms : list vec4) (m : vec4) :
  Spec.distinct_colors l ->
  existsb (fun c => xyz_eqb c m) l = true ->
  Spec.count_up m (map (fun c => (c, Spec.occurrences c ms)) l)
  = Some (map (fun c => (c, Spec.occurrences c (ms ++ [m]))) l).
Proof.
  induction l as [| c l IH]; [discriminate |].
  intros [Hc Hl] Hseen. cbn [map Spec.count_up existsb] in *.
  rewrite occurrences_snoc, (xyz_eqb_sym m c).
  destruct (xyz_eqb c m) eqn:Hcm.
  - rewrite Nat.add_1_r. do 2 f_equal.
    apply map_ext_in. intros c' Hin. rewrite occurrences_snoc.
    assert (Hc'm : xyz_eqb c' m = false).
    { rewrite (xyz_eqb_sym c' m), <- (xyz_eqb_compat c m c' Hcm), (xyz_eqb_sym c c').
      apply Hc, Hin. }
    rewrite Hc'm, Nat.add_0_r. reflexivity.
  - cbn [orb] in Hseen. rewrite (IH Hl Hseen), Nat.add_0_r. reflexivity.
Qed.

(** A sample whose colour is not tracked changes no tally. *)
Lemma count_up_untracked (l : list vec4) (ms : list vec4) (m : vec4) :
  existsb (fun c => xyz_eqb c m) l = false ->
  Spec.count_up m (map (fun c => (c, Spec.occurrences c ms)) l) = None /\
  map (fun c => (c, Spec.occurrences c (ms ++ [m]))) l
  = map (fun c => (c, Spec.occurrences c ms)) l.
Proof.
  induction l as [| c l IH]; [intros _; split; reflexivity |].
  cbn [map Spec.count_up existsb]. intros H. apply orb_false_iff in H as [Hcm Hl].
  destruct (IH Hl) as [Hnone Hsame].
  rewrite (xyz_eqb_sym m c), Hcm, Hnone, Hsame, occurrences_snoc, Hcm, Nat.add_0_r.
  split; reflexivity.
Qed.

(** The tallies after one more sample. *)
Lemma tallies_snoc (e : nat) (ms : list vec4) (m : vec4) :
  Spec.tallies e (ms ++ [m]) = Spec.tallies_step e (Spec.tallies e ms) m.
Proof.
  unfold Spec.tallies, Spec.tallies_step.
  destruct (existsb (fun c => xyz_eqb c m) (firstn e (Spec.first_encounters ms))) eqn:Htracked.
  - rewrite count_up_tracked
      by (try apply distinct_colors_firstn, first_encounters_distinct; exact Htracked).
    rewrite first_encounters_snoc, <- first_encounters_seen.
    rewrite (existsb_firstn _ _ _ Htracked). reflexivity.
  - destruct (count_up_untracked (firstn e (Spec.first_encounters ms)) ms m Htracked)
      as [Hnone Hsame].
    rewrite Hnone, length_map, length_firstn, first_encounters_snoc.
    destruct (Nat.ltb_spec (Init.Nat.min e (length (Spec.first_encounters ms))) e) as [Hroom | Hfull].
    + assert (Hall : firstn e (Spec.first_encounters ms) = Spec.first_encounters ms)
        by (apply firstn_all2; lia).
      rewrite Hall in *. rewrite <- first_encounters_seen, Htracked.
      rewrite firstn_all2 by (rewrite length_app; simpl; lia).
      rewrite !map_app. cbn [map].
      destruct (count_up_untracked (Spec.first_encounters ms) ms m Htracked) as [_ ->].
      rewrite occurrences_snoc, xyz_eqb_refl, occurrences_unseen
        by (rewrite <- first_encounters_seen; exact Htracked).
      reflexivity.
    + assert (Hcut : forall l, firstn e (Spec.first_encounters ms ++ l)
                               = firstn e (Spec.first_encounters ms)).
      { intros l. rewrite firstn_app.
        replace (e - length (Spec.first_encounters ms))%nat with 0%nat by lia.
        cbn [firstn]. apply app_nil_r. }
      destruct (existsb _ ms); [| rewrite Hcut]; exact Hsame.
Qed.

Lemma tallies_length (e : nat) (ms : list vec4) : (length (Spec.tallies e ms) <= e)%nat.
Proof. unfold Spec.tallies. rewrite length_map, length_firstn. lia. Qed.

Lemma tallies_positive (e : nat) (ms : list vec4) (c : vec4) (n : nat) :
  In (c, n) (Spec.tallies e ms) -> (0 < n)%nat.
Proof.
  unfold Spec.tallies. intros Hin. apply in_map_iff in Hin as [c' [Heq Hin]].
  injection Heq as -> <-.
  apply occurrences_positive, first_encounters_in. eapply in_firstn, Hin.
Qed.

Lemma count_up_length (m : vec4) (tl tl' : list (vec4 * nat)) :
  Spec.count_up m tl = Some tl' -> length tl' = length tl.
Proof.
  revert tl'. induction tl as [| [c n] tl IH]; intros tl'; [discriminate |].
  cbn [Spec.count_up]. destruct (xyz_eqb m c).
  - intros [= <-]. reflexivity.
  - destruct (Spec.count_up m tl) as [tl'' |]; [| discriminate].
    intros [= <-]. cbn [length]. f_equal. apply IH. reflexivity.
Qed.

(** The shader's search for a bucket of the sample's colour succeeds on
    the occupied buckets exactly when the colour is tallied. *)
Lemma increment_tallied (m : vec4) (occupied rest : buckets) (tl tl' : list (vec4 * nat)) :
  Forall2 Spec.bucket_holds occupied tl ->
  Spec.count_up m tl = Some tl' ->
  exists occupied',
    increment m (occupied ++ rest) = Some (occupied' ++ rest) /\
    Forall2 Spec.bucket_holds occupied' tl'.
Proof.
  intros Hholds. revert tl'.
  induction Hholds as [| [c b] [c' n] occupied tl [Hc Hb] Hholds IH]; intros tl';
    [discriminate |].
  cbn [fst snd] in Hc, Hb. cbn [Spec.count_up app increment].
  rewrite (xyz_eqb_sym m c), (xyz_eqb_compat c c' m Hc), (xyz_eqb_sym c' m).
  destruct (xyz_eqb m c').
  - intros [= <-]. exists ((c, b + 1) :: occupied). split; [reflexivity |].
    constructor; [| exact Hholds]. split; [exact Hc |]. cbn [fst snd].
    rewrite Hb. unfold floatn. rewrite Nat2Z.inj_succ. unfold Z.succ.
    rewrite inject_Z_plus. reflexivity.
  - destruct (Spec.count_up m tl) as [tl'' |]; [| discriminate].
    intros [= <-]. destruct (IH tl'' eq_refl) as [occupied' [Hinc Hholds']].
    exists ((c, b) :: occupied'). rewrite Hinc. split; [reflexivity |].
    constructor; [split; assumption | exact Hholds'].
Qed.

Lemma increment_not_tallied (m : vec4) (occupied rest : buckets) (tl : list (vec4 * nat)) :
  Forall2 Spec.bucket_holds occupied tl ->
  Spec.count_up m tl = None ->
  increment m (occupied ++ rest) = app occupied <$> increment m rest.
Proof.
  intros Hholds.
  induction Hholds as [| [c b] [c' n] occupied tl [Hc Hb] Hholds IH].
  - intros _. cbn [app]. destruct (increment m rest); reflexivity.
  - cbn [fst snd] in Hc, Hb. cbn [Spec.count_up app increment].
    rewrite (xyz_eqb_sym m c), (xyz_eqb_compat c c' m Hc), (xyz_eqb_sym c' m).
    destruct (xyz_eqb m c'); [discriminate |].
    destruct (Spec.count_up m tl) as [tl'' |]; [discriminate |].
    intros _. rewrite (IH eq_refl).
    destruct (increment m rest); reflexivity.
Qed.

Lemma increment_initial (m : vec4) (r : nat) :
  increment m (repeat (vec4_splat 0, 0) r)
  = if xyz_eqb m (vec4_splat 0)
    then match r with
         | O => None
         | S r' => Some ((vec4_splat 0, 0 + 1) :: repeat (vec4_splat 0, 0) r')
         end
    else None.
Proof.
  induction r as [| r IH]; [destruct (xyz_eqb m (vec4_splat 0)); reflexivity |].
  cbn [repeat increment]. destruct (xyz_eqb m (vec4_splat 0)); [reflexivity |].
  rewrite IH. reflexivity.
Qed.

(** The shader's search for a free bucket passes over the occupied ones. *)
Lemma occupy_occupied (m : vec4) (occupied rest : buckets) (tl : list (vec4 * nat)) :
  Forall2 Spec.bucket_holds occupied tl ->
  (forall c n, In (c, n) tl -> (0 < n)%nat) ->
  occupy m (occupied ++ rest) = occupied ++ occupy m rest.
Proof.
  intros Hholds.
  induction Hholds as [| [c b] [c' n] occupied tl [Hc Hb] Hholds IH]; intros Hpos;
    [reflexivity |].
  cbn [fst snd] in Hc, Hb. cbn [app occupy].
  assert (Hn : (0 < n)%nat) by (apply (Hpos c'); left; reflexivity).
  assert (Hb0 : Qeq_bool b 0 = false).
  { apply not_true_iff_false. intros H. apply Qeq_bool_iff in H.
    rewrite Hb in H. apply (floatn_lt 0 n) in Hn. change (floatn 0) with 0 in Hn.
    rewrite H in Hn. revert Hn. apply Qlt_irrefl. }
  rewrite Hb0, IH; [reflexivity |].
  intros c0 n0 Hin. apply (Hpos c0). right. exact Hin.
Qed.

(** One sample takes the buckets from holding the tallies to holding the
    tallies after that sample. *)
Lemma tally_holds (e : nat) (cb : buckets) (tl : list (vec4 * nat)) (m : vec4) :
  Spec.buckets_hold e cb tl ->
  (forall c n, In (c, n) tl -> (0 < n)%nat) ->
  Spec.buckets_hold e (tally cb m) (Spec.tallies_step e tl m).
Proof.
  intros [occupied [-> Hholds]] Hpos. unfold tally, Spec.tallies_step, Spec.buckets_hold.
  destruct (Spec.count_up m tl) as [tl' |] eqn:Hup.
  - destruct (increment_tallied m occupied (repeat (vec4_splat 0, 0) (e - length tl))
                tl tl' Hholds Hup) as [occupied' [-> Hholds']].
    exists occupied'. rewrite (count_up_length m tl tl' Hup). split; [reflexivity | exact Hholds'].
  - rewrite (increment_not_tallied m occupied _ tl Hholds Hup), increment_initial.
    rewrite (occupy_occupied m occupied _ tl Hholds Hpos).
    destruct (Nat.ltb_spec (length tl) e) as [Hroom | Hfull].
    + destruct (e - length tl)%nat as [| r] eqn:Hr; [lia |].
      assert (Hrest : (e - length (tl ++ [(m, 1%nat)]) = r)%nat)
        by (rewrite length_app; simpl; lia).
      rewrite Hrest. cbn [repeat occupy].
      assert (H00 : Qeq_bool 0 0 = true) by reflexivity. rewrite H00.
      destruct (xyz_eqb m (vec4_splat 0)) eqn:Hblack; cbn [fmap option_fmap option_map].
      * exists (occupied ++ [(vec4_splat 0, 0 + 1)]). rewrite <- app_assoc.
        split; [reflexivity |].
        apply Forall2_app; [exact Hholds |]. constructor; [| constructor].
        split; [rewrite xyz_eqb_sym; exact Hblack | reflexivity].
      * exists (occupied ++ [(m, 1)]). rewrite <- app_assoc.
        split; [reflexivity |].
        apply Forall2_app; [exact Hholds |]. constructor; [| constructor].
        split; [apply xyz_eqb_refl | reflexivity].
    + replace (e - length tl)%nat with 0%nat by lia. cbn [repeat occupy].
      exists occupied. split; [| exact Hholds].
      destruct (xyz_eqb m (vec4_splat 0)); reflexivity.
Qed.

Lemma sampled_holds (e : nat) (ms : list vec4) :
  Spec.buckets_hold e (fold_left tally ms (initial e)) (Spec.tallies e ms).
Proof.
  induction ms as [| m ms IH] using rev_ind.
  - assert (Hnil : Spec.tallies e [] = []) by (unfold Spec.tallies; destruct e; reflexivity).
    rewrite Hnil. exists []. split; [| constructor].
    unfold initial. cbn [fold_left length app]. rewrite Nat.sub_0_r. reflexivity.
  - rewrite fold_left_app, tallies_snoc. cbn [fold_left].
    apply tally_holds; [exact IH | apply tallies_positive].
Qed.

(** The scan of the buckets either finds no count above [z0], or ends on
    the first bucket of greatest count. *)
Lemma pick_first_maximum (cb : list (vec4 * Q)) (z0 : Q) (m0 : vec4) :
  (fold_left pick cb (z0, m0) = (z0, m0) /\
   forall i c b, cb !! i = Some (c, b) -> b <= z0) \/
  (exists j c b,
     cb !! j = Some (c, b) /\
     fold_left pick cb (z0, m0) = (b, c) /\
     z0 < b /\
     (forall i c' b', (i < j)%nat -> cb !! i = Some (c', b') -> b' < b) /\
     (forall i c' b', cb !! i = Some (c', b') -> b' <= b)).
Proof.
  revert z0 m0. induction cb as [| [k u] cb IH]; intros z0 m0.
  - left. split; [reflexivity | intros i c b H; discriminate H].
  - cbn [fold_left pick].
    destruct (ltb z0 u) eqn:Hlt.
    + apply ltb_lt in Hlt. right.
      destruct (IH u k) as [[Heq Hall] | [j [c [b [Hj [Heq [Hub [Hbefore Hall]]]]]]]].
      * exists 0%nat, k, u. split_and!; try assumption; try reflexivity.
        -- intros i c' b' Hi. exfalso. lia.
        -- intros [| i] c' b' Hi; [injection Hi as <- <-; apply Qle_refl | eapply Hall, Hi].
      * exists (S j), c, b. split_and!; try assumption.
        -- lra.
        -- intros [| i] c' b' Hij Hi; [injection Hi as <- <-; exact Hub |].
           apply (Hbefore i c'); [lia | exact Hi].
        -- intros [| i] c' b' Hi; [injection Hi as <- <-; lra | eapply Hall, Hi].
    + apply ltb_ge in Hlt.
      destruct (IH z0 m0) as [[Heq Hall] | [j [c [b [Hj [Heq [Hub [Hbefore Hall]]]]]]]].
      * left. split; [exact Heq |].
        intros [| i] c' b' Hi; [injection Hi as <- <-; exact Hlt | eapply Hall, Hi].
      * right. exists (S j), c, b. split_and!; try assumption.
        -- intros [| i] c' b' Hij Hi; [injection Hi as <- <-; lra |].
           apply (Hbefore i c'); [lia | exact Hi].
        -- intros [| i] c' b' Hi; [injection Hi as <- <-; lra | eapply Hall, Hi].
Qed.

Lemma lookup_repeat {A : Type} (x y : A) (n i : nat) :
  repeat x n !! i = Some y -> y = x.
Proof.
  revert i. induction n as [| n IH]; intros [| i] H; try discriminate H.
  - injection H as <-. reflexivity.
  - eapply IH, H.
Qed.

End TallyFacts.

Section ColorSampleTheorem.
Import Glsl ColorSample.

Variables e u f : nat.
Variable U : uniforms.
Variable gl_FragCoord : vec2.

Lemma main_same_inputs (U' : uniforms) :
  Spec.same_inputs U U' -> main e u f U' gl_FragCoord = main e u f U gl_FragCoord.
Proof.
  destruct U as [img bw size cols rows rank], U' as [img' bw' size' cols' rows' rank'].
  intros [Himg [Hbw [Hsize [Hcols [Hrows Hrank]]]]]. cbn in Himg, Hbw, Hsize, Hcols, Hrows, Hrank.
  subst size' cols' rows' rank'.
  assert (Hsampled :
    sampled e u f (Uniforms img' bw' size cols rows rank) gl_FragCoord
    = sampled e u f (Uniforms img bw size cols rows rank) gl_FragCoord).
  { unfold sampled. apply for_loop_ext. intros a cb. f_equal.
    apply for_loop_ext. intros b cb'. cbv zeta.
    change (s u f (Uniforms img' bw' size cols rows rank) gl_FragCoord a b)
      with (s u f (Uniforms img bw size cols rows rank) gl_FragCoord a b).
    unfold selected, texture2D. cbn [u_inputImage u_inputImageBW u_colorRank].
    rewrite Himg, Hbw. reflexivity. }
  unfold main, most_frequent. rewrite Hsampled.
  unfold v, texture2D. cbn [u_inputImage u_colorRank].
  change (i (Uniforms img' bw' size cols rows rank) gl_FragCoord)
    with (i (Uniforms img bw size cols rows rank) gl_FragCoord).
  change (t (Uniforms img' bw' size cols rows rank))
    with (t (Uniforms img bw size cols rows rank)).
  cbn [u_inputImageSize]. rewrite Himg. reflexivity.
Qed.

(** C5: when the sampler has a bucket and some sub-sample matches the
    rank, the colour returned has the channels of a tallied colour whose
    tally is at least every tally and strictly above the tally of every
    colour encountered before it: among the colours of greatest tally the
    first encountered wins.  The tallies are those of the first [e]
    distinct colours in encounter order.  The output depends on nothing
    but the inputs: runs on inputs that agree give the same output. *)
Theorem colorSample_first_encountered_wins :
  (0 < e)%nat ->
  Spec.matching_colors u f U gl_FragCoord <> [] ->
  (exists (j : nat) (c : vec4) (n : nat),
     Spec.tallies e (Spec.matching_colors u f U gl_FragCoord) !! j = Some (c, n) /\
     Spec.same_xyz (main e u f U gl_FragCoord) c /\
     vw (main e u f U gl_FragCoord) = 1 /\
     (forall i c' n',
        Spec.tallies e (Spec.matching_colors u f U gl_FragCoord) !! i = Some (c', n') ->
        (n' <= n)%nat) /\
     (forall i c' n',
        (i < j)%nat ->
        Spec.tallies e (Spec.matching_colors u f U gl_FragCoord) !! i = Some (c', n') ->
        (n' < n)%nat)) /\
  (forall U', Spec.same_inputs U U' ->
     main e u f U' gl_FragCoord = main e u f U gl_FragCoord).
Proof.
  intros He Hsome. split; [| apply main_same_inputs].
  destruct (sampled_holds e (Spec.matching_colors u f U gl_FragCoord))
    as [occupied [Hcb Hholds]].
  rewrite <- sampled_matching in Hcb.
  set (ms := Spec.matching_colors u f U gl_FragCoord) in *.
  set (tl := Spec.tallies e ms) in *.
  (* every bucket is an occupied one that holds a tally, or is empty *)
  assert (Hbucket : forall i c b,
            (sampled e u f U gl_FragCoord : list (vec4 * Q)) !! i = Some (c, b) ->
            (exists c' n', tl !! i = Some (c', n') /\ xyz_eqb c c' = true /\ b == floatn n') \/
            (tl !! i = None /\ b = 0)).
  { intros i c b Hi. rewrite Hcb in Hi.
    destruct (Nat.lt_ge_cases i (length occupied)) as [Hin | Hout].
    - rewrite lookup_app_l in Hi by exact Hin.
      destruct (Forall2_lookup_l _ _ _ _ _ Hholds Hi) as [[c' n'] [Htl [Hc Hb]]].
      left. exists c', n'. auto.
    - rewrite lookup_app_r in Hi by exact Hout.
      apply lookup_repeat in Hi. injection Hi as -> ->.
      right. split; [| reflexivity].
      apply lookup_ge_None. rewrite <- (Forall2_length _ _ _ Hholds). exact Hout. }
  assert (Htally : forall i c' n', tl !! i = Some (c', n') ->
            exists c b, (sampled e u f U gl_FragCoord : list (vec4 * Q)) !! i = Some (c, b) /\
                        xyz_eqb c c' = true /\ b == floatn n').
  { intros i c' n' Hi.
    destruct (Forall2_lookup_r _ _ _ _ _ Hholds Hi) as [[c b] [Hocc [Hc Hb]]].
    exists c, b. split; [| auto].
    rewrite Hcb. apply lookup_app_l_Some. exact Hocc. }
  assert (Hfirst : exists c0 n0, tl !! 0%nat = Some (c0, n0) /\ (0 < n0)%nat).
  { unfold tl, Spec.tallies. destruct ms as [| m0 ms']; [congruence |].
    destruct e as [| e']; [lia |]. cbn [Spec.first_encounters firstn map].
    exists m0, (Spec.occurrences m0 (m0 :: ms')). split; [reflexivity |].
    apply occurrences_positive. left. reflexivity. }
  destruct (pick_first_maximum (sampled e u f U gl_FragCoord) 0 (vec4_splat 0))
    as [[_ Hall] | [j [c [b [Hj [Heq [Hpos [Hbefore Hmax]]]]]]]].
  - exfalso. destruct Hfirst as [c0 [n0 [H0 Hn0]]].
    destruct (Htally _ _ _ H0) as [c [b [Hi [_ Hb]]]].
    pose proof (Hall _ _ _ Hi) as Hle. rewrite Hb in Hle.
    apply (floatn_lt 0 n0) in Hn0. change (floatn 0) with 0 in Hn0. lra.
  - destruct (Hbucket _ _ _ Hj) as [[c' [n' [Htl [Hc Hb]]]] | [_ ->]];
      [| exfalso; revert Hpos; apply Qlt_irrefl].
    exists j, c', n'.
    assert (Hmain : main e u f U gl_FragCoord = vec4_of (xyz c) 1).
    { unfold main, most_frequent. rewrite Heq.
      assert (Hnz : Qeq_bool b 0 = false).
      { apply not_true_iff_false. intros H. apply Qeq_bool_iff in H. lra. }
      rewrite Hnz, andb_false_r. reflexivity. }
    split_and!.
    + exact Htl.
    + rewrite Hmain. apply xyz_eqb_same in Hc. exact Hc.
    + rewrite Hmain. reflexivity.
    + intros i c'' n'' Hi.
      destruct (Htally _ _ _ Hi) as [ci [bi [Hci [_ Hbi]]]].
      pose proof (Hmax _ _ _ Hci) as Hle. rewrite Hbi, Hb in Hle.
      apply floatn_le. exact Hle.
    + intros i c'' n'' Hij Hi.
      destruct (Htally _ _ _ Hi) as [ci [bi [Hci [_ Hbi]]]].
      pose proof (Hbefore _ _ _ Hij Hci) as Hlt. rewrite Hbi, Hb in Hlt.
      apply floatn_lt. exact Hlt.
Qed.

End ColorSampleTheorem.

Section ColorSampleExamples.
Import Glsl ColorSample.

(** Red and blue are tallied twice each; red, met first, is returned. *)
Example colorSample_tie_red_first :
  Spec.tallies 16 (Spec.matching_colors 2 2 (Examples.sampler_uniforms 1) Examples.pixel_centre)
  = [(Vec4 1 0 0 1, 2%nat); (Vec4 0 0 1 1, 2%nat)] /\
  main 16 2 2 (Examples.sampler_uniforms 1) Examples.pixel_centre = Vec4 1 0 0 1.
Proof. split; vm_compute; reflexivity. Qed.

Lemma colorSample_first_encountered_wins_witness :
  (0 < 16)%nat /\
  Spec.matching_colors 2 2 (Examples.sampler_uniforms 1) Examples.pixel_centre <> [] /\
  exists (j : nat) (c : vec4) (n : nat),
    Spec.tallies 16 (Spec.matching_colors 2 2 (Examples.sampler_uniforms 1)
                       Examples.pixel_centre) !! j = Some (c, n) /\
    Spec.same_xyz (main 16 2 2 (Examples.sampler_uniforms 1) Examples.pixel_centre) c.
Proof.
  assert (He : (0 < 16)%nat) by lia.
  assert (Hsome : Spec.matching_colors 2 2 (Examples.sampler_uniforms 1)
                    Examples.pixel_centre <> []) by (vm_compute; discriminate).
  split; [exact He |]. split; [exact Hsome |].
  destruct (proj1 (colorSample_first_encountered_wins 16 2 2
                     (Examples.sampler_uniforms 1) Examples.pixel_centre He Hsome))
    as [j [c [n [Htl [Hxyz _]]]]].
  exists j, c, n. split; assumption.
Defined.

Lemma colorSample_no_match_fallback_witness :
  (forall v k, (v < 2)%nat -> (k < 2)%nat ->
     selected (Examples.sampler_uniforms 2)
       (s 2 2 (Examples.sampler_uniforms 2) Examples.pixel_centre v k) = false) /\
  main 16 2 2 (Examples.sampler_uniforms 2) Examples.pixel_centre = Vec4 0 0 1 1 /\
  exists k,
    Props.same_point k (Props.cell_centre 1 1 0 0) /\
    main 16 2 2 (Examples.sampler_uniforms 2) Examples.pixel_centre
    = vec4_of (xyz (Examples.red_blue k)) 1.
Proof.
  assert (Hnone : forall v k, (v < 2)%nat -> (k < 2)%nat ->
     selected (Examples.sampler_uniforms 2)
       (s 2 2 (Examples.sampler_uniforms 2) Examples.pixel_centre v k) = false).
  { intros v k _ _. reflexivity. }
  split; [exact Hnone |].
  destruct (colorSample_no_match_fallback 16 2 2 (Examples.sampler_uniforms 2)
              Examples.pixel_centre Hnone) as [Hsecond [_ Hcentre]].
  split.
  - rewrite (Hsecond eq_refl). vm_compute. reflexivity.
  - apply (Hcentre ltac:(reflexivity) ltac:(reflexivity)
                   ltac:(vm_compute; split; [discriminate | reflexivity])
                   ltac:(vm_compute; split; [discriminate | reflexivity])).
    reflexivity.
Defined.

End ColorSampleExamples.

(** ** The character matcher *)

Section ScanFacts.
Import Glsl.

(** The scan of the palette, for any error [err u] and atlas index
    [idx u] of the entries and any palette size [t]. *)
Variable err idx : nat -> Q.
Variable t : Q.

(** The scan of [count] entries from [from] either keeps the state, and
    then no scanned entry has an error below [i], or ends on the first
    entry of least error. *)
Lemma scan_first_minimum (count from : nat) (i g : Q) :
  (for_loop from count (Spec.scan_step err idx t) (i, g) = (i, g) /\
   forall u, (from <= u < from + count)%nat -> floatn u < t -> i <= err u) \/
  (exists best,
     (from <= best < from + count)%nat /\ floatn best < t /\
     for_loop from count (Spec.scan_step err idx t) (i, g) = (err best, idx best) /\
     err best < i /\
     (forall u, (from <= u < best)%nat -> err best < err u) /\
     (forall u, (best < u < from + count)%nat -> floatn u < t -> err best <= err u)).
Proof.
  revert from i g. induction count as [| k IH]; intros from i g.
  - left. split; [reflexivity | intros u Hu; exfalso; lia].
  - cbn [for_loop].
    assert (Hbody : Spec.scan_step err idx t from (i, g)
                    = if Qle_bool t (floatn from) then None
                      else Some (if ltb (err from) i then (err from, idx from) else (i, g)))
      by reflexivity.
    rewrite Hbody. clear Hbody.
    destruct (Qle_bool t (floatn from)) eqn:Hstop.
    + left. split; [reflexivity |].
      intros u Hu Hlt. apply Qle_bool_iff in Hstop.
      assert (floatn from <= floatn u) by (apply floatn_le; lia). lra.
    + assert (Hfrom : floatn from < t).
      { apply Qnot_le_lt. intros Hle. apply Qle_bool_iff in Hle. congruence. }
      destruct (ltb (err from) i) eqn:Hlt.
      * apply ltb_lt in Hlt. right.
        destruct (IH (S from) (err from) (idx from))
          as [[Heq Hall] | [best [Hb [Hbt [Heq [Hbi [Hbefore Hafter]]]]]]].
        -- exists from. split_and!; try lia; try assumption.
           intros u Hu Hut. apply Hall; [lia | exact Hut].
        -- exists best. split_and!; try lia; try assumption.
           ++ lra.
           ++ intros u Hu. destruct (Nat.eq_dec u from) as [-> | Hne];
                [exact Hbi | apply Hbefore; lia].
           ++ intros u Hu Hut. apply Hafter; [lia | exact Hut].
      * apply ltb_ge in Hlt.
        destruct (IH (S from) i g)
          as [[Heq Hall] | [best [Hb [Hbt [Heq [Hbi [Hbefore Hafter]]]]]]].
        -- left. split; [exact Heq |].
           intros u Hu Hut. destruct (Nat.eq_dec u from) as [-> | Hne];
             [exact Hlt | apply Hall; [lia | exact Hut]].
        -- right. exists best. split_and!; try lia; try assumption.
           ++ intros u Hu. destruct (Nat.eq_dec u from) as [-> | Hne];
                [lra | apply Hbefore; lia].
           ++ intros u Hu Hut. apply Hafter; [lia | exact Hut].
Qed.

End ScanFacts.

Section CharacterSelectionFacts.
Import Glsl CharacterSelection.

Variable T : nat.
Variable U : uniforms.
Variable gl_FragCoord : vec2.

Lemma transparent_forallb :
  transparent T U gl_FragCoord
  = forallb (fun u => forallb (fun f => negb (ltb 0 (vw (mask T U gl_FragCoord u f))))
                        (seq 0 T)) (seq 0 T).
Proof.
  unfold transparent.
  rewrite (for_loop_flag_rows _
             (fun u => forallb (fun f => negb (ltb 0 (vw (mask T U gl_FragCoord u f))))
                         (seq 0 T))).
  - reflexivity.
  - intros u s.
    apply (for_loop_flag (fun f => ltb 0 (vw (mask T U gl_FragCoord u f)))).
Qed.

Lemma transparent_true_iff :
  transparent T U gl_FragCoord = true <->
  forall u f, (u < T)%nat -> (f < T)%nat -> ~ 0 < vw (mask T U gl_FragCoord u f).
Proof.
  rewrite transparent_forallb, forallb_forall. split.
  - intros H u f Hu Hf Hpos.
    assert (Hrow := H u ltac:(apply in_seq; lia)).
    rewrite forallb_forall in Hrow.
    assert (Hcell := Hrow f ltac:(apply in_seq; lia)).
    apply negb_true_iff in Hcell. apply ltb_lt in Hpos. congruence.
  - intros H u Hu. apply in_seq in Hu. apply forallb_forall. intros f Hf.
    apply in_seq in Hf. apply negb_true_iff.
    destruct (ltb 0 (vw (mask T U gl_FragCoord u f))) eqn:Hpos; [| reflexivity].
    apply ltb_lt in Hpos. exfalso. apply (H u f); [lia | lia | exact Hpos].
Qed.

Lemma transparent_false_font_size : transparent T U gl_FragCoord = false -> (0 < T)%nat.
Proof.
  intros H. destruct T; [discriminate H | lia].
Qed.

Lemma main_opaque :
  transparent T U gl_FragCoord = false ->
  main T U gl_FragCoord = Spec.encode_index (snd (scan T U gl_FragCoord)).
Proof.
  intros H. unfold main. rewrite H.
  destruct (scan T U gl_FragCoord) as [i g]. reflexivity.
Qed.

Lemma ssd_sum (g : Q) :
  ssd T U gl_FragCoord g
  == Spec.sum (map (fun uf =>
                      (vx (mask T U gl_FragCoord (fst uf) (snd uf))
                       - vx (glyph T U g (fst uf) (snd uf)))
                      * (vx (mask T U gl_FragCoord (fst uf) (snd uf))
                         - vx (glyph T U g (fst uf) (snd uf))))
                 (Spec.traversal T T)).
Proof.
  unfold ssd, Spec.traversal.
  rewrite (for_loop_sum_rows _
             (fun u => Spec.sum (map (fun f =>
                         (vx (mask T U gl_FragCoord u f) - vx (glyph T U g u f))
                         * (vx (mask T U gl_FragCoord u f) - vx (glyph T U g u f)))
                       (seq 0 T)))).
  - rewrite (sum_traversal
               (fun u f => (vx (mask T U gl_FragCoord u f) - vx (glyph T U g u f))
                           * (vx (mask T U gl_FragCoord u f) - vx (glyph T U g u f)))).
    lra.
  - intros u acc.
    apply (for_loop_sum
             (fun f => (vx (mask T U gl_FragCoord u f) - vx (glyph T U g u f))
                       * (vx (mask T U gl_FragCoord u f) - vx (glyph T U g u f)))).
Qed.

Lemma ssd_bounded (g : Q) :
  Spec.normalised (u_sketchTexture U) -> Spec.normalised (u_characterTexture U) ->
  0 <= ssd T U gl_FragCoord g /\ ssd T U gl_FragCoord g <= f T.
Proof.
  intros Hsketch Hatlas. rewrite ssd_sum.
  match goal with |- 0 <= Spec.sum ?l /\ _ => destruct (sum_bounded l) as [H0 H1] end.
  - intros x Hx. apply in_map_iff in Hx as [[u' f'] [<- _]]. cbn [fst snd].
    unfold mask, glyph, texture2D.
    match goal with |- context [vx (u_sketchTexture U ?c)] =>
      destruct (Hsketch c) as [Ha0 Ha1]; generalize dependent (vx (u_sketchTexture U c)) end.
    intros a Ha0 Ha1.
    match goal with |- context [vx (u_characterTexture U ?c)] =>
      destruct (Hatlas c) as [Hb0 Hb1]; generalize dependent (vx (u_characterTexture U c)) end.
    intros b Hb0 Hb1.
    assert (Hd : -1 <= a - b /\ a - b <= 1) by lra.
    generalize dependent (a - b). intros d [Hd0 Hd1].
    assert (Hsq : 0 <= (1 - d) * (1 + d)) by (apply Qmult_le_0_compat; lra).
    assert (Hexp : (1 - d) * (1 + d) == 1 - d * d) by ring.
    rewrite Hexp in Hsq.
    assert (Hnn : 0 <= d * d).
    { destruct (Qlt_le_dec d 0) as [Hneg | Hpos].
      - assert (Hopp : d * d == (- d) * (- d)) by ring.
        rewrite Hopp. apply Qmult_le_0_compat; lra.
      - apply Qmult_le_0_compat; lra. }
    lra.
  - split; [exact H0 |].
    rewrite length_map, traversal_length in H1.
    unfold f, u. rewrite <- floatn_mult. exact H1.
Qed.

Lemma f_positive : (0 < T)%nat -> 0 < f T.
Proof.
  intros HT. unfold f, u.
  assert (0 < floatn T) by (apply (floatn_lt 0 T); exact HT). nra.
Qed.

(** Dividing by [f] keeps the order of the errors. *)
Lemma error_order (a b : Q) :
  (0 < T)%nat -> (a / f T < b / f T <-> a < b) /\ (a / f T <= b / f T <-> a <= b).
Proof.
  intros HT. pose proof (f_positive HT) as Hf.
  assert (Hinv : 0 < / f T) by (apply Qinv_lt_0_compat; exact Hf).
  unfold Qdiv. split.
  - apply Qmult_lt_r. exact Hinv.
  - apply Qmult_le_r. exact Hinv.
Qed.

(** In exact arithmetic, with normalised mask and atlas textures and a
    palette that is not empty, the least error the scan finds is the least
    sum of squared differences: the matcher outputs the colour that
    encodes the glyph of a scanned palette entry whose sum of squared
    differences is at most that of every scanned entry and strictly below
    that of every earlier entry. *)
Lemma characterSelection_exact_minimal_ssd :
  transparent T U gl_FragCoord = false ->
  Spec.normalised (u_sketchTexture U) ->
  Spec.normalised (u_characterTexture U) ->
  0 < ux (u_charPaletteSize U) ->
  exists best : nat,
    Spec.scanned_entry U best /\
    main T U gl_FragCoord = Spec.encode_index (m U best) /\
    (forall u, Spec.scanned_entry U u ->
       ssd T U gl_FragCoord (m U best) <= ssd T U gl_FragCoord (m U u)) /\
    (forall u, Spec.scanned_entry U u -> (u < best)%nat ->
       ssd T U gl_FragCoord (m U best) < ssd T U gl_FragCoord (m U u)).
Proof.
  intros Hopaque Hsketch Hatlas Hsize.
  pose proof (transparent_false_font_size Hopaque) as HT.
  pose proof (scan_first_minimum
                (fun u => ssd T U gl_FragCoord (m U u) / f T) (m U)
                (ux (u_charPaletteSize U)) 1024 0 1e20 0) as Hscan.
  change (for_loop 0 1024 _ (1e20, 0)) with (scan T U gl_FragCoord) in Hscan.
  destruct Hscan as [[_ Hall] | [best [Hb [Hbt [Heq [_ [Hbefore Hafter]]]]]]].
  - exfalso.
    assert (H0 : 1e20 <= ssd T U gl_FragCoord (m U 0) / f T).
    { apply Hall; [lia | exact Hsize]. }
    destruct (ssd_bounded (m U 0) Hsketch Hatlas) as [_ Hle].
    pose proof (f_positive HT) as Hf.
    assert (H1 : ssd T U gl_FragCoord (m U 0) / f T <= 1).
    { apply Qle_shift_div_r; [exact Hf | lra]. }
    assert (H2 : 1 < 1e20) by reflexivity.
    lra.
  - exists best. split; [split; [lia | exact Hbt] |].
    split; [rewrite (main_opaque Hopaque), Heq; reflexivity |].
    split.
    + intros u [Hu Hut].
      destruct (Nat.lt_trichotomy u best) as [Hlt | [-> | Hgt]].
      * apply Qlt_le_weak, (error_order _ _ HT), Hbefore. lia.
      * apply Qle_refl.
      * apply (error_order _ _ HT), Hafter; [lia | exact Hut].
    + intros u _ Hlt. apply (error_order _ _ HT), Hbefore. lia.
Qed.

(** The sub-samples of the mask are the [T] x [T] points of the
    fragment's cell: the inner counter runs along the cell's width. *)
Lemma mask_sub_sample (u f : nat) :
  0 < ux (u_gridPixelDimensions U) -> 0 < uy (u_gridPixelDimensions U) ->
  0 < ux (u_gridCellDimensions U) -> 0 < uy (u_gridCellDimensions U) ->
  (u < T)%nat -> (f < T)%nat ->
  exists c,
    mask T U gl_FragCoord u f = texture2D (u_sketchTexture U) c /\
    Props.same_point c
      (Props.sub_sample_point (ux (u_gridCellDimensions U)) (uy (u_gridCellDimensions U))
         (Qfloor (ux gl_FragCoord)) (Qfloor (uy gl_FragCoord)) T T f u) /\
    Props.inside_cell (ux (u_gridCellDimensions U)) (uy (u_gridCellDimensions U))
      (Qfloor (ux gl_FragCoord)) (Qfloor (uy gl_FragCoord)) c.
Proof.
  intros HPW HPH HGW HGH Hu Hf.
  eexists. split; [reflexivity |].
  assert (HT : 0 < floatn T) by (apply (floatn_lt 0 T); lia).
  destruct (sub_sample_offset f T Hf) as [Hf0 Hf1].
  destruct (sub_sample_offset u T Hu) as [Hu0 Hu1].
  destruct (cell_fraction (inject_Z (Qfloor (ux gl_FragCoord)))
              ((floatn f + 0.5) / floatn T) (ux (u_gridCellDimensions U)) HGW Hf0 Hf1)
    as [Hxlo Hxhi].
  destruct (cell_fraction (inject_Z (Qfloor (uy gl_FragCoord)))
              ((floatn u + 0.5) / floatn T) (uy (u_gridCellDimensions U)) HGH Hu0 Hu1)
    as [Hylo Hyhi].
  unfold Props.inside_cell, Props.same_point, Props.sub_sample_point.
  cbn [ux uy add2 mul2 sub2 div2 adds2 muls2 zip2 map2 e v r offset floor2 floor k].
  unfold floor. rewrite !Qfloor_inject_Z. unfold k, CharacterSelection.u.
  match goal with |- (?x == _ /\ ?y == _) /\ _ =>
    assert (Hx : x == (inject_Z (Qfloor (ux gl_FragCoord)) + (floatn f + 0.5) / floatn T)
                      / ux (u_gridCellDimensions U)) by (field; repeat split; lra);
    assert (Hy : y == (inject_Z (Qfloor (uy gl_FragCoord)) + (floatn u + 0.5) / floatn T)
                      / uy (u_gridCellDimensions U)) by (field; repeat split; lra)
  end.
  split; [split; [exact Hx | exact Hy] |].
  rewrite Hx, Hy. split; split; assumption.
Qed.

End CharacterSelectionFacts.

(** ** The character matcher in floating point *)

Section CharacterSelectionMediumpFacts.
Import Glsl Mediump CharacterSelectionMediump.

Variable A : arithmetic.
Variable T : nat.
Variable U : CharacterSelection.uniforms.
Variable gl_FragCoord : vec2.

Lemma mediump_main_opaque :
  transparent A T U gl_FragCoord = false ->
  main A T U gl_FragCoord = encode A (snd (scan A T U gl_FragCoord)).
Proof.
  intros H. unfold main. rewrite H.
  destruct (scan A T U gl_FragCoord) as [i g]. reflexivity.
Qed.


(** The scan of the palette, on the errors the shader computes. *)
Lemma mediump_scan_first_minimum :
  (scan A T U gl_FragCoord = (flit A 1e20, 0) /\
   forall u, Spec.scanned_entry U u -> flit A 1e20 <= error A T U gl_FragCoord u) \/
  (exists best,
     Spec.scanned_entry U best /\
     scan A T U gl_FragCoord = (error A T U gl_FragCoord best, m A U best) /\
     error A T U gl_FragCoord best < flit A 1e20 /\
     (forall u, (u < best)%nat ->
        error A T U gl_FragCoord best < error A T U gl_FragCoord u) /\
     (forall u, Spec.scanned_entry U u ->
        error A T U gl_FragCoord best <= error A T U gl_FragCoord u)).
Proof.
  pose proof (scan_first_minimum (error A T U gl_FragCoord) (m A U)
                (ux (CharacterSelection.u_charPaletteSize U)) 1024 0 (flit A 1e20) 0)
    as Hscan.
  change (for_loop 0 1024 _ (flit A 1e20, 0)) with (scan A T U gl_FragCoord) in Hscan.
  destruct Hscan as [[Heq Hall] | [best [Hb [Hbt [Heq [Hlow [Hbefore Hafter]]]]]]].
  - left. split; [exact Heq |].
    intros u [Hu Hentry]. apply Hall; [lia | exact Hentry].
  - right. exists best. split_and!.
    + split; [lia | exact Hbt].
    + exact Heq.
    + exact Hlow.
    + intros u Hu. apply Hbefore. lia.
    + intros u [Hu Hentry].
      destruct (Nat.lt_trichotomy u best) as [Hlt | [-> | Hgt]].
      * apply Qlt_le_weak, Hbefore. lia.
      * apply Qle_refl.
      * apply Hafter; [lia | exact Hentry].
Qed.


Lemma mediump_transparent_true_iff :
  transparent A T U gl_FragCoord = true <->
  forall u f, (u < T)%nat -> (f < T)%nat -> ~ 0 < vw (mask A T U gl_FragCoord u f).
Proof.
  assert (Hall : transparent A T U gl_FragCoord
                 = forallb (fun u => forallb (fun f =>
                                negb (ltb 0 (vw (mask A T U gl_FragCoord u f))))
                              (seq 0 T)) (seq 0 T)).
  { unfold transparent.
    rewrite (for_loop_flag_rows _
               (fun u => forallb (fun f => negb (ltb 0 (vw (mask A T U gl_FragCoord u f))))
                           (seq 0 T))).
    - reflexivity.
    - intros u s.
      apply (for_loop_flag (fun f => ltb 0 (vw (mask A T U gl_FragCoord u f)))). }
  rewrite Hall, forallb_forall. split.
  - intros H u f Hu Hf Hpos.
    assert (Hrow := H u ltac:(apply in_seq; lia)).
    rewrite forallb_forall in Hrow.
    assert (Hcell := Hrow f ltac:(apply in_seq; lia)).
    apply negb_true_iff in Hcell. apply ltb_lt in Hpos. congruence.
  - intros H u Hu. apply in_seq in Hu. apply forallb_forall. intros f Hf.
    apply in_seq in Hf. apply negb_true_iff.
    destruct (ltb 0 (vw (mask A T U gl_FragCoord u f))) eqn:Hpos; [| reflexivity].
    apply ltb_lt in Hpos. exfalso. apply (H u f); [lia | lia | exact Hpos].
Qed.

(** The outcome of the scan is the index 0 it starts from or the index of
    a scanned palette entry. *)
Lemma mediump_scan_from_palette :
  snd (scan A T U gl_FragCoord) = 0 \/
  exists best, Spec.scanned_entry U best /\ snd (scan A T U gl_FragCoord) = m A U best.
Proof.
  destruct mediump_scan_first_minimum
    as [[-> _] | [best [Hentry [-> _]]]].
  - left. reflexivity.
  - right. exists best. split; [exact Hentry | reflexivity].
Qed.

End CharacterSelectionMediumpFacts.

(** ** The sentinel of the character matcher *)

Section CharacterSelectionSentinel.
Import Glsl Mediump.

Variable T : nat.
Variable U : CharacterSelection.uniforms.
Variable gl_FragCoord : vec2.

(** C4: a cell whose sub-samples all have zero alpha gets the sentinel
    (all-zero colour, zero alpha), whatever the palette and the atlas: the
    scan of the palette has no part in the output; a cell with a
    sub-sample of positive alpha gets, with alpha 1, the colour that
    encodes the outcome of the scan, which is the atlas index of a scanned
    palette entry or the 0 the scan starts from; this whatever the
    floating-point arithmetic.  With the exact arithmetic, the
    sub-samples are the [T] x [T] points of the fragment's cell in the
    sketch texture, each strictly inside the cell: a cell where the
    texture has zero alpha at each of these points gets the sentinel, and
    a cell where it has positive alpha at one of them gets alpha 1. *)
Theorem characterSelection_transparent_sentinel :
  (forall A : arithmetic,
     ((forall u f, (u < T)%nat -> (f < T)%nat ->
         vw (CharacterSelectionMediump.mask A T U gl_FragCoord u f) == 0) ->
      CharacterSelectionMediump.main A T U gl_FragCoord = Vec4 0 0 0 0 /\
      forall atlas cols rows palette size,
        CharacterSelectionMediump.main A T
          (CharacterSelection.Uniforms atlas cols rows
             (CharacterSelection.u_sketchTexture U)
             (CharacterSelection.u_gridPixelDimensions U)
             (CharacterSelection.u_gridCellDimensions U) palette size) gl_FragCoord
        = Vec4 0 0 0 0) /\
     ((exists u f, (u < T)%nat /\ (f < T)%nat /\
         0 < vw (CharacterSelectionMediump.mask A T U gl_FragCoord u f)) ->
      CharacterSelectionMediump.main A T U gl_FragCoord
      = CharacterSelectionMediump.encode A
          (snd (CharacterSelectionMediump.scan A T U gl_FragCoord)) /\
      vw (CharacterSelectionMediump.main A T U gl_FragCoord) = 1 /\
      (snd (CharacterSelectionMediump.scan A T U gl_FragCoord) = 0 \/
       exists best,
         Spec.scanned_entry U best /\
         snd (CharacterSelectionMediump.scan A T U gl_FragCoord)
         = CharacterSelectionMediump.m A U best))) /\
  (0 < ux (CharacterSelection.u_gridPixelDimensions U) ->
   0 < uy (CharacterSelection.u_gridPixelDimensions U) ->
   0 < ux (CharacterSelection.u_gridCellDimensions U) ->
   0 < uy (CharacterSelection.u_gridCellDimensions U) ->
   let point (u f : nat) :=
     Props.sub_sample_point
       (ux (CharacterSelection.u_gridCellDimensions U))
       (uy (CharacterSelection.u_gridCellDimensions U))
       (Qfloor (ux gl_FragCoord)) (Qfloor (uy gl_FragCoord)) T T f u in
   (forall u f, (u < T)%nat -> (f < T)%nat ->
      exists c,
        CharacterSelectionMediump.mask exact T U gl_FragCoord u f
        = texture2D (CharacterSelection.u_sketchTexture U) c /\
        Props.same_point c (point u f) /\
        Props.inside_cell
          (ux (CharacterSelection.u_gridCellDimensions U))
          (uy (CharacterSelection.u_gridCellDimensions U))
          (Qfloor (ux gl_FragCoord)) (Qfloor (uy gl_FragCoord)) c) /\
   ((forall u f c, (u < T)%nat -> (f < T)%nat -> Props.same_point c (point u f) ->
       vw (texture2D (CharacterSelection.u_sketchTexture U) c) == 0) ->
    CharacterSelectionMediump.main exact T U gl_FragCoord = Vec4 0 0 0 0) /\
   ((exists u f, (u < T)%nat /\ (f < T)%nat /\
       forall c, Props.same_point c (point u f) ->
         0 < vw (texture2D (CharacterSelection.u_sketchTexture U) c)) ->
    vw (CharacterSelectionMediump.main exact T U gl_FragCoord) = 1)).
Proof.
  split.
  - intros A. split.
    + intros Hzero.
      assert (Htransparent : CharacterSelectionMediump.transparent A T U gl_FragCoord = true).
      { apply mediump_transparent_true_iff. intros u f Hu Hf Hpos.
        rewrite (Hzero u f Hu Hf) in Hpos. revert Hpos. apply Qlt_irrefl. }
      split.
      * unfold CharacterSelectionMediump.main. rewrite Htransparent. reflexivity.
      * intros atlas cols rows palette size. unfold CharacterSelectionMediump.main.
        change (CharacterSelectionMediump.transparent A T
                  (CharacterSelection.Uniforms atlas cols rows
                     (CharacterSelection.u_sketchTexture U)
                     (CharacterSelection.u_gridPixelDimensions U)
                     (CharacterSelection.u_gridCellDimensions U) palette size)
                  gl_FragCoord)
          with (CharacterSelectionMediump.transparent A T U gl_FragCoord).
        rewrite Htransparent. reflexivity.
    + intros [u [f [Hu [Hf Hpos]]]].
      assert (Hopaque : CharacterSelectionMediump.transparent A T U gl_FragCoord = false).
      { apply not_true_iff_false. intros Htransparent.
        apply (proj1 (mediump_transparent_true_iff A T U gl_FragCoord)
                 Htransparent u f Hu Hf Hpos). }
      rewrite (mediump_main_opaque A T U gl_FragCoord Hopaque).
      split_and!; [reflexivity | reflexivity | apply mediump_scan_from_palette].
  - intros HPW HPH HGW HGH point.
    assert (Hplace : forall u f, (u < T)%nat -> (f < T)%nat ->
      exists c,
        CharacterSelectionMediump.mask exact T U gl_FragCoord u f
        = texture2D (CharacterSelection.u_sketchTexture U) c /\
        Props.same_point c (point u f) /\
        Props.inside_cell
          (ux (CharacterSelection.u_gridCellDimensions U))
          (uy (CharacterSelection.u_gridCellDimensions U))
          (Qfloor (ux gl_FragCoord)) (Qfloor (uy gl_FragCoord)) c).
    { intros u f Hu Hf.
      change (CharacterSelectionMediump.mask exact T U gl_FragCoord u f)
        with (CharacterSelection.mask T U gl_FragCoord u f).
      apply mask_sub_sample; assumption. }
    split_and!.
    + exact Hplace.
    + intros Hzero. unfold CharacterSelectionMediump.main.
      assert (Htransparent :
                CharacterSelectionMediump.transparent exact T U gl_FragCoord = true).
      { apply mediump_transparent_true_iff. intros u f Hu Hf Hpos.
        destruct (Hplace u f Hu Hf) as [c [Hmask [Hc _]]].
        rewrite Hmask, (Hzero u f c Hu Hf Hc) in Hpos. revert Hpos. apply Qlt_irrefl. }
      rewrite Htransparent. reflexivity.
    + intros [u [f [Hu [Hf Hpos]]]].
      rewrite (mediump_main_opaque exact T U gl_FragCoord); [reflexivity |].
      apply not_true_iff_false. intros Htransparent.
      apply (proj1 (mediump_transparent_true_iff exact T U gl_FragCoord)
               Htransparent u f Hu Hf).
      destruct (Hplace u f Hu Hf) as [c [-> [Hc _]]].
      apply (Hpos c Hc).
Qed.

End CharacterSelectionSentinel.

(** ** The exact arithmetic *)

Section ExactArithmetic.
Import Glsl Mediump.

(** With the exact arithmetic, the shaders in floating point are the
    shaders of the first modules. *)
Lemma characterSelection_exact (T : nat) (U : CharacterSelection.uniforms)
    (gl_FragCoord : vec2) :
  CharacterSelectionMediump.main exact T U gl_FragCoord
  = CharacterSelection.main T U gl_FragCoord /\
  CharacterSelectionMediump.transparent exact T U gl_FragCoord
  = CharacterSelection.transparent T U gl_FragCoord /\
  (forall u, CharacterSelectionMediump.error exact T U gl_FragCoord u
             = CharacterSelection.ssd T U gl_FragCoord (CharacterSelection.m U u)
               / CharacterSelection.f T) /\
  (forall u, CharacterSelectionMediump.m exact U u = CharacterSelection.m U u).
Proof.
  assert (Hm : forall u, CharacterSelectionMediump.m exact U u = CharacterSelection.m U u)
    by reflexivity.
  assert (Herror : forall u,
            CharacterSelectionMediump.error exact T U gl_FragCoord u
            = CharacterSelection.ssd T U gl_FragCoord (CharacterSelection.m U u)
              / CharacterSelection.f T) by reflexivity.
  assert (Htransparent : CharacterSelectionMediump.transparent exact T U gl_FragCoord
                         = CharacterSelection.transparent T U gl_FragCoord) by reflexivity.
  assert (Hbody : CharacterSelectionMediump.scan_body exact T U gl_FragCoord
                  = CharacterSelection.scan_body T U gl_FragCoord) by reflexivity.
  assert (Hscan : CharacterSelectionMediump.scan exact T U gl_FragCoord
                  = CharacterSelection.scan T U gl_FragCoord).
  { unfold CharacterSelectionMediump.scan, CharacterSelection.scan.
    rewrite Hbody. reflexivity. }
  split_and!; try assumption.
  unfold CharacterSelectionMediump.main, CharacterSelection.main.
  rewrite Htransparent, Hscan.
  destruct (CharacterSelection.scan T U gl_FragCoord); reflexivity.
Qed.
Lemma brightnessSplit_exact (U : BrightnessSplit.uniforms) (gl_FragCoord : vec2) :
  BrightnessSplitMediump.main exact U gl_FragCoord = BrightnessSplit.main U gl_FragCoord /\
  BrightnessSplitMediump.fragmentBrightness exact U gl_FragCoord
  = BrightnessSplit.fragmentBrightness U gl_FragCoord /\
  BrightnessSplitMediump.averageBrightness exact U gl_FragCoord
  = BrightnessSplit.averageBrightness U gl_FragCoord.
Proof. split_and!; reflexivity. Qed.

End ExactArithmetic.

Section CharacterSelectionExamples.
Import Glsl CharacterSelection.




(** The order of the additions decides a tie: the two glyphs of the atlas
    have the same squared differences from the mask, in reverse order; in
    exact arithmetic their errors are equal and the first entry wins; in
    binary32 the error computed for the second entry is the lower one, and
    the second entry wins. *)
Example characterSelection_binary32_breaks_tie :
  CharacterSelectionMediump.error Mediump.exact 2 Float32.tie Examples.pixel_centre 0
  == CharacterSelectionMediump.error Mediump.exact 2 Float32.tie Examples.pixel_centre 1 /\
  CharacterSelectionMediump.main Mediump.exact 2 Float32.tie Examples.pixel_centre
  = CharacterSelectionMediump.encode Mediump.exact
      (CharacterSelectionMediump.m Mediump.exact Float32.tie 0) /\
  CharacterSelectionMediump.error Float32.binary32 2 Float32.tie Examples.pixel_centre 1
  < CharacterSelectionMediump.error Float32.binary32 2 Float32.tie Examples.pixel_centre 0 /\
  CharacterSelectionMediump.main Float32.binary32 2 Float32.tie Examples.pixel_centre
  = CharacterSelectionMediump.encode Float32.binary32
      (CharacterSelectionMediump.m Float32.binary32 Float32.tie 1).
Proof. split_and!; vm_compute; reflexivity. Qed.

Lemma characterSelection_transparent_sentinel_witness :
  (forall u f, (u < 1)%nat -> (f < 1)%nat ->
     vw (CharacterSelectionMediump.mask Float32.binary32 1
           (Examples.matcher_uniforms Examples.clear 2) Examples.pixel_centre u f) == 0) /\
  CharacterSelectionMediump.main Float32.binary32 1
    (Examples.matcher_uniforms Examples.clear 2) Examples.pixel_centre = Vec4 0 0 0 0 /\
  vw (CharacterSelectionMediump.main Mediump.exact 1
        (Examples.matcher_uniforms Examples.white 2) Examples.pixel_centre) = 1.
Proof.
  assert (Hzero : forall u f, (u < 1)%nat -> (f < 1)%nat ->
     vw (CharacterSelectionMediump.mask Float32.binary32 1
           (Examples.matcher_uniforms Examples.clear 2) Examples.pixel_centre u f) == 0).
  { intros u f _ _. reflexivity. }
  split; [exact Hzero |]. split.
  - apply (proj1 (proj1 (characterSelection_transparent_sentinel 1
                           (Examples.matcher_uniforms Examples.clear 2)
                           Examples.pixel_centre) Float32.binary32) Hzero).
  - destruct (characterSelection_transparent_sentinel 1
                (Examples.matcher_uniforms Examples.white 2) Examples.pixel_centre)
      as [_ Hcell].
    apply (Hcell ltac:(reflexivity) ltac:(reflexivity) ltac:(reflexivity)
                 ltac:(reflexivity)).
    exists 0%nat, 0%nat. split_and!; [lia | lia |].
    intros c _. reflexivity.
Defined.

End CharacterSelectionExamples.

(** ** The shader generators *)

Section GeneratorFacts.
Import ShaderSource.

Lemma pretty_N_char_digit (k : N) : Spec.is_digit (pretty_N_char k) = true.
Proof.
  unfold pretty_N_char.
  repeat match goal with
         | |- context [match ?x with _ => _ end] => destruct x
         end; reflexivity.
Qed.

Lemma pretty_N_go_digits (x : N) (s : string) :
  Spec.all_digits s -> Spec.all_digits (pretty_N_go x s).
Proof.
  revert s. induction x as [x IH] using (well_founded_induction N.lt_wf_0). intros s Hs.
  destruct (N.eq_dec x 0%N) as [-> | Hx].
  - rewrite pretty_N_go_0. exact Hs.
  - rewrite pretty_N_go_step by lia. apply IH.
    + apply N.div_lt; lia.
    + split; [apply pretty_N_char_digit | exact Hs].
Qed.

Lemma pretty_nat_digits (n : nat) : Spec.all_digits (pretty n).
Proof.
  unfold pretty, pretty_nat, pretty, pretty_N.
  destruct (decide (N.of_nat n = 0%N)); [split; [reflexivity | exact I] |].
  apply pretty_N_go_digits. exact I.
Qed.

(** A run of digits followed by something that is not a digit is
    determined by the whole. *)
Lemma digits_unique (a a' r r' : string) :
  Spec.all_digits a -> Spec.all_digits a' ->
  Spec.no_leading_digit r -> Spec.no_leading_digit r' ->
  (a ++ r = a' ++ r')%string -> a = a' /\ r = r'.
Proof.
  revert a'. induction a as [| c a IH]; intros [| c' a'] Ha Ha' Hr Hr' Heq.
  - split; [reflexivity | exact Heq].
  - exfalso. rewrite append_nil, append_cons in Heq. subst r.
    destruct Ha' as [Hc' _]. cbn in Hr. congruence.
  - exfalso. rewrite append_nil, append_cons in Heq. subst r'.
    destruct Ha as [Hc _]. cbn in Hr'. congruence.
  - rewrite !append_cons in Heq. injection Heq as -> Heq.
    destruct Ha as [_ Ha], Ha' as [_ Ha'].
    destruct (IH a' Ha Ha' Hr Hr' Heq) as [-> ->]. split; reflexivity.
Qed.

Lemma concat_empty_cons (x y : string) (l : list string) :
  String.concat "" (x :: y :: l) = (x ++ String.concat "" (y :: l))%string.
Proof. reflexivity. Qed.

Lemma pretty_unique (t t' : nat) (r r' : string) :
  Spec.no_leading_digit r -> Spec.no_leading_digit r' ->
  (pretty t ++ r = pretty t' ++ r')%string -> t = t' /\ r = r'.
Proof.
  intros Hr Hr' Heq.
  destruct (digits_unique _ _ _ _ (pretty_nat_digits t) (pretty_nat_digits t') Hr Hr' Heq)
    as [Ht ->].
  split; [apply (inj pretty), Ht | reflexivity].
Qed.

(** The generators are injective: the source determines the parameters it
    was generated from. *)
Lemma generateCharacterSelectionShader_inj (t t' : nat) :
  generateCharacterSelectionShader t = generateCharacterSelectionShader t' -> t = t'.
Proof.
  unfold generateCharacterSelectionShader. intros H.
  rewrite !concat_empty_cons in H.
  repeat apply String.app_inj in H.
  apply pretty_unique in H as [Ht _]; [exact Ht | |]; rewrite append_cons; reflexivity.
Qed.

Lemma generateBrightnessSampleShader_inj (t i t' i' : nat) :
  generateBrightnessSampleShader t i = generateBrightnessSampleShader t' i' ->
  t = t' /\ i = i'.
Proof.
  unfold generateBrightnessSampleShader. intros H.
  rewrite !concat_empty_cons in H.
  repeat apply String.app_inj in H.
  apply pretty_unique in H as [-> H]; [| rewrite append_cons; reflexivity ..].
  repeat apply String.app_inj in H.
  apply pretty_unique in H as [-> _]; [| rewrite append_cons; reflexivity ..].
  split; reflexivity.
Qed.

Lemma generateColorSampleShader_inj (t i n t' i' n' : nat) :
  generateColorSampleShader t i n = generateColorSampleShader t' i' n' ->
  t = t' /\ i = i' /\ n = n'.
Proof.
  unfold generateColorSampleShader. intros H.
  rewrite !concat_empty_cons in H.
  repeat apply String.app_inj in H.
  apply pretty_unique in H as [-> H]; [| rewrite append_cons; reflexivity ..].
  repeat apply String.app_inj in H.
  apply pretty_unique in H as [-> H]; [| rewrite append_cons; reflexivity ..].
  repeat apply String.app_inj in H.
  apply pretty_unique in H as [-> _]; [| rewrite append_cons; reflexivity ..].
  split_and!; reflexivity.
Qed.

End GeneratorFacts.

(** ** The renderer's lifecycle *)

Section RendererFacts.
Import Js ShaderSource Renderer.

Context {Host : Type}.
Variable super_constructor :
  p5 -> Framebuffer -> P5AsciifyGrid -> P5AsciifyFontManager -> gmap string value -> Base Host.
Variable super_resizeFramebuffers : Base Host -> Base Host.

(** Creating a shader leaves every field of [this] but [_p] as it is. *)
Lemma this_createShader_fields (this : Base Host) (vert frag : string) :
  fst (this_createShader this vert frag) = MkShader (created (_p this)) vert frag /\
  snd (this_createShader this vert frag) = with_p this (P5 (S (created (_p this)))).
Proof. unfold this_createShader, createShader. simpl. tauto. Qed.

(** C7: [resizeFramebuffers()] leaves the four shader fields as they were,
    and resizes (in place) the brightness-sample buffer to the grid's
    columns x rows and the brightness-split buffer to the capture buffer's
    width x height, the grid and the capture buffer being those of the
    renderer when the call returns. *)
Theorem resizeFramebuffers_keeps_shaders_resizes_buffers
    (this : P5AsciifyAccurateRenderer Host) :
  let this' := resizeFramebuffers super_resizeFramebuffers this in
  (_characterSelectionShader this' = _characterSelectionShader this /\
   _brightnessSampleShader this' = _brightnessSampleShader this /\
   _colorSampleShader this' = _colorSampleShader this /\
   _brightnessSplitShader this' = _brightnessSplitShader this) /\
  (width (_brightnessSampleFramebuffer this') = cols (_grid (super this')) /\
   height (_brightnessSampleFramebuffer this') = rows (_grid (super this'))) /\
  (width (_brightnessSplitFramebuffer this') = width (_captureFramebuffer (super this')) /\
   height (_brightnessSplitFramebuffer this') = height (_captureFramebuffer (super this'))) /\
  (framebuffer_id (_brightnessSampleFramebuffer this')
     = framebuffer_id (_brightnessSampleFramebuffer this) /\
   framebuffer_id (_brightnessSplitFramebuffer this')
     = framebuffer_id (_brightnessSplitFramebuffer this)).
Proof.
  unfold resizeFramebuffers, resize. simpl. repeat split; reflexivity.
Qed.

(** C8, amended: the constructor compiles all four shaders, the three
    generator-derived ones from the generators applied to the font size
    and the cell height and width the renderer holds, the brightness-split
    shader from its fixed source; [resetShaders()] compiles the three
    generator-derived shaders anew (new shader objects) from the
    generators applied to the font size and cell dimensions current at the
    call, and leaves the font manager, the grid, the brightness-split
    shader and the buffers alone; and the source a generator returns
    determines the font size, or the cell height and width, it was
    generated from. *)
Theorem shaders_generated_from_current_dimensions :
  (forall p c g fm options,
     let this := constructor super_constructor p c g fm options in
     Spec.generated_from_current this /\
     fragSrc (_brightnessSplitShader this) = brightnessSplitShader) /\
  (forall this : P5AsciifyAccurateRenderer Host,
     let this' := resetShaders this in
     Spec.generated_from_current this' /\
     _fontManager (super this') = _fontManager (super this) /\
     _grid (super this') = _grid (super this) /\
     (created (_p (super this)) <= shader_id (_characterSelectionShader this') /\
      created (_p (super this)) <= shader_id (_brightnessSampleShader this') /\
      created (_p (super this)) <= shader_id (_colorSampleShader this'))%nat /\
     _brightnessSplitShader this' = _brightnessSplitShader this /\
     _brightnessSampleFramebuffer this' = _brightnessSampleFramebuffer this /\
     _brightnessSplitFramebuffer this' = _brightnessSplitFramebuffer this) /\
  ((forall t t',
      generateCharacterSelectionShader t = generateCharacterSelectionShader t' -> t = t') /\
   (forall t i t' i',
      generateBrightnessSampleShader t i = generateBrightnessSampleShader t' i' ->
      t = t' /\ i = i') /\
   (forall t i n t' i' n',
      generateColorSampleShader t i n = generateColorSampleShader t' i' n' ->
      t = t' /\ i = i' /\ n = n')).
Proof.
  split; [| split].
  3: { split; [exact generateCharacterSelectionShader_inj |].
       split; [exact generateBrightnessSampleShader_inj |
               exact generateColorSampleShader_inj]. }
  - intros p c g fm options.
    unfold Spec.generated_from_current, constructor, this_createShader,
      this_createFramebuffer, createShader, createFramebuffer, with_p.
    simpl. repeat split; reflexivity.
  - intros this.
    unfold Spec.generated_from_current, resetShaders, this_createShader,
      createShader, with_p.
    simpl. repeat split; try reflexivity; lia.
Qed.

(** C10: the options the renderer is constructed with are the defaults
    overridden key by key by the record provided: a key of the record
    keeps the provided value, any other key takes its value from
    [ACCURATE_DEFAULT_OPTIONS]; with no record the options are exactly the
    defaults, also through the plugin's [create]; and the merged record is
    what the base class's constructor receives. *)
Theorem mergedOptions_defaults_overridden :
  (forall (options : gmap string value) (key : string),
     Options.mergedOptions (Some options) !! key =
       match options !! key with
       | Some v => Some v
       | None => Options.ACCURATE_DEFAULT_OPTIONS !! key
       end) /\
  Options.mergedOptions None = Options.ACCURATE_DEFAULT_OPTIONS /\
  (forall p c g fm,
     create super_constructor p c g fm None = constructor super_constructor p c g fm None /\
     _options (super (create super_constructor p c g fm None))
       = _options (super_constructor p c g fm Options.ACCURATE_DEFAULT_OPTIONS)) /\
  (forall p c g fm options,
     _options (super (constructor super_constructor p c g fm options))
       = _options (super_constructor p c g fm (Options.mergedOptions options))).
Proof.
  assert (Hnone : Options.mergedOptions None = Options.ACCURATE_DEFAULT_OPTIONS).
  { unfold Options.mergedOptions, Options.spread, Options.defaulted.
    apply map_eq. intros key. rewrite lookup_union.
    destruct (Options.ACCURATE_DEFAULT_OPTIONS !! key); reflexivity. }
  assert (Hsome : Options.mergedOptions (Some Options.ACCURATE_DEFAULT_OPTIONS)
                  = Options.ACCURATE_DEFAULT_OPTIONS) by exact Hnone.
  split; [| split; [exact Hnone | split]].
  - intros options key.
    unfold Options.mergedOptions, Options.spread, Options.defaulted.
    rewrite lookup_union.
    destruct (options !! key), (Options.ACCURATE_DEFAULT_OPTIONS !! key); reflexivity.
  - intros p c g fm. unfold create, constructor. rewrite Hnone, Hsome.
    split; reflexivity.
  - intros p c g fm options. reflexivity.
Qed.

End RendererFacts.

Section RendererExamples.
Import ShaderSource Renderer.

(** The brightness-split shader's source comes from no generator. *)
Lemma brightnessSplitShader_static : ~ Spec.from_generator brightnessSplitShader.
Proof.
  assert (Hhead : forall rest : string,
            brightnessSplitShader <> (LF ++ rest)%string).
  { intros rest H. apply (f_equal (String.get 0)) in H.
    vm_compute in H. discriminate H. }
  intros [[t H] | [[t [i H]] | [t [i [n H]]]]];
    [unfold generateCharacterSelectionShader in H
    | unfold generateBrightnessSampleShader in H
    | unfold generateColorSampleShader in H];
    rewrite concat_empty_cons in H; exact (Hhead _ H).
Qed.

(** C8, as stated, fails: [resetShaders()] does not compile all shader
    programs anew from generators.  On the renderer of the example the
    brightness-split shader is after the call the object the constructor
    created, not one created by the call. *)
Lemma resetShaders_keeps_brightnessSplitShader :
  ~ Spec.reset_recompiles_all Examples.plain_renderer.
Proof.
  intros [_ [_ [_ [Hnew _]]]].
  assert (Hold : (shader_id (_brightnessSplitShader (resetShaders Examples.plain_renderer))
                  < created (_p (super Examples.plain_renderer)))%nat)
    by (vm_compute; lia).
  lia.
Qed.

Lemma shaders_generated_from_current_dimensions_witness :
  fragSrc (_characterSelectionShader Examples.plain_renderer)
    = generateCharacterSelectionShader 16 /\
  fontSize (_fontManager (super Examples.plain_renderer)) = 16%nat.
Proof.
  destruct (shaders_generated_from_current_dimensions Examples.plain_host)
    as [Hnew [_ [Hinj _]]].
  destruct (Hnew (P5 1) Examples.capture Examples.grid (MkFontManager 16) None)
    as [[[_ Hsrc] _] _].
  split; [exact Hsrc |].
  apply Hinj. reflexivity.
Defined.

(** The renderer of the example: its buffers have the size of the grid and
    of the capture buffer, and stay so when the host resizes nothing. *)
Example plain_renderer_buffers :
  (width (_brightnessSampleFramebuffer Examples.plain_renderer),
   height (_brightnessSampleFramebuffer Examples.plain_renderer)) = (100, 37)%nat /\
  (width (_brightnessSplitFramebuffer Examples.plain_renderer),
   height (_brightnessSplitFramebuffer Examples.plain_renderer)) = (800, 600)%nat.
Proof. split; reflexivity. Qed.

End RendererExamples.

(** ** Resolution of the base class *)

Section BaseClassFacts.
Import Js BaseClass.

Lemma related_occurs (key : string) :
  related key = true <->
  Spec.occurs_in "asciify" (toLowerCase key) \/ Spec.occurs_in "p5" (toLowerCase key).
Proof.
  unfold related. rewrite orb_true_iff, !includes_occurs. reflexivity.
Qed.

(** In the build, with the host's module object in place, [getBaseClass]
    does what the source's does for the namespace of that object. *)
Lemma bundle_getBaseClass_with_module (e : value) (window : option object) :
  e <> Undefined -> e <> Null -> prop e "renderers" <> Null ->
  Bundle.getBaseClass e window
  = Bundle.of_completion (getBaseClass (Bundle.renderers e) window).
Proof.
  intros Hu Hn Hr.
  assert (Hinner :
    match prop e "renderers" with
    | Undefined => Bundle.from_window window
    | Null => Bundle.Throws Bundle.TypeError
    | namespace =>
        let renderer2d := prop namespace "renderer2d" in
        let feature := prop renderer2d "feature" in
        let cls := prop feature "P5AsciifyAbstractFeatureRenderer2D" in
        if truthy renderer2d && truthy feature
           && negb (String.eqb (typeof cls) "undefined")
        then Bundle.Returns cls else Bundle.from_window window
    end = Bundle.of_completion (getBaseClass (Bundle.renderers e) window)).
  { unfold Bundle.renderers, getBaseClass, Bundle.from_window.
    destruct (prop e "renderers") as [| | b | n | s | name props | props];
      try contradiction; cbn -[String.eqb typeof];
      try (destruct (strategy2 window); reflexivity).
    - destruct (truthy (get props "renderer2d")
                && truthy (prop (get props "renderer2d") "feature")
                && negb (String.eqb
                           (typeof (prop (prop (get props "renderer2d") "feature")
                                      "P5AsciifyAbstractFeatureRenderer2D"))
                           "undefined")); [reflexivity |].
      destruct (strategy2 window); reflexivity.
    - destruct (truthy (get props "renderer2d")
                && truthy (prop (get props "renderer2d") "feature")
                && negb (String.eqb
                           (typeof (prop (prop (get props "renderer2d") "feature")
                                      "P5AsciifyAbstractFeatureRenderer2D"))
                           "undefined")); [reflexivity |].
      destruct (strategy2 window); reflexivity. }
  destruct e; try contradiction; exact Hinner.
Qed.

(** C9 at the failing input.  The build loaded as a script before
    p5.asciify gets [undefined] for the host's module object, and
    [window] holds no [P5AsciifyAbstractFeatureRenderer2D]: neither
    strategy resolves the class, and [getBaseClass] throws a [TypeError]
    on reading [e.renderers], not the error that names the missing class
    and lists the related globals.  On the same [window] the module as the
    source has it throws that error. *)
Lemma getBaseClass_type_error_without_host_module :
  strategy1 (Bundle.renderers Undefined) = None /\
  strategy2 (Some Examples.bare_window) = None /\
  Bundle.getBaseClass Undefined (Some Examples.bare_window)
  = Bundle.Throws Bundle.TypeError /\
  getBaseClass None (Some Examples.bare_window)
  = Throw (notFoundMessage (Some Examples.bare_window)) /\
  ~ Bundle.unresolved_is_described Undefined (Some Examples.bare_window).
Proof.
  split; [reflexivity |]. split; [reflexivity |].
  split; [reflexivity |]. split; [reflexivity |].
  intros [Hdescribed _].
  destruct (Hdescribed eq_refl eq_refl) as [message [Hthrown _]].
  discriminate Hthrown.
Qed.

(** X27: with the host's module object in place, the lookup fails
    only with the descriptive error.  When neither lookup strategy
    resolves the class, [getBaseClass] (and with it the cached lookup the
    class declaration starts from, which leaves its variable [null])
    throws an error whose message names
    [P5AsciifyAbstractFeatureRenderer2D] and contains every related
    global, the related globals being the keys of [window] whose
    lower-case form contains "asciify" or "p5" (or says that none was
    found); when either strategy resolves the class, the class is returned
    and nothing is thrown.  This is so for the module as the source has
    it; the build does the same for the namespace of the host's module
    object when that object is neither [undefined] nor [null] and its
    [renderers] is not [null], and throws a [TypeError] before either
    strategy is tried otherwise, whatever [window] holds. *)
Theorem getBaseClass_throws_iff_unresolved
    (renderers window : option object) :
  (strategy1 renderers = None -> strategy2 window = None ->
   exists message : string,
     getBaseClass renderers window = Throw message /\
     Cache.getCachedBaseClass renderers window Null = (Throw message, Null) /\
     Spec.occurs_in "`P5AsciifyAbstractFeatureRenderer2D` not found" message /\
     (forall key, In key (availableGlobals window) -> Spec.occurs_in key message) /\
     (availableGlobals window = [] ->
      Spec.occurs_in "No related globals found." message) /\
     (forall key,
        In key (availableGlobals window) <->
        exists w, window = Some w /\ In key (keys w) /\
          (Spec.occurs_in "asciify" (toLowerCase key) \/
           Spec.occurs_in "p5" (toLowerCase key)))) /\
  (forall cls,
     strategy1 renderers = Some cls \/
     (strategy1 renderers = None /\ strategy2 window = Some cls) ->
     getBaseClass renderers window = Return cls /\
     Cache.getCachedBaseClass renderers window Null = (Return cls, cls)) /\
  (forall e : value,
     (e = Undefined \/ e = Null \/ prop e "renderers" = Null ->
      Bundle.getBaseClass e window = Bundle.Throws Bundle.TypeError) /\
     (e <> Undefined -> e <> Null -> prop e "renderers" <> Null ->
      Bundle.getBaseClass e window
      = Bundle.of_completion (getBaseClass (Bundle.renderers e) window))).
Proof.
  split; [| split].
  - intros H1 H2. exists (notFoundMessage window).
    assert (Hthrow : getBaseClass renderers window = Throw (notFoundMessage window)).
    { unfold getBaseClass. rewrite H1, H2. reflexivity. }
    split; [exact Hthrow |].
    split; [unfold Cache.getCachedBaseClass; rewrite Hthrow; reflexivity |].
    split; [| split; [| split]].
    + unfold notFoundMessage.
      exists ""%string. eexists. reflexivity.
    + intros key Hin. unfold notFoundMessage.
      destruct (availableGlobals window) as [| k0 l] eqn:Hl; [destruct Hin |].
      cbn [length Nat.ltb Nat.leb].
      do 3 apply occurs_in_prepend. apply join_occurs, Hin.
    + intros Hnil. unfold notFoundMessage. rewrite Hnil. cbn [length Nat.ltb Nat.leb].
      do 2 apply occurs_in_prepend. apply occurs_in_refl.
    + intros key. unfold availableGlobals. destruct window as [w |].
      * rewrite filter_In, related_occurs. split.
        -- intros [Hk Hr]. exists w. auto.
        -- intros [w' [Hw [Hk Hr]]]. injection Hw as <-. auto.
      * split; [intros [] | intros [w [Hw _]]; discriminate Hw].
  - intros cls H. unfold Cache.getCachedBaseClass, getBaseClass.
    destruct H as [-> | [-> ->]]; split; reflexivity.
  - intros e. split.
    + intros [-> | [-> | Hnull]]; [reflexivity | reflexivity |].
      unfold Bundle.getBaseClass. rewrite Hnull.
      destruct e; reflexivity.
    + apply bundle_getBaseClass_with_module.
Qed.

Lemma getBaseClass_throws_iff_unresolved_witness :
  strategy1 None = None /\ strategy2 (Some Examples.bare_window) = None /\
  exists message : string,
    getBaseClass None (Some Examples.bare_window) = Throw message /\
    Spec.occurs_in "p5" message /\ Spec.occurs_in "P5Asciifier" message /\
    Bundle.getBaseClass (Object []) (Some Examples.bare_window)
    = Bundle.Throws (Bundle.Error message).
Proof.
  split; [reflexivity |]. split; [reflexivity |].
  destruct (getBaseClass_throws_iff_unresolved None (Some Examples.bare_window))
    as [Hunresolved [_ Hbundle]].
  destruct (Hunresolved eq_refl eq_refl) as [message [Hthrow [_ [_ [Hkeys _]]]]].
  exists message. split; [exact Hthrow |].
  split; [apply Hkeys; vm_compute; tauto |].
  split; [apply Hkeys; vm_compute; tauto |].
  rewrite (proj2 (Hbundle (Object [])));
    [| discriminate | discriminate | discriminate].
  change (Bundle.renderers (Object [])) with (@None object).
  rewrite Hthrow. reflexivity.
Defined.

End BaseClassFacts.

(** * Further properties of the pipeline *)

(** ** Where the shaders sample *)

Section BrightnessSampleCell.
Import Glsl BrightnessSample.

(** X1: for a fragment of a cell of the grid, every sub-sample the brightness
    sampler reads lies strictly inside that cell of the capture buffer
    (the clamp to [0,1] then changes nothing). *)
Theorem brightnessSample_samples_inside_cell
    (u f : nat) (U : uniforms) (gl_FragCoord : vec2) (s g : nat) :
  0 < ux (u_inputImageSize U) -> 0 < uy (u_inputImageSize U) ->
  (0 <= Qfloor (ux gl_FragCoord) < u_gridCols U)%Z ->
  (0 <= Qfloor (uy gl_FragCoord) < u_gridRows U)%Z ->
  (s < u)%nat -> (g < f)%nat ->
  Props.inside_cell (float (u_gridCols U)) (float (u_gridRows U))
    (Qfloor (ux gl_FragCoord)) (Qfloor (uy gl_FragCoord))
    (m u f U gl_FragCoord s g).
Proof.
  intros HW HH [Hx0 Hx1] [Hy0 Hy1] Hs Hg.
  assert (Hcols : 0 < float (u_gridCols U))
    by (unfold float; change 0 with (inject_Z 0); rewrite <- Zlt_Qlt; lia).
  assert (Hrows : 0 < float (u_gridRows U))
    by (unfold float; change 0 with (inject_Z 0); rewrite <- Zlt_Qlt; lia).
  split.
  - apply (sampler_axis (ux (u_inputImageSize U)) (float (u_gridCols U))
             (Qfloor (ux gl_FragCoord)) s u HW Hcols Hs Hx0).
    unfold float. change 1 with (inject_Z 1). rewrite <- inject_Z_plus, <- Zle_Qle. lia.
  - apply (sampler_axis (uy (u_inputImageSize U)) (float (u_gridRows U))
             (Qfloor (uy gl_FragCoord)) g f HH Hrows Hg Hy0).
    unfold float. change 1 with (inject_Z 1). rewrite <- inject_Z_plus, <- Zle_Qle. lia.
Qed.

End BrightnessSampleCell.

Section ColorSampleCell.
Import Glsl ColorSample.

(** X2: for a fragment of a cell of the grid, every sub-sample the colour
    sampler reads lies strictly inside that cell, and the fallback pixel
    [v] is the texel at the centre of the cell. *)
Theorem colorSample_samples_inside_cell
    (u f : nat) (U : uniforms) (gl_FragCoord : vec2) :
  0 < ux (u_inputImageSize U) -> 0 < uy (u_inputImageSize U) ->
  (0 <= Qfloor (ux gl_FragCoord) < u_gridCols U)%Z ->
  (0 <= Qfloor (uy gl_FragCoord) < u_gridRows U)%Z ->
  (forall a b, (a < u)%nat -> (b < f)%nat ->
     Props.inside_cell (float (u_gridCols U)) (float (u_gridRows U))
       (Qfloor (ux gl_FragCoord)) (Qfloor (uy gl_FragCoord))
       (s u f U gl_FragCoord a b)) /\
  (exists k,
     v U gl_FragCoord = u_inputImage U k /\
     ux k == ux (Props.cell_centre (float (u_gridCols U)) (float (u_gridRows U))
                   (Qfloor (ux gl_FragCoord)) (Qfloor (uy gl_FragCoord))) /\
     uy k == uy (Props.cell_centre (float (u_gridCols U)) (float (u_gridRows U))
                   (Qfloor (ux gl_FragCoord)) (Qfloor (uy gl_FragCoord)))).
Proof.
  intros HW HH [Hx0 Hx1] [Hy0 Hy1].
  assert (Hcols : 0 < float (u_gridCols U))
    by (unfold float; change 0 with (inject_Z 0); rewrite <- Zlt_Qlt; lia).
  assert (Hrows : 0 < float (u_gridRows U))
    by (unfold float; change 0 with (inject_Z 0); rewrite <- Zlt_Qlt; lia).
  split.
  - intros a b Ha Hb. split.
    + apply (sampler_axis (ux (u_inputImageSize U)) (float (u_gridCols U))
               (Qfloor (ux gl_FragCoord)) a u HW Hcols Ha Hx0).
      unfold float. change 1 with (inject_Z 1). rewrite <- inject_Z_plus, <- Zle_Qle. lia.
    + apply (sampler_axis (uy (u_inputImageSize U)) (float (u_gridRows U))
               (Qfloor (uy gl_FragCoord)) b f HH Hrows Hb Hy0).
      unfold float. change 1 with (inject_Z 1). rewrite <- inject_Z_plus, <- Zle_Qle. lia.
  - eexists. split; [reflexivity |].
    cbn [ux uy Props.cell_centre div2 add2 muls2 zip2 map2 i t mul2 floor2 floor].
    unfold floor. split; field; lra.
Qed.

End ColorSampleCell.

Section CharacterSelectionCell.
Import Glsl CharacterSelection.

(** The floor of a quotient of whole numbers is their integer quotient. *)
Lemma floor_quotient (a b : Q) (n d : nat) :
  a == floatn n -> b == floatn d ->
  floor (a / b) = floatn (n / d).
Proof.
  intros Ha Hb. unfold floor, floatn.
  rewrite (Qfloor_comp (a / b) (inject_Z (Z.of_nat n) / inject_Z (Z.of_nat d)))
    by (unfold floatn in Ha, Hb; rewrite Ha, Hb; reflexivity).
  rewrite <- Zdiv_Qdiv, Nat2Z.inj_div. reflexivity.
Qed.

(** A whole number is its quotient times the divisor plus its remainder. *)
Lemma floatn_div_mod (n d : nat) :
  (0 < d)%nat -> floatn n == floatn d * floatn (n / d) + floatn (n mod d).
Proof.
  intros Hd. rewrite <- floatn_mult, <- floatn_plus.
  rewrite <- (Nat.div_mod_eq n d). reflexivity.
Qed.

(** X3: every sub-sample of the mask the matcher reads for a fragment lies
    strictly inside the fragment's cell of the grid: the matcher compares
    glyphs with the pixels of that cell only. *)
Theorem characterSelection_mask_inside_cell
    (T : nat) (U : uniforms) (gl_FragCoord : vec2) (u f : nat) :
  0 < ux (u_gridPixelDimensions U) -> 0 < uy (u_gridPixelDimensions U) ->
  0 < ux (u_gridCellDimensions U) -> 0 < uy (u_gridCellDimensions U) ->
  (u < T)%nat -> (f < T)%nat ->
  exists c,
    mask T U gl_FragCoord u f = u_sketchTexture U c /\
    Props.inside_cell (ux (u_gridCellDimensions U)) (uy (u_gridCellDimensions U))
      (Qfloor (ux gl_FragCoord)) (Qfloor (uy gl_FragCoord)) c.
Proof.
  intros HPW HPH HGW HGH Hu Hf.
  eexists. split; [reflexivity |].
  assert (HT : 0 < floatn T) by (apply (floatn_lt 0 T); lia).
  destruct (sub_sample_offset f T Hf) as [Hf0 Hf1].
  destruct (sub_sample_offset u T Hu) as [Hu0 Hu1].
  unfold Props.inside_cell.
  cbn [ux uy add2 mul2 sub2 div2 adds2 muls2 zip2 map2 e v r offset floor2 floor k].
  unfold floor. rewrite !Qfloor_inject_Z. unfold k, CharacterSelection.u.
  split.
  - destruct (cell_fraction (inject_Z (Qfloor (ux gl_FragCoord)))
                ((floatn f + 0.5) / floatn T) (ux (u_gridCellDimensions U)) HGW Hf0 Hf1)
      as [Hlo Hhi].
    match goal with |- _ < ?x /\ _ =>
      assert (Heq : x == (inject_Z (Qfloor (ux gl_FragCoord)) + (floatn f + 0.5) / floatn T)
                         / ux (u_gridCellDimensions U)) by (field; repeat split; lra)
    end.
    rewrite Heq. split; assumption.
  - destruct (cell_fraction (inject_Z (Qfloor (uy gl_FragCoord)))
                ((floatn u + 0.5) / floatn T) (uy (u_gridCellDimensions U)) HGH Hu0 Hu1)
      as [Hlo Hhi].
    match goal with |- _ < ?x /\ _ =>
      assert (Heq : x == (inject_Z (Qfloor (uy gl_FragCoord)) + (floatn u + 0.5) / floatn T)
                         / uy (u_gridCellDimensions U)) by (field; repeat split; lra)
    end.
    rewrite Heq. split; assumption.
Qed.

End CharacterSelectionCell.

Section CharacterSelectionAtlas.
Import Glsl CharacterSelection.

(** X4: for an atlas of [c] columns and [r] rows of glyphs and a whole atlas
    index [idx], every sub-sample of the glyph lies strictly inside tile
    (idx mod c, idx / c) of the atlas; the tile is inside the atlas texture
    when [idx < c * r], and below it otherwise. *)
Theorem characterSelection_glyph_inside_tile
    (T : nat) (U : uniforms) (m : Q) (idx c r u f : nat) :
  m == floatn idx ->
  u_charsetCols U == floatn c -> u_charsetRows U == floatn r ->
  (0 < c)%nat -> (0 < r)%nat -> (u < T)%nat -> (f < T)%nat ->
  exists coord,
    glyph T U m u f = u_characterTexture U coord /\
    Props.inside_cell (floatn c) (floatn r)
      (Z.of_nat (idx mod c)) (Z.of_nat (idx / c)) coord /\
    ((idx < c * r)%nat -> Spec.in_texture_space coord) /\
    ((c * r <= idx)%nat -> 1 < uy coord).
Proof.
  intros Hm Hc Hr Hc0 Hr0 Hu Hf.
  eexists. split; [reflexivity |].
  assert (HT : 0 < floatn T) by (apply (floatn_lt 0 T); lia).
  assert (Hcq : 0 < floatn c) by (apply (floatn_lt 0 c); lia).
  assert (Hrq : 0 < floatn r) by (apply (floatn_lt 0 r); lia).
  destruct (sub_sample_offset f T Hf) as [Hf0 Hf1].
  destruct (sub_sample_offset u T Hu) as [Hu0 Hu1].
  unfold Props.inside_cell, Spec.in_texture_space.
  cbn [ux uy add2 mul2 zip2 map2 muls2 offset].
  rewrite (floor_quotient m (u_charsetCols U) idx c Hm Hc).
  unfold k, CharacterSelection.u.
  pose proof (floatn_div_mod idx c Hc0) as Hdm.
  set (X := (m - u_charsetCols U * floatn (idx / c)) / u_charsetCols U
            + (floatn f + 0.5) * (1 / floatn T) * (1 / u_charsetCols U)).
  set (Y := floatn (idx / c) / u_charsetRows U
            + (floatn u + 0.5) * (1 / floatn T) * (1 / u_charsetRows U)).
  assert (HX : X == (floatn (idx mod c) + (floatn f + 0.5) / floatn T) / floatn c).
  { unfold X. rewrite Hm, Hc, Hdm. field. split; lra. }
  assert (HY : Y == (floatn (idx / c) + (floatn u + 0.5) / floatn T) / floatn r).
  { unfold Y. rewrite Hr. field. split; lra. }
  destruct (cell_fraction (floatn (idx mod c)) ((floatn f + 0.5) / floatn T) (floatn c)
              Hcq Hf0 Hf1) as [HXlo HXhi].
  destruct (cell_fraction (floatn (idx / c)) ((floatn u + 0.5) / floatn T) (floatn r)
              Hrq Hu0 Hu1) as [HYlo HYhi].
  assert (Hcol : floatn (idx mod c) + 1 <= floatn c).
  { assert (H : (idx mod c + 1 <= c)%nat) by (pose proof (Nat.mod_upper_bound idx c); lia).
    apply floatn_le in H. rewrite floatn_plus in H. exact H. }
  assert (Hcol0 : 0 <= floatn (idx mod c)) by (apply (floatn_le 0); lia).
  assert (Hrow0 : 0 <= floatn (idx / c)) by (apply (floatn_le 0); lia).
  split; [| split].
  - fold (floatn (idx mod c)) (floatn (idx / c)).
    rewrite HX, HY. tauto.
  - intros Hidx. rewrite HX, HY.
    assert (Hrow : floatn (idx / c) + 1 <= floatn r).
    { assert (H : (idx / c + 1 <= r)%nat).
      { assert (idx / c < r)%nat; [| lia].
        apply Nat.Div0.div_lt_upper_bound. lia. }
      apply floatn_le in H. rewrite floatn_plus in H. exact H. }
    assert (0 <= floatn (idx mod c) / floatn c) by (apply Qle_shift_div_l; lra).
    assert ((floatn (idx mod c) + 1) / floatn c <= 1) by (apply Qle_shift_div_r; lra).
    assert (0 <= floatn (idx / c) / floatn r) by (apply Qle_shift_div_l; lra).
    assert ((floatn (idx / c) + 1) / floatn r <= 1) by (apply Qle_shift_div_r; lra).
    lra.
  - intros Hidx. rewrite HY.
    assert (Hrow : floatn r <= floatn (idx / c)).
    { apply floatn_le. apply Nat.div_le_lower_bound; lia. }
    assert (1 <= floatn (idx / c) / floatn r) by (apply Qle_shift_div_l; lra).
    lra.
Qed.

End CharacterSelectionAtlas.

(** ** The colour that carries the matcher's result *)

Section CharacterSelectionIndex.
Import Glsl CharacterSelection.

Lemma encode_index_digits (g : Q) (n : nat) :
  g == floatn n ->
  vx (Spec.encode_index g) * 255 == floatn (n mod 256) /\
  vy (Spec.encode_index g) * 255 == floatn (n / 256).
Proof.
  intros Hg. unfold Spec.encode_index, glsl_mod. cbn [vx vy].
  assert (H256 : 256 == floatn 256) by reflexivity.
  rewrite (floor_quotient g 256 n 256 Hg H256).
  pose proof (floatn_div_mod n 256 ltac:(lia)) as Hdm.
  split.
  - rewrite Hg, Hdm. rewrite <- H256. field.
  - field.
Qed.

(** X5: for an opaque cell whose winning atlas index is the whole number [n],
    the red and green channels of the output are the two base-256 digits
    of [n] over 255, and reading the output the way the matcher reads its
    palette gives [n] back; both channels are within [0,1] exactly when
    [n < 65536]. *)
Theorem characterSelection_index_round_trip
    (T : nat) (U : uniforms) (gl_FragCoord : vec2) (n : nat) :
  transparent T U gl_FragCoord = false ->
  snd (scan T U gl_FragCoord) == floatn n ->
  (vx (main T U gl_FragCoord) * 255 == floatn (n mod 256) /\
   vy (main T U gl_FragCoord) * 255 == floatn (n / 256) /\
   vz (main T U gl_FragCoord) = 0) /\
  Props.carried_index (main T U gl_FragCoord) == floatn n /\
  (forall (U' : uniforms) (u' : nat),
     texture2D (u_charPaletteTexture U')
       (Vec2 ((floatn u' + 0.5) / ux (u_charPaletteSize U')) (0.5 / uy (u_charPaletteSize U')))
     = main T U gl_FragCoord ->
     m U' u' == floatn n) /\
  ((Z.of_nat n < 65536)%Z <->
   vx (main T U gl_FragCoord) <= 1 /\ vy (main T U gl_FragCoord) <= 1).
Proof.
  intros Hopaque Hn. rewrite (main_opaque T U gl_FragCoord Hopaque).
  destruct (encode_index_digits _ n Hn) as [Hlow Hhigh].
  assert (Hcarried : Props.carried_index (Spec.encode_index (snd (scan T U gl_FragCoord)))
                     == floatn n).
  { unfold Props.carried_index. rewrite Hlow.
    assert (Hz : vz (Spec.encode_index (snd (scan T U gl_FragCoord))) = 0) by reflexivity.
    rewrite Hz.
    assert (Hy : vy (Spec.encode_index (snd (scan T U gl_FragCoord))) * 255 * 256
                 == floatn (n / 256) * 256) by (rewrite Hhigh; reflexivity).
    rewrite Hy. rewrite (floatn_div_mod n 256 ltac:(lia)).
    assert (H256 : floatn 256 == 256) by reflexivity. rewrite H256. ring. }
  split; [split; [exact Hlow | split; [exact Hhigh | reflexivity]] |].
  split; [exact Hcarried |].
  split.
  - intros U' u' Htexel. unfold m. cbv zeta. rewrite Htexel. exact Hcarried.
  - assert (Hmod : floatn (n mod 256) <= 255).
    { assert (H : (n mod 256 <= 255)%nat)
        by (pose proof (Nat.mod_upper_bound n 256 ltac:(discriminate)); lia).
      apply floatn_le in H. exact H. }
    split.
    + intros Hlt.
      assert (Hdiv : floatn (n / 256) <= 255).
      { assert (H : (n / 256 <= 255)%nat).
        { apply Nat2Z.inj_le. rewrite Nat2Z.inj_div. change (Z.of_nat 256) with 256%Z.
          change (Z.of_nat 255) with 255%Z. Z.div_mod_to_equations. lia. }
        apply floatn_le in H. exact H. }
      split; lra.
    + intros [_ Hy].
      assert (Hdiv : floatn (n / 256) <= floatn 255).
      { change (floatn 255) with 255. lra. }
      apply floatn_le in Hdiv. apply Nat2Z.inj_le in Hdiv.
      rewrite Nat2Z.inj_div in Hdiv. change (Z.of_nat 256) with 256%Z in Hdiv.
      change (Z.of_nat 255) with 255%Z in Hdiv. Z.div_mod_to_equations. lia.
Qed.

End CharacterSelectionIndex.

(** ** The brightness splitter's mask *)

Section BrightnessSplitMask.
Import Glsl BrightnessSplit.

(** X6: the mask is binary: the splitter writes one of three colours,
    transparent black for a source pixel of alpha below [EPSILON], and
    opaque black or opaque white otherwise. *)
Theorem brightnessSplit_output_binary (U : uniforms) (gl_FragCoord : vec2) :
  (vw (originalColor U gl_FragCoord) < EPSILON /\
   main U gl_FragCoord = Vec4 0 0 0 0) \/
  (EPSILON <= vw (originalColor U gl_FragCoord) /\
   (main U gl_FragCoord = Vec4 0 0 0 1 \/ main U gl_FragCoord = Vec4 1 1 1 1)).
Proof.
  unfold main.
  destruct (ltb (vw (originalColor U gl_FragCoord)) EPSILON) eqn:Ha.
  - left. split; [apply ltb_lt; exact Ha | reflexivity].
  - right. split; [apply ltb_ge; exact Ha |]. cbv zeta.
    destruct (ltb _ (- EPSILON)); [left | right]; reflexivity.
Qed.

(** A whole number clamped between 0 and a whole bound is a whole number
    between them. *)
Lemma clamp_whole (z hi : Z) :
  (0 <= hi)%Z ->
  exists c : Z, (0 <= c <= hi)%Z /\ clamp (inject_Z z) 0 (inject_Z hi) = inject_Z c.
Proof.
  intros Hhi. unfold clamp, glsl_min, glsl_max.
  destruct (ltb (inject_Z z) 0) eqn:Hneg.
  - assert (H0 : ltb (inject_Z hi) 0 = false).
    { apply ltb_ge. change 0 with (inject_Z 0). rewrite <- Zle_Qle. exact Hhi. }
    rewrite H0. exists 0%Z. split; [lia | reflexivity].
  - apply ltb_ge in Hneg. change 0 with (inject_Z 0) in Hneg. rewrite <- Zle_Qle in Hneg.
    destruct (ltb (inject_Z hi) (inject_Z z)) eqn:Hbig.
    + exists hi. split; [lia | reflexivity].
    + apply ltb_ge in Hbig. rewrite <- Zle_Qle in Hbig.
      exists z. split; [lia | reflexivity].
Qed.

(** X7: whatever the fragment, the average brightness is read at the centre of
    a cell of the grid: the cell indices are clamped to the grid. *)
Theorem brightnessSplit_average_from_grid_cell (U : uniforms) (gl_FragCoord : vec2) :
  (0 < u_gridCols U)%Z -> (0 < u_gridRows U)%Z ->
  exists cx cy : Z,
    (0 <= cx < u_gridCols U)%Z /\ (0 <= cy < u_gridRows U)%Z /\
    averageBrightness U gl_FragCoord
    = vx (u_brightnessTexture U
            (Props.cell_centre (float (u_gridCols U)) (float (u_gridRows U)) cx cy)).
Proof.
  intros Hcols Hrows. unfold averageBrightness. cbv zeta.
  unfold floor at 1 2.
  destruct (clamp_whole
              (Qfloor (ux (logicalFragCoord U gl_FragCoord)
                       / (ux (u_inputImageSize U) / float (u_gridCols U))))
              (u_gridCols U - 1)) as [cx [Hcx Hx]]; [lia |].
  destruct (clamp_whole
              (Qfloor (uy (logicalFragCoord U gl_FragCoord)
                       / (uy (u_inputImageSize U) / float (u_gridRows U))))
              (u_gridRows U - 1)) as [cy [Hcy Hy]]; [lia |].
  exists cx, cy. split; [lia |]. split; [lia |].
  change (float (u_gridCols U - 1)) with (inject_Z (u_gridCols U - 1)).
  change (float (u_gridRows U - 1)) with (inject_Z (u_gridRows U - 1)).
  rewrite Hx, Hy. reflexivity.
Qed.

End BrightnessSplitMask.

(** ** The colour sampler's choice *)

Section ColorSampleChoice.
Import Glsl ColorSample.

Lemma step_half (x : Q) :
  (x < 0.5 /\ step 0.5 x = 0) \/ (0.5 <= x /\ step 0.5 x = 1).
Proof.
  unfold step. destruct (ltb x 0.5) eqn:H.
  - left. split; [apply ltb_lt; exact H | reflexivity].
  - right. split; [apply ltb_ge; exact H | reflexivity].
Qed.

Lemma selected_rank (U : uniforms) (coord : vec2) :
  selected U coord =
  if (u_colorRank U =? 1)%Z then negb (ltb (vx (u_inputImageBW U coord)) 0.5)
  else if (u_colorRank U =? 2)%Z then ltb (vx (u_inputImageBW U coord)) 0.5
  else false.
Proof.
  unfold selected, texture2D. cbv zeta. unfold step.
  destruct (Z.eqb_spec (u_colorRank U) 1) as [E1 | N1];
    destruct (Z.eqb_spec (u_colorRank U) 2) as [E2 | N2];
    try (exfalso; rewrite E1 in E2; discriminate E2);
    destruct (ltb (vx (u_inputImageBW U coord)) 0.5); reflexivity.
Qed.

(** X8: the two ranks split the sub-samples between them: over the same mask,
    rank 1 selects a sub-sample exactly when rank 2 does not; rank 1
    selects the texels of the mask whose first channel is at least 0.5;
    and any other rank selects nothing. *)
Theorem colorSample_ranks_partition (U1 U2 U3 : uniforms) (coord : vec2) :
  u_colorRank U1 = 1%Z -> u_colorRank U2 = 2%Z ->
  u_colorRank U3 <> 1%Z -> u_colorRank U3 <> 2%Z ->
  u_inputImageBW U1 coord = u_inputImageBW U2 coord ->
  selected U1 coord = negb (selected U2 coord) /\
  (selected U1 coord = true <-> 0.5 <= vx (u_inputImageBW U1 coord)) /\
  selected U3 coord = false.
Proof.
  intros H1 H2 H3 H3' Hbw. rewrite !selected_rank, H1, H2, Hbw.
  cbn [Z.eqb Pos.eqb].
  split; [| split].
  - reflexivity.
  - rewrite negb_true_iff. apply ltb_ge.
  - destruct (Z.eqb_spec (u_colorRank U3) 1); [contradiction |].
    destruct (Z.eqb_spec (u_colorRank U3) 2); [contradiction | reflexivity].
Qed.

(** X9: on a mask the splitter wrote, rank 1 tallies the pixels the splitter
    made opaque white, and rank 2 all the others: the opaque black ones and
    the transparent ones. *)
Theorem colorSample_selects_by_mask
    (S : BrightnessSplit.uniforms) (fragment : vec2) (U : uniforms) (coord : vec2) :
  u_inputImageBW U coord = BrightnessSplit.main S fragment ->
  (u_colorRank U = 1%Z ->
   (selected U coord = true <-> BrightnessSplit.main S fragment = Vec4 1 1 1 1)) /\
  (u_colorRank U = 2%Z ->
   (selected U coord = true <->
    BrightnessSplit.main S fragment = Vec4 0 0 0 1 \/
    BrightnessSplit.main S fragment = Vec4 0 0 0 0)).
Proof.
  intros Hbw. rewrite selected_rank, Hbw.
  assert (Hcases : BrightnessSplit.main S fragment = Vec4 0 0 0 0 \/
                   BrightnessSplit.main S fragment = Vec4 0 0 0 1 \/
                   BrightnessSplit.main S fragment = Vec4 1 1 1 1).
  { unfold BrightnessSplit.main.
    destruct (ltb _ BrightnessSplit.EPSILON); [left; reflexivity |]. cbv zeta.
    destruct (ltb _ (- BrightnessSplit.EPSILON)); [right; left | right; right]; reflexivity. }
  split; intros ->; cbn [Z.eqb Pos.eqb];
    destruct Hcases as [-> | [-> | ->]]; cbn [vx];
    (split; [intros H; try discriminate H; auto | intros H]);
    try reflexivity;
    try (destruct H as [H | H]; discriminate H); try discriminate H.
Qed.

End ColorSampleChoice.

Section ColorSampleResult.
Import Glsl ColorSample.

Variables e u f : nat.
Variable U : uniforms.
Variable gl_FragCoord : vec2.

(** With a bucket and a selected sub-sample, the output is the colour of a
    bucket that holds a tally no smaller than any other. *)
Lemma main_holds_greatest_tally :
  (0 < e)%nat ->
  Spec.matching_colors u f U gl_FragCoord <> [] ->
  exists (held c : vec4) (n : nat),
    In (c, n) (Spec.tallies e (Spec.matching_colors u f U gl_FragCoord)) /\
    xyz_eqb held c = true /\
    main e u f U gl_FragCoord = vec4_of (xyz held) 1 /\
    (forall c' n',
       In (c', n') (Spec.tallies e (Spec.matching_colors u f U gl_FragCoord)) ->
       (n' <= n)%nat).
Proof.
  intros He Hsome.
  destruct (sampled_holds e (Spec.matching_colors u f U gl_FragCoord))
    as [occupied [Hcb Hholds]].
  rewrite <- sampled_matching in Hcb.
  set (ms := Spec.matching_colors u f U gl_FragCoord) in *.
  set (tl := Spec.tallies e ms) in *.
  assert (Htally : forall c' n', In (c', n') tl ->
            exists i c b, (sampled e u f U gl_FragCoord : list (vec4 * Q)) !! i = Some (c, b) /\
                          b == floatn n').
  { intros c' n' Hin. apply list_elem_of_In, list_elem_of_lookup in Hin as [i Hi].
    destruct (Forall2_lookup_r _ _ _ _ _ Hholds Hi) as [[c b] [Hocc [_ Hb]]].
    exists i, c, b. split; [| exact Hb].
    rewrite Hcb. apply lookup_app_l_Some. exact Hocc. }
  assert (Hfirst : exists c0 n0, In (c0, n0) tl /\ (0 < n0)%nat).
  { unfold tl, Spec.tallies. destruct ms as [| m0 ms']; [congruence |].
    destruct e as [| e']; [lia |]. cbn [Spec.first_encounters firstn map].
    exists m0, (Spec.occurrences m0 (m0 :: ms')). split; [left; reflexivity |].
    apply occurrences_positive. left. reflexivity. }
  destruct (pick_first_maximum (sampled e u f U gl_FragCoord) 0 (vec4_splat 0))
    as [[_ Hall] | [j [c [b [Hj [Heq [Hpos [_ Hmax]]]]]]]].
  - exfalso. destruct Hfirst as [c0 [n0 [H0 Hn0]]].
    destruct (Htally _ _ H0) as [i [c [b [Hi Hb]]]].
    pose proof (Hall _ _ _ Hi) as Hle. rewrite Hb in Hle.
    apply (floatn_lt 0 n0) in Hn0. change (floatn 0) with 0 in Hn0. lra.
  - rewrite Hcb in Hj.
    destruct (Nat.lt_ge_cases j (length occupied)) as [Hin | Hout].
    + rewrite lookup_app_l in Hj by exact Hin.
      destruct (Forall2_lookup_l _ _ _ _ _ Hholds Hj) as [[c' n'] [Htl [Hc Hb]]].
      cbn [fst snd] in Hc, Hb.
      exists c, c', n'. split_and!.
      * apply list_elem_of_In, list_elem_of_lookup. exists j. exact Htl.
      * exact Hc.
      * unfold main, most_frequent. rewrite Heq.
        assert (Hnz : Qeq_bool b 0 = false).
        { apply not_true_iff_false. intros H. apply Qeq_bool_iff in H. lra. }
        rewrite Hnz, andb_false_r. reflexivity.
      * intros c'' n'' Hin''.
        destruct (Htally _ _ Hin'') as [i [ci [bi [Hci Hbi]]]].
        pose proof (Hmax _ _ _ Hci) as Hle. rewrite Hbi, Hb in Hle.
        apply floatn_le. exact Hle.
    + exfalso. rewrite lookup_app_r in Hj by exact Hout.
      apply lookup_repeat in Hj. injection Hj as _ ->.
      revert Hpos. apply Qlt_irrefl.
Qed.

Lemma tallies_in (c : vec4) (n : nat) (ms : list vec4) :
  In (c, n) (Spec.tallies e ms) <->
  In c (firstn e (Spec.first_encounters ms)) /\ n = Spec.occurrences c ms.
Proof.
  unfold Spec.tallies. rewrite in_map_iff. split.
  - intros [c' [Heq Hin]]. injection Heq as -> <-. auto.
  - intros [Hin ->]. exists c. auto.
Qed.

Lemma occurrences_compat (a b : vec4) (ms : list vec4) :
  xyz_eqb a b = true -> Spec.occurrences a ms = Spec.occurrences b ms.
Proof.
  intros Hab. unfold Spec.occurrences. f_equal.
  induction ms as [| x ms IH]; [reflexivity |].
  cbn [List.filter]. rewrite (xyz_eqb_compat a b x Hab), IH. reflexivity.
Qed.

(** X10: the colour returned is never made up: with a bucket and a selected
    sub-sample, it has the channels of one of the selected sub-samples,
    one of the first [e] distinct colours met, and its alpha is 1; in
    particular the rank 2 fallback to the centre pixel is not taken. *)
Theorem colorSample_returns_sampled_color :
  (0 < e)%nat ->
  Spec.matching_colors u f U gl_FragCoord <> [] ->
  exists c : vec4,
    In c (Spec.matching_colors u f U gl_FragCoord) /\
    In c (firstn e (Spec.first_encounters (Spec.matching_colors u f U gl_FragCoord))) /\
    Spec.same_xyz (main e u f U gl_FragCoord) c /\
    vw (main e u f U gl_FragCoord) = 1.
Proof.
  intros He Hsome.
  destruct (main_holds_greatest_tally He Hsome) as [held [c [n [Hin [Hc [Hmain _]]]]]].
  apply tallies_in in Hin as [Hin _].
  exists c. split_and!.
  - apply first_encounters_in. eapply in_firstn, Hin.
  - exact Hin.
  - rewrite Hmain. apply xyz_eqb_same in Hc. exact Hc.
  - rewrite Hmain. reflexivity.
Qed.

(** X11: when the selected sub-samples have no more distinct colours than the
    sampler has buckets, the colour returned is a most frequent one: no
    selected colour occurs more often. *)
Theorem colorSample_most_frequent_within_capacity :
  (0 < e)%nat ->
  Spec.matching_colors u f U gl_FragCoord <> [] ->
  (length (Spec.first_encounters (Spec.matching_colors u f U gl_FragCoord)) <= e)%nat ->
  exists c : vec4,
    In c (Spec.matching_colors u f U gl_FragCoord) /\
    Spec.same_xyz (main e u f U gl_FragCoord) c /\
    forall m, In m (Spec.matching_colors u f U gl_FragCoord) ->
      (Spec.occurrences m (Spec.matching_colors u f U gl_FragCoord)
       <= Spec.occurrences c (Spec.matching_colors u f U gl_FragCoord))%nat.
Proof.
  intros He Hsome Hfit.
  destruct (main_holds_greatest_tally He Hsome) as [held [c [n [Hin [Hc [Hmain Hmax]]]]]].
  set (ms := Spec.matching_colors u f U gl_FragCoord) in *.
  apply tallies_in in Hin as [Hin ->].
  exists c. split_and!.
  - apply first_encounters_in. eapply in_firstn, Hin.
  - rewrite Hmain. apply xyz_eqb_same in Hc. exact Hc.
  - intros m Hm.
    assert (Hseen : existsb (fun c' => xyz_eqb c' m) (Spec.first_encounters ms) = true).
    { rewrite first_encounters_seen. apply existsb_exists. exists m.
      split; [exact Hm | apply xyz_eqb_refl]. }
    apply existsb_exists in Hseen as [c' [Hc' Hc'm]].
    rewrite <- (occurrences_compat c' m ms Hc'm).
    apply (Hmax c'). apply tallies_in. split; [| reflexivity].
    rewrite firstn_all2 by exact Hfit. exact Hc'.
Qed.

End ColorSampleResult.

(** ** The matcher's scan *)

Section CharacterSelectionScan.
Import Glsl CharacterSelection.

Variable T : nat.
Variable U : uniforms.
Variable gl_FragCoord : vec2.

(** X12: with an empty palette the scan compares nothing, and an opaque cell
    gets the colour of atlas index 0, the value [g] starts from. *)
Theorem characterSelection_empty_palette :
  transparent T U gl_FragCoord = false ->
  ux (u_charPaletteSize U) <= 0 ->
  scan T U gl_FragCoord = (1e20, 0) /\
  main T U gl_FragCoord = Spec.encode_index 0 /\
  vx (main T U gl_FragCoord) == 0 /\ vy (main T U gl_FragCoord) == 0 /\
  vz (main T U gl_FragCoord) = 0 /\ vw (main T U gl_FragCoord) = 1.
Proof.
  intros Hopaque Hempty.
  assert (Hscan : scan T U gl_FragCoord = (1e20, 0)).
  { unfold scan. cbn [for_loop]. unfold scan_body at 1.
    assert (Hstop : Qle_bool (ux (u_charPaletteSize U)) (floatn 0) = true)
      by (apply Qle_bool_iff; exact Hempty).
    rewrite Hstop. reflexivity. }
  split; [exact Hscan |].
  rewrite (main_opaque T U gl_FragCoord Hopaque), Hscan.
  split; [reflexivity |]. split_and!; reflexivity.
Qed.

Lemma sum_nonneg (l : list Q) : (forall x, In x l -> 0 <= x) -> 0 <= Spec.sum l.
Proof.
  induction l as [| y l IH]; intros Hnn; [apply Qle_refl |].
  cbn [Spec.sum fold_right]. fold (Spec.sum l).
  assert (0 <= y) by (apply Hnn; left; reflexivity).
  assert (0 <= Spec.sum l) by (apply IH; intros z Hz; apply Hnn; right; exact Hz).
  lra.
Qed.

Lemma sum_zero_terms (l : list Q) :
  (forall x, In x l -> 0 <= x) -> Spec.sum l == 0 -> forall x, In x l -> x == 0.
Proof.
  induction l as [| y l IH]; intros Hnn Hsum x Hin; [destruct Hin |].
  assert (Hy : 0 <= y) by (apply Hnn; left; reflexivity).
  assert (Hl : 0 <= Spec.sum l)
    by (apply sum_nonneg; intros z Hz; apply Hnn; right; exact Hz).
  cbn [Spec.sum fold_right] in Hsum. fold (Spec.sum l) in Hsum.
  destruct Hin as [<- | Hin]; [lra |].
  apply IH; [intros z Hz; apply Hnn; right; exact Hz | lra | exact Hin].
Qed.

Lemma square_nonneg (d : Q) : 0 <= d * d.
Proof.
  destruct (Qlt_le_dec d 0) as [Hneg | Hpos].
  - assert (Hopp : d * d == (- d) * (- d)) by ring.
    rewrite Hopp. apply Qmult_le_0_compat; lra.
  - apply Qmult_le_0_compat; lra.
Qed.

Lemma square_zero (d : Q) : d * d == 0 -> d == 0.
Proof.
  intros H. destruct (Qeq_dec d 0) as [Hz | Hnz]; [exact Hz |].
  exfalso. apply Qmult_integral in H. tauto.
Qed.

(** A glyph has error zero exactly when it equals the mask on every
    sub-sample. *)
Lemma ssd_zero_iff (g : Q) :
  ssd T U gl_FragCoord g == 0 <->
  forall u f, (u < T)%nat -> (f < T)%nat ->
    vx (mask T U gl_FragCoord u f) == vx (glyph T U g u f).
Proof.
  rewrite ssd_sum. split.
  - intros Hsum u f Hu Hf.
    assert (Hterm : (vx (mask T U gl_FragCoord u f) - vx (glyph T U g u f))
                    * (vx (mask T U gl_FragCoord u f) - vx (glyph T U g u f)) == 0).
    { apply (sum_zero_terms _ (fun x Hx => ltac:(
               apply in_map_iff in Hx as [uf [<- _]]; apply square_nonneg)) Hsum).
      apply in_map_iff. exists (u, f). split; [reflexivity |].
      apply traversal_in. split; assumption. }
    apply square_zero in Hterm. lra.
  - intros Hsame.
    assert (Hall : forall x,
              In x (map (fun uf =>
                      (vx (mask T U gl_FragCoord (fst uf) (snd uf))
                       - vx (glyph T U g (fst uf) (snd uf)))
                      * (vx (mask T U gl_FragCoord (fst uf) (snd uf))
                         - vx (glyph T U g (fst uf) (snd uf))))
                    (Spec.traversal T T)) -> x == 0).
    { intros x Hx. apply in_map_iff in Hx as [[u f] [<- Hin]].
      apply traversal_in in Hin as [Hu Hf]. cbn [fst snd].
      rewrite (Hsame u f Hu Hf). ring. }
    revert Hall. generalize (map (fun uf : nat * nat =>
                      (vx (mask T U gl_FragCoord (fst uf) (snd uf))
                       - vx (glyph T U g (fst uf) (snd uf)))
                      * (vx (mask T U gl_FragCoord (fst uf) (snd uf))
                         - vx (glyph T U g (fst uf) (snd uf))))
                    (Spec.traversal T T)).
    intros l Hall. induction l as [| x l IH]; [reflexivity |].
    cbn [Spec.sum fold_right]. fold (Spec.sum l).
    rewrite (Hall x (or_introl eq_refl)), IH; [ring |].
    intros y Hy. apply Hall. right. exact Hy.
Qed.

Lemma ssd_nonneg (g : Q) : 0 <= ssd T U gl_FragCoord g.
Proof.
  rewrite ssd_sum. apply sum_nonneg.
  intros x Hx. apply in_map_iff in Hx as [uf [<- _]]. apply square_nonneg.
Qed.

(** X13: an exact match is not missed: when a scanned palette entry [u0] (one
    of the first 1024) names a glyph equal to the mask on every
    sub-sample, the output encodes the glyph of an entry at or before
    [u0] that is equal to the mask on every sub-sample too. *)
Theorem characterSelection_exact_match_found (u0 : nat) :
  transparent T U gl_FragCoord = false ->
  Spec.scanned_entry U u0 ->
  (forall u f, (u < T)%nat -> (f < T)%nat ->
     vx (mask T U gl_FragCoord u f) == vx (glyph T U (m U u0) u f)) ->
  exists best : nat,
    (best <= u0)%nat /\
    main T U gl_FragCoord = Spec.encode_index (m U best) /\
    forall u f, (u < T)%nat -> (f < T)%nat ->
      vx (mask T U gl_FragCoord u f) == vx (glyph T U (m U best) u f).
Proof.
  intros Hopaque [Hu0 Hentry] Hsame.
  pose proof (transparent_false_font_size T U gl_FragCoord Hopaque) as HT.
  pose proof (f_positive T HT) as Hf.
  assert (Hzero : ssd T U gl_FragCoord (m U u0) / f T == 0).
  { apply ssd_zero_iff in Hsame. rewrite Hsame. field. lra. }
  pose proof (scan_first_minimum
                (fun u => ssd T U gl_FragCoord (m U u) / f T) (m U)
                (ux (u_charPaletteSize U)) 1024 0 1e20 0) as Hscan.
  change (for_loop 0 1024 _ (1e20, 0)) with (scan T U gl_FragCoord) in Hscan.
  destruct Hscan as [[_ Hall] | [best [Hb [Hbt [Heq [_ [Hbefore Hafter]]]]]]].
  - exfalso.
    assert (H : 1e20 <= ssd T U gl_FragCoord (m U u0) / f T)
      by (apply Hall; [lia | exact Hentry]).
    rewrite Hzero in H. revert H. apply Qlt_not_le. reflexivity.
  - assert (Hnn : 0 <= ssd T U gl_FragCoord (m U best) / f T).
    { apply Qle_shift_div_l; [exact Hf |]. rewrite Qmult_0_l. apply ssd_nonneg. }
    assert (Hle : (best <= u0)%nat).
    { destruct (Nat.le_gt_cases best u0) as [H | H]; [exact H |]. exfalso.
      assert (Hlt : ssd T U gl_FragCoord (m U best) / f T
                    < ssd T U gl_FragCoord (m U u0) / f T) by (apply Hbefore; lia).
      rewrite Hzero in Hlt. lra. }
    assert (Hbest : ssd T U gl_FragCoord (m U best) / f T == 0).
    { destruct (Nat.eq_dec best u0) as [-> | Hne]; [exact Hzero |].
      assert (H : ssd T U gl_FragCoord (m U best) / f T
                  <= ssd T U gl_FragCoord (m U u0) / f T)
        by (apply Hafter; [lia | exact Hentry]).
      rewrite Hzero in H. lra. }
    exists best. split; [exact Hle |].
    split; [rewrite (main_opaque T U gl_FragCoord Hopaque), Heq; reflexivity |].
    apply ssd_zero_iff.
    assert (Hmul : ssd T U gl_FragCoord (m U best)
                   == ssd T U gl_FragCoord (m U best) / f T * f T) by (field; lra).
    rewrite Hmul, Hbest. ring.
Qed.

End CharacterSelectionScan.

(** ** The base class, once resolved *)

Section BaseClassCache.
Import Js BaseClass.

(** X14: what [getBaseClass] can return: the value found through the imported
    namespace, which is anything but [undefined], or else the global of
    [window], which is a function. *)
Theorem getBaseClass_returns (renderers window : option object) (cls : value) :
  getBaseClass renderers window = Return cls ->
  (strategy1 renderers = Some cls /\ typeof cls <> "undefined"%string) \/
  (strategy1 renderers = None /\
   typeof cls = "function"%string /\
   exists w, window = Some w /\ get w "P5AsciifyAbstractFeatureRenderer2D" = cls).
Proof.
  unfold getBaseClass.
  destruct (strategy1 renderers) as [c1 |] eqn:H1.
  - intros [= <-]. left. split; [reflexivity |].
    unfold strategy1 in H1. destruct renderers as [ns |]; [| discriminate H1].
    destruct (truthy (get ns "renderer2d")
              && truthy (prop (get ns "renderer2d") "feature")
              && negb (String.eqb
                         (typeof (prop (prop (get ns "renderer2d") "feature")
                                    "P5AsciifyAbstractFeatureRenderer2D"))
                         "undefined")) eqn:Htest; [| discriminate H1].
    injection H1 as <-.
    apply andb_true_iff in Htest as [_ Htype]. apply negb_true_iff in Htype.
    apply String.eqb_neq in Htype. exact Htype.
  - destruct (strategy2 window) as [c2 |] eqn:H2; [| discriminate].
    intros [= <-]. right. split; [reflexivity |].
    unfold strategy2 in H2. destruct window as [w |]; [| discriminate H2].
    destruct (truthy (get w "P5AsciifyAbstractFeatureRenderer2D")
              && String.eqb (typeof (get w "P5AsciifyAbstractFeatureRenderer2D"))
                   "function") eqn:Htest; [| discriminate H2].
    injection H2 as <-.
    apply andb_true_iff in Htest as [_ Htype]. apply String.eqb_eq in Htype.
    split; [exact Htype |]. exists w. split; reflexivity.
Qed.

(** X15: the lookup is done once: after a call that returned a class
    (a value other than [null]), every later call returns that class
    without looking again, whatever has become of the namespace and of
    [window]; after a call that threw, or one that found [null] under the
    namespace and returned it, the variable is still [null] and the next
    call looks again. *)
Theorem getCachedBaseClass_caches (renderers window : option object) :
  (forall cls,
     getBaseClass renderers window = Return cls -> cls <> Null ->
     forall renderers' window',
       Cache.getCachedBaseClass renderers' window'
         (snd (Cache.getCachedBaseClass renderers window Null))
       = (Return cls, cls)) /\
  (getBaseClass renderers window = Return Null \/
   (exists message, getBaseClass renderers window = Throw message) ->
   snd (Cache.getCachedBaseClass renderers window Null) = Null /\
   forall renderers' window',
     fst (Cache.getCachedBaseClass renderers' window'
            (snd (Cache.getCachedBaseClass renderers window Null)))
     = getBaseClass renderers' window').
Proof.
  split.
  - intros cls Hcls Hclass renderers' window'. unfold Cache.getCachedBaseClass at 2.
    rewrite Hcls. cbn [snd]. destruct cls; try reflexivity. contradiction.
  - intros Hnone.
    assert (Hvar : snd (Cache.getCachedBaseClass renderers window Null) = Null).
    { unfold Cache.getCachedBaseClass.
      destruct Hnone as [-> | [message ->]]; reflexivity. }
    split; [exact Hvar |].
    intros renderers' window'. rewrite Hvar. unfold Cache.getCachedBaseClass.
    destruct (getBaseClass renderers' window'); reflexivity.
Qed.

End BaseClassCache.

(** ** The merged options *)

Section OptionsFacts.
Import Js Options.

(** X16: the merged options define every key the argument defines and every
    option the defaults define, and nothing else; merging them again
    changes nothing. *)
Theorem mergedOptions_keys (options : option (gmap string value)) :
  dom (mergedOptions options) = dom (defaulted options) ∪ dom ACCURATE_DEFAULT_OPTIONS /\
  dom ACCURATE_DEFAULT_OPTIONS
  = list_to_set [ "enabled"; "characters"; "characterColor"; "characterColorMode";
                  "backgroundColor"; "backgroundColorMode"; "invertMode";
                  "rotationAngle"; "flipHorizontally"; "flipVertically" ]%string /\
  mergedOptions (Some (mergedOptions options)) = mergedOptions options.
Proof.
  split; [| split].
  - unfold mergedOptions, spread. apply dom_union_L.
  - unfold ACCURATE_DEFAULT_OPTIONS. rewrite dom_list_to_map_L. reflexivity.
  - unfold mergedOptions, spread. cbn [defaulted].
    apply map_eq. intros key. rewrite !lookup_union.
    destruct (defaulted options !! key), (ACCURATE_DEFAULT_OPTIONS !! key); reflexivity.
Qed.

End OptionsFacts.

(** ** The passes composed *)

Section PipelineFacts.
Import Glsl.

Lemma sum_constant (L : Q) (l : list Q) :
  (forall x, In x l -> x == L) -> Spec.sum l == floatn (length l) * L.
Proof.
  induction l as [| x l IH]; intros H.
  - cbn. change (floatn 0) with 0. lra.
  - change (length (x :: l)) with (1 + length l)%nat.
    rewrite floatn_plus. change (floatn 1) with 1.
    cbn [Spec.sum fold_right]. fold (Spec.sum l).
    rewrite IH by (intros y Hy; apply H; right; exact Hy).
    rewrite (H x (or_introl eq_refl)). lra.
Qed.

Lemma brightnessSample_constant (u f : nat) (color : vec4)
    (U : BrightnessSample.uniforms) (fragment : vec2) :
  (0 < u)%nat -> (0 < f)%nat ->
  (forall k, BrightnessSample.u_inputImage U k = color) ->
  vx (BrightnessSample.main u f U fragment) == luminance color.
Proof.
  intros Hu Hf Himage. unfold BrightnessSample.main. cbn [vx vec4_of vec3_splat tx].
  rewrite accumulate_sum, sum_constant with (L := luminance color).
  - rewrite length_map, traversal_length.
    assert (Hpos : 0 < floatn (u * f)).
    { change 0 with (floatn 0). apply floatn_lt. nia. }
    field. lra.
  - intros x Hx. apply in_map_iff in Hx as [sg [<- _]].
    unfold texture2D. rewrite Himage. reflexivity.
Qed.

(** X17: a capture buffer of one opaque colour, through the passes: every
    pixel is as bright as the average of its cell, so the splitter's mask
    is opaque white everywhere; the colour sampler with rank 1 then returns
    the channels of that colour, and with rank 2, no sub-sample being
    selected, the centre pixel, which is that colour too.  The brightness
    texture is any texture whose texels the brightness sampler wrote, and
    the mask any texture whose texels the splitter wrote. *)
Theorem pipeline_uniform_image (e u f : nat) (color : vec4)
    (Us : BrightnessSample.uniforms) (Ub : BrightnessSplit.uniforms)
    (Uc : ColorSample.uniforms) :
  (0 < e)%nat -> (0 < u)%nat -> (0 < f)%nat ->
  BrightnessSplit.EPSILON <= vw color ->
  (forall k, BrightnessSample.u_inputImage Us k = color) ->
  (forall k, BrightnessSplit.u_inputImage Ub k = color) ->
  (forall k, ColorSample.u_inputImage Uc k = color) ->
  (forall k, exists fragment,
     BrightnessSplit.u_brightnessTexture Ub k = BrightnessSample.main u f Us fragment) ->
  (forall k, exists fragment,
     ColorSample.u_inputImageBW Uc k = BrightnessSplit.main Ub fragment) ->
  (forall fragment, BrightnessSplit.main Ub fragment = Vec4 1 1 1 1) /\
  (forall fragment, ColorSample.u_colorRank Uc = 1%Z ->
     Spec.same_xyz (ColorSample.main e u f Uc fragment) color /\
     vw (ColorSample.main e u f Uc fragment) = 1) /\
  (forall fragment, ColorSample.u_colorRank Uc = 2%Z ->
     ColorSample.main e u f Uc fragment = vec4_of (xyz color) 1).
Proof.
  intros He Hu Hf Halpha Hs Hb Hc Hbt Hbw.
  assert (Hsplit : forall fragment, BrightnessSplit.main Ub fragment = Vec4 1 1 1 1).
  { intros fragment. unfold BrightnessSplit.main.
    assert (Horig : BrightnessSplit.originalColor Ub fragment = color).
    { unfold BrightnessSplit.originalColor, texture2D. apply Hb. }
    rewrite Horig.
    assert (Hopaque : ltb (vw color) BrightnessSplit.EPSILON = false)
      by (apply ltb_ge; exact Halpha).
    rewrite Hopaque. cbv zeta.
    assert (Hdiff : ltb (BrightnessSplit.fragmentBrightness Ub fragment
                         - BrightnessSplit.averageBrightness Ub fragment)
                        (- BrightnessSplit.EPSILON) = false).
    { apply ltb_ge. unfold BrightnessSplit.fragmentBrightness. rewrite Horig.
      unfold BrightnessSplit.averageBrightness, texture2D. cbv zeta.
      match goal with
      | |- context [BrightnessSplit.u_brightnessTexture Ub ?k] =>
          destruct (Hbt k) as [fragment' ->]
      end.
      rewrite (brightnessSample_constant u f color Us fragment' Hu Hf Hs).
      unfold BrightnessSplit.EPSILON. lra. }
    rewrite Hdiff. reflexivity. }
  assert (Hmask : forall k, ColorSample.u_inputImageBW Uc k = Vec4 1 1 1 1).
  { intros k. destruct (Hbw k) as [fragment ->]. apply Hsplit. }
  split_and!.
  - exact Hsplit.
  - intros fragment Hrank.
    assert (Hsel : forall coord, ColorSample.selected Uc coord = true).
    { intros coord. unfold ColorSample.selected, texture2D. rewrite Hmask, Hrank.
      reflexivity. }
    assert (Hsome : Spec.matching_colors u f Uc fragment <> []).
    { unfold Spec.matching_colors, Spec.sub_samples.
      pose proof (traversal_length u f) as Hlen.
      destruct (Spec.traversal u f) as [| vk l]; [cbn in Hlen; nia |].
      cbn [map List.filter]. rewrite Hsel. discriminate. }
    destruct (main_holds_greatest_tally e u f Uc fragment He Hsome)
      as [held [c [n [Hin [Hheld [Hmain _]]]]]].
    assert (Hcol : c = color).
    { apply tallies_in in Hin as [Hin _]. apply in_firstn, first_encounters_in in Hin.
      unfold Spec.matching_colors in Hin. apply in_map_iff in Hin as [k [<- _]].
      apply Hc. }
    subst c. rewrite Hmain. split; [| reflexivity].
    apply xyz_eqb_same in Hheld. exact Hheld.
  - intros fragment Hrank.
    assert (Hnone : forall v k, (v < u)%nat -> (k < f)%nat ->
              ColorSample.selected Uc (ColorSample.s u f Uc fragment v k) = false).
    { intros v k _ _. unfold ColorSample.selected, texture2D. rewrite Hmask, Hrank.
      reflexivity. }
    unfold ColorSample.main, ColorSample.most_frequent.
    rewrite sampled_matching, (matching_colors_nil _ _ _ _ Hnone).
    cbn [fold_left]. unfold ColorSample.initial. rewrite most_frequent_initial, Hrank.
    cbn. unfold ColorSample.v, texture2D. cbv zeta. rewrite Hc. reflexivity.
Qed.

Lemma brightnessSplit_values (S : BrightnessSplit.uniforms) (fragment : vec2) :
  BrightnessSplit.main S fragment = Vec4 0 0 0 0 \/
  BrightnessSplit.main S fragment = Vec4 0 0 0 1 \/
  BrightnessSplit.main S fragment = Vec4 1 1 1 1.
Proof.
  unfold BrightnessSplit.main.
  destruct (ltb _ BrightnessSplit.EPSILON); [left; reflexivity |]. cbv zeta.
  destruct (ltb _ (- BrightnessSplit.EPSILON)); [right; left | right; right]; reflexivity.
Qed.

(** X18: on a mask the splitter wrote, the matcher writes the transparent
    sentinel exactly when every sub-sample of the cell is the transparent
    black the splitter writes for a transparent source pixel; and what the
    matcher compares glyphs with is binary: each sub-sample's first channel
    is 0 or 1. *)
Theorem characterSelection_sentinel_iff_mask_clear (T : nat)
    (U : CharacterSelection.uniforms) (gl_FragCoord : vec2) :
  (forall k, exists S fragment,
     CharacterSelection.u_sketchTexture U k = BrightnessSplit.main S fragment) ->
  (CharacterSelection.main T U gl_FragCoord = Vec4 0 0 0 0 <->
   forall u f, (u < T)%nat -> (f < T)%nat ->
     CharacterSelection.mask T U gl_FragCoord u f = Vec4 0 0 0 0) /\
  (forall u f, vx (CharacterSelection.mask T U gl_FragCoord u f) = 0 \/
               vx (CharacterSelection.mask T U gl_FragCoord u f) = 1).
Proof.
  intros Hsketch.
  assert (Hmask : forall u f,
            CharacterSelection.mask T U gl_FragCoord u f = Vec4 0 0 0 0 \/
            CharacterSelection.mask T U gl_FragCoord u f = Vec4 0 0 0 1 \/
            CharacterSelection.mask T U gl_FragCoord u f = Vec4 1 1 1 1).
  { intros u f. unfold CharacterSelection.mask, texture2D.
    match goal with
    | |- context [CharacterSelection.u_sketchTexture U ?k] =>
        destruct (Hsketch k) as [S [fragment ->]]
    end.
    apply brightnessSplit_values. }
  split.
  - split.
    + intros Hmain u f Hu Hf.
      destruct (CharacterSelection.transparent T U gl_FragCoord) eqn:Ht.
      * pose proof (proj1 (transparent_true_iff T U gl_FragCoord) Ht u f Hu Hf) as Hclear.
        destruct (Hmask u f) as [H | [H | H]]; [exact H | |];
          exfalso; apply Hclear; rewrite H; reflexivity.
      * rewrite (main_opaque T U gl_FragCoord Ht) in Hmain. discriminate Hmain.
    + intros Hclear. unfold CharacterSelection.main.
      assert (Ht : CharacterSelection.transparent T U gl_FragCoord = true).
      { apply transparent_true_iff. intros u f Hu Hf. rewrite (Hclear u f Hu Hf).
        cbn. apply Qlt_irrefl. }
      rewrite Ht. reflexivity.
  - intros u f. destruct (Hmask u f) as [-> | [-> | ->]]; cbn; auto.
Qed.

(** X19: a capture buffer whose pixels all have an alpha below [EPSILON],
    through the passes: the mask is transparent black everywhere, the
    matcher writes the transparent sentinel for every cell, the colour
    sampler with rank 1 writes opaque black, and with rank 2 (and a bucket
    and a sub-sample) the channels of a pixel of the capture buffer. *)
Theorem pipeline_transparent_image (T e u f : nat)
    (Ub : BrightnessSplit.uniforms) (Uc : ColorSample.uniforms)
    (Um : CharacterSelection.uniforms) :
  (forall k, vw (BrightnessSplit.u_inputImage Ub k) < BrightnessSplit.EPSILON) ->
  (forall k, exists fragment,
     ColorSample.u_inputImageBW Uc k = BrightnessSplit.main Ub fragment) ->
  (forall k, exists fragment,
     CharacterSelection.u_sketchTexture Um k = BrightnessSplit.main Ub fragment) ->
  (forall fragment, BrightnessSplit.main Ub fragment = Vec4 0 0 0 0) /\
  (forall fragment, CharacterSelection.main T Um fragment = Vec4 0 0 0 0) /\
  (forall fragment, ColorSample.u_colorRank Uc = 1%Z ->
     ColorSample.main e u f Uc fragment = Vec4 0 0 0 1) /\
  (forall fragment, ColorSample.u_colorRank Uc = 2%Z ->
     (0 < e)%nat -> (0 < u)%nat -> (0 < f)%nat ->
     exists k, Spec.same_xyz (ColorSample.main e u f Uc fragment)
                 (ColorSample.u_inputImage Uc k) /\
               vw (ColorSample.main e u f Uc fragment) = 1).
Proof.
  intros Halpha Hbw Hsketch.
  assert (Hsplit : forall fragment, BrightnessSplit.main Ub fragment = Vec4 0 0 0 0).
  { intros fragment. unfold BrightnessSplit.main.
    assert (Hclear : ltb (vw (BrightnessSplit.originalColor Ub fragment))
                       BrightnessSplit.EPSILON = true).
    { apply ltb_lt. unfold BrightnessSplit.originalColor, texture2D. apply Halpha. }
    rewrite Hclear. reflexivity. }
  assert (Hmask : forall k, ColorSample.u_inputImageBW Uc k = Vec4 0 0 0 0).
  { intros k. destruct (Hbw k) as [fragment ->]. apply Hsplit. }
  split_and!.
  - exact Hsplit.
  - intros fragment. unfold CharacterSelection.main.
    assert (Ht : CharacterSelection.transparent T Um fragment = true).
    { apply transparent_true_iff. intros a b _ _.
      unfold CharacterSelection.mask, texture2D.
      match goal with
      | |- context [CharacterSelection.u_sketchTexture Um ?k] =>
          destruct (Hsketch k) as [fragment' ->]
      end.
      rewrite Hsplit. cbn. apply Qlt_irrefl. }
    rewrite Ht. reflexivity.
  - intros fragment Hrank.
    assert (Hnone : forall v k, (v < u)%nat -> (k < f)%nat ->
              ColorSample.selected Uc (ColorSample.s u f Uc fragment v k) = false).
    { intros v k _ _. unfold ColorSample.selected, texture2D. rewrite Hmask, Hrank.
      reflexivity. }
    unfold ColorSample.main, ColorSample.most_frequent.
    rewrite sampled_matching, (matching_colors_nil _ _ _ _ Hnone).
    cbn [fold_left]. unfold ColorSample.initial. rewrite most_frequent_initial, Hrank.
    reflexivity.
  - intros fragment Hrank He Hu Hf.
    assert (Hsel : forall coord, ColorSample.selected Uc coord = true).
    { intros coord. unfold ColorSample.selected, texture2D. rewrite Hmask, Hrank.
      reflexivity. }
    assert (Hsome : Spec.matching_colors u f Uc fragment <> []).
    { unfold Spec.matching_colors, Spec.sub_samples.
      pose proof (traversal_length u f) as Hlen.
      destruct (Spec.traversal u f) as [| vk l]; [cbn in Hlen; nia |].
      cbn [map List.filter]. rewrite Hsel. discriminate. }
    destruct (main_holds_greatest_tally e u f Uc fragment He Hsome)
      as [held [c [n [Hin [Hheld [Hmain _]]]]]].
    apply tallies_in in Hin as [Hin _]. apply in_firstn, first_encounters_in in Hin.
    unfold Spec.matching_colors in Hin. apply in_map_iff in Hin as [k [<- _]].
    exists k. rewrite Hmain. split; [| reflexivity].
    apply xyz_eqb_same in Hheld. exact Hheld.
Qed.

End PipelineFacts.

(** ** The calls of [render] *)

Section RenderFacts.
Import Js Renderer Render Trace.
Context {Host : Type}.
Variable view : Host -> HostView.
Variable this : P5AsciifyAccurateRenderer Host.

(** X20: [render()] is seven passes, one for each framebuffer it writes, in
    the order brightness sample, brightness split, primary colour,
    secondary colour, transform, rotation, character; each pass is
    bracketed by [begin()] and [end()] of its framebuffer, and no
    framebuffer is bound or released inside a pass. *)
Theorem render_passes_in_sequence :
  render view this
  = flat_map (fun o => begin o :: pass_of o (render view this) ++ [end_ o]) targets /\
  forall o, Forall (fun c => ~ binds c) (pass_of o (render view this)).
Proof.
  split.
  - unfold render, primaryColorPass, secondaryColorPass, colorPass;
    destruct (strict_equals_number
                (option_value (_options (super this)) "characterColorMode") 1);
    destruct (strict_equals_number
                (option_value (_options (super this)) "backgroundColorMode") 1);
    reflexivity.
  - intros o.
    unfold render, primaryColorPass, secondaryColorPass, colorPass;
    destruct (strict_equals_number
                (option_value (_options (super this)) "characterColorMode") 1);
    destruct (strict_equals_number
                (option_value (_options (super this)) "backgroundColorMode") 1);
    destruct o; cbn;
      repeat (constructor; [intros [] |]); constructor.
Qed.

(** X21: a colour pass is a flat fill with the configured colour exactly
    when the mode option is the number 1: the pass is then the one
    [background] call, and otherwise it runs the colour sampler, with rank
    1 for the primary colour and rank 2 for the secondary; when both modes
    are 1 the colour sampler is not used at all; and a mode given as a
    string, as the defaults' ["sampled"] (or ["fixed"]), is not the number
    1. *)
Theorem render_fixed_color_mode :
  let options := _options (super this) in
  let t := render view this in
  let fixed (mode : string) := strict_equals_number (option_value options mode) 1 in
  (fixed "characterColorMode" = true ->
   pass_of this_primaryColorFramebuffer t
   = [background [option_value options "characterColor"]]) /\
  (fixed "backgroundColorMode" = true ->
   pass_of this_secondaryColorFramebuffer t
   = [background [option_value options "backgroundColor"]]) /\
  (fixed "characterColorMode" = true -> fixed "backgroundColorMode" = true ->
   Forall (fun c => ~ uses this_colorSampleShader c) t) /\
  (fixed "characterColorMode" = false ->
   In (shader this_colorSampleShader) (pass_of this_primaryColorFramebuffer t) /\
   In (setUniform this_colorSampleShader "u_colorRank" (number 1))
      (pass_of this_primaryColorFramebuffer t)) /\
  (fixed "backgroundColorMode" = false ->
   In (shader this_colorSampleShader) (pass_of this_secondaryColorFramebuffer t) /\
   In (setUniform this_colorSampleShader "u_colorRank" (number 2))
      (pass_of this_secondaryColorFramebuffer t)) /\
  (forall key mode, options !! key = Some (Str mode) -> fixed key = false).
Proof.
  intros options t fixed. subst options t fixed. cbv beta.
  split_and!.
  - intros Hc. unfold render, primaryColorPass, secondaryColorPass, colorPass.
    rewrite Hc. reflexivity.
  - intros Hb. unfold render, primaryColorPass, secondaryColorPass, colorPass.
    rewrite Hb.
    destruct (strict_equals_number
                (option_value (_options (super this)) "characterColorMode") 1);
      reflexivity.
  - intros Hc Hb. unfold render, primaryColorPass, secondaryColorPass, colorPass.
    rewrite Hc, Hb. cbn.
    repeat (constructor; [intros Hu; cbn in Hu; first [contradiction | discriminate] |]).
    constructor.
  - intros Hc. unfold render, primaryColorPass, secondaryColorPass, colorPass.
    rewrite Hc. cbn. split; [right; left; reflexivity |].
    do 7 right. left. reflexivity.
  - intros Hb. unfold render, primaryColorPass, secondaryColorPass, colorPass.
    rewrite Hb.
    destruct (strict_equals_number
                (option_value (_options (super this)) "characterColorMode") 1);
      cbn; (split; [right; left; reflexivity |]); do 7 right; left; reflexivity.
  - intros key mode Hmode. unfold option_value. rewrite Hmode. reflexivity.
Qed.

(** X22: a pass never samples the framebuffer it writes, and a framebuffer
    that [render()] writes is only sampled by a later pass; any other
    texture sampled is the capture buffer, the font atlas or the palette. *)
Theorem render_samples_earlier_passes (target : object) (s : program) (name : string)
    (o : object) :
  In (setUniform s name (sampler o)) (pass_of target (render view this)) ->
  o <> target /\
  (forall i, place o = Some i -> exists j, place target = Some j /\ (i < j)%nat) /\
  (place o = None ->
   o = this_captureFramebuffer \/ o = this_fontManager_texture \/
   o = this_characterColorPalette_framebuffer).
Proof.
  unfold render, primaryColorPass, secondaryColorPass, colorPass;
  destruct (strict_equals_number
              (option_value (_options (super this)) "characterColorMode") 1);
  destruct (strict_equals_number
              (option_value (_options (super this)) "backgroundColorMode") 1);
  destruct target; cbn; intros H;
  repeat (destruct H as [H | H]; [try discriminate H; injection H as <- <- <- |]);
  try contradiction.
  all: split_and!.
  all: try discriminate.
  all: try (intros i Hi; vm_compute in Hi; try discriminate Hi; injection Hi as <-;
     eexists; split; [reflexivity | lia]).
  all: try (intros Hn; vm_compute in Hn; try discriminate Hn; tauto).
Qed.

End RenderFacts.

Section LifecycleFacts.
Import Js Renderer Render Trace ShaderSource.
Context {Host : Type}.
Variable view : Host -> HostView.

Lemma concat_empty_app (l1 l2 : list string) :
  String.concat "" (l1 ++ l2) = (String.concat "" l1 ++ String.concat "" l2)%string.
Proof.
  induction l1 as [| x l1 IH]; [reflexivity |].
  destruct l1 as [| y l1].
  - cbn [app String.concat]. destruct l2 as [| z l2].
    + rewrite append_empty. reflexivity.
    + reflexivity.
  - change (String.concat "" ((x :: y :: l1) ++ l2))
      with (x ++ "" ++ String.concat "" ((y :: l1) ++ l2))%string.
    rewrite IH.
    change (String.concat "" (x :: y :: l1))
      with (x ++ "" ++ String.concat "" (y :: l1))%string.
    rewrite !append_nil, append_assoc. reflexivity.
Qed.

Lemma declared_in_head (k : nat) (name : string) (l : list string) :
  includes (String.concat "" (firstn k l)) (name ++ ",") = true \/
  includes (String.concat "" (firstn k l)) (name ++ ";") = true ->
  declared name (String.concat "" l).
Proof.
  intros H. rewrite <- (firstn_skipn k l), concat_empty_app.
  destruct H as [H | H]; [left | right];
    apply occurs_in_append, includes_occurs; exact H.
Qed.

(** X23: for a renderer whose shaders have the sources the constructor and
    [resetShaders()] give them, every uniform [render()] sets on a shader
    is a name that the shader's fragment source has, followed by [,] or
    [;]. *)
Theorem render_sets_declared_uniforms (this : P5AsciifyAccurateRenderer Host)
    (s : program) (name : string) (v : uniform) :
  Spec.generated_from_current this ->
  fragSrc (_brightnessSplitShader this) = brightnessSplitShader ->
  In (setUniform s name v) (render view this) ->
  declared name (fragSrc (shader_of this s)).
Proof.
  intros [[_ Hk] [[_ Hb] [_ Hc]]] Hs.
  unfold render, primaryColorPass, secondaryColorPass, colorPass;
  destruct (strict_equals_number
              (option_value (_options (super this)) "characterColorMode") 1);
  destruct (strict_equals_number
              (option_value (_options (super this)) "backgroundColorMode") 1);
  cbn; intros H;
  repeat (destruct H as [H | H]; [try discriminate H; injection H as <- <- <- |]);
  try contradiction; cbn [shader_of]; rewrite ?Hk, ?Hb, ?Hc, ?Hs.
  all: try (apply (declared_in_head 5); vm_compute; tauto).
  all: try (apply (declared_in_head 3); vm_compute; tauto).
  all: try (apply (declared_in_head 4); vm_compute; tauto).
  all: unfold declared; rewrite <- !includes_occurs; vm_compute; tauto.
Qed.

(** X24: after [create] (or the constructor) and after
    [resizeFramebuffers()], the brightness sample pass draws one rectangle
    of [cols] x [rows], a fragment for each cell of the grid, and the
    brightness split pass one rectangle of the size of the capture buffer;
    [resetShaders()] keeps this so. *)
Theorem render_draws_one_fragment_per_cell
    (super_constructor :
       p5 -> Framebuffer -> P5AsciifyGrid -> P5AsciifyFontManager ->
       gmap string value -> Base Host)
    (super_resizeFramebuffers : Base Host -> Base Host) :
  let fits (this : P5AsciifyAccurateRenderer Host) :=
    List.filter draws (pass_of this_brightnessSampleFramebuffer (render view this))
    = [rect 0 0 (Glsl.floatn (cols (_grid (super this))))
         (Glsl.floatn (rows (_grid (super this))))] /\
    List.filter draws (pass_of this_brightnessSplitFramebuffer (render view this))
    = [rect 0 0 (Glsl.floatn (width (_captureFramebuffer (super this))))
         (Glsl.floatn (height (_captureFramebuffer (super this))))] in
  (forall p c g fm options, fits (create super_constructor p c g fm options)) /\
  (forall this, fits (resizeFramebuffers super_resizeFramebuffers this)) /\
  (forall this, fits this -> fits (resetShaders this)).
Proof.
  assert (Hfit : forall this : P5AsciifyAccurateRenderer Host,
    List.filter draws (pass_of this_brightnessSampleFramebuffer (render view this))
    = [rect 0 0 (Glsl.floatn (width (_brightnessSampleFramebuffer this)))
         (Glsl.floatn (height (_brightnessSampleFramebuffer this)))] /\
    List.filter draws (pass_of this_brightnessSplitFramebuffer (render view this))
    = [rect 0 0 (Glsl.floatn (width (_brightnessSplitFramebuffer this)))
         (Glsl.floatn (height (_brightnessSplitFramebuffer this)))]).
  { intros this.
    unfold render, primaryColorPass, secondaryColorPass, colorPass;
    destruct (strict_equals_number
                (option_value (_options (super this)) "characterColorMode") 1);
    destruct (strict_equals_number
                (option_value (_options (super this)) "backgroundColorMode") 1);
    split; reflexivity. }
  cbv zeta. split_and!.
  - intros p c g fm options. rewrite !(proj1 (Hfit _)), !(proj2 (Hfit _)).
    split; reflexivity.
  - intros this. rewrite !(proj1 (Hfit _)), !(proj2 (Hfit _)). split; reflexivity.
  - intros this. rewrite !(proj1 (Hfit _)), !(proj2 (Hfit _)).
    intros [H1 H2]. split; [exact H1 | exact H2].
Qed.

End LifecycleFacts.

(** ** Ranges *)

Section RangeFacts.
Import Glsl.

(** X25: on a capture buffer whose colour channels are within [0,1], the
    brightness the sampler writes for a cell of positive height and width
    is within [0,1] too: no channel of the brightness map is clipped when
    it is stored. *)
Theorem brightnessSample_output_in_unit_range
    (u f : nat) (U : BrightnessSample.uniforms) (gl_FragCoord : vec2) :
  (0 < u)%nat -> (0 < f)%nat ->
  (forall k, (0 <= vx (BrightnessSample.u_inputImage U k) <= 1) /\
             (0 <= vy (BrightnessSample.u_inputImage U k) <= 1) /\
             (0 <= vz (BrightnessSample.u_inputImage U k) <= 1)) ->
  0 <= vx (BrightnessSample.main u f U gl_FragCoord) <= 1 /\
  vy (BrightnessSample.main u f U gl_FragCoord)
  = vx (BrightnessSample.main u f U gl_FragCoord) /\
  vz (BrightnessSample.main u f U gl_FragCoord)
  = vx (BrightnessSample.main u f U gl_FragCoord).
Proof.
  intros Hu Hf Hrange. split; [| split; reflexivity].
  unfold BrightnessSample.main. cbn [vx vec4_of vec3_splat tx].
  assert (Hpos : 0 < floatn (u * f)).
  { change 0 with (floatn 0). apply floatn_lt. nia. }
  rewrite accumulate_sum.
  match goal with
  | |- 0 <= Spec.sum ?l / _ <= 1 =>
      destruct (sum_bounded l) as [H0 H1]
  end.
  - intros x Hx. apply in_map_iff in Hx as [sg [<- _]].
    unfold luminance, texture2D.
    destruct (Hrange (BrightnessSample.m u f U gl_FragCoord sg.1 sg.2))
      as [[Hx0 Hx1] [[Hy0 Hy1] [Hz0 Hz1]]].
    split; lra.
  - rewrite length_map, traversal_length in H1. fold (floatn (u * f)) in H1.
    split.
    + apply Qle_shift_div_l; [exact Hpos | lra].
    + apply Qle_shift_div_r; [exact Hpos | lra].
Qed.

Lemma brightnessSample_output_in_unit_range_witness :
  (0 < 2)%nat /\
  0 <= vx (BrightnessSample.main 2 2 Examples.sample_uniforms Examples.pixel_centre) <= 1.
Proof.
  split; [lia |].
  apply (brightnessSample_output_in_unit_range 2 2 Examples.sample_uniforms
           Examples.pixel_centre); [lia | lia |].
  intros k. split_and!; vm_compute; discriminate.
Defined.

End RangeFacts.

Section MatcherOutcome.
Import Glsl Mediump CharacterSelectionMediump.

(** X26: for an opaque cell the matcher never makes an index up, whatever
    the floating-point arithmetic: either no scanned palette entry has a
    computed error below the [1e20] the scan starts from, and the output
    encodes atlas index 0, or the output encodes the atlas index of a
    scanned palette entry (one of the first 1024) whose computed error is
    below [1e20] and no greater than that of any other scanned entry. *)
Theorem characterSelection_index_from_palette
    (A : arithmetic) (T : nat) (U : CharacterSelection.uniforms) (gl_FragCoord : vec2) :
  transparent A T U gl_FragCoord = false ->
  (main A T U gl_FragCoord = encode A 0 /\
   forall u, Spec.scanned_entry U u -> flit A 1e20 <= error A T U gl_FragCoord u) \/
  (exists best,
     Spec.scanned_entry U best /\
     main A T U gl_FragCoord = encode A (m A U best) /\
     error A T U gl_FragCoord best < flit A 1e20 /\
     forall u, Spec.scanned_entry U u ->
       error A T U gl_FragCoord best <= error A T U gl_FragCoord u).
Proof.
  intros Hopaque. rewrite (mediump_main_opaque A T U gl_FragCoord Hopaque).
  destruct (mediump_scan_first_minimum A T U gl_FragCoord)
    as [[Heq Hall] | [best [Hentry [Heq [Hlow [_ Hleast]]]]]].
  - left. rewrite Heq. split; [reflexivity | exact Hall].
  - right. exists best. rewrite Heq. split_and!; try assumption. reflexivity.
Qed.

Lemma characterSelection_index_from_palette_witness :
  transparent Float32.binary32 2 Float32.tie Examples.pixel_centre = false /\
  exists best,
    Spec.scanned_entry Float32.tie best /\
    main Float32.binary32 2 Float32.tie Examples.pixel_centre
    = encode Float32.binary32 (m Float32.binary32 Float32.tie best).
Proof.
  assert (Hopaque : transparent Float32.binary32 2 Float32.tie Examples.pixel_centre = false)
    by (vm_compute; reflexivity).
  split; [exact Hopaque |].
  destruct (characterSelection_index_from_palette Float32.binary32 2 Float32.tie
              Examples.pixel_centre Hopaque)
    as [[_ Hall] | [best [Hentry [Hmain _]]]].
  - exfalso.
    assert (Hentry : Spec.scanned_entry Float32.tie 0).
    { split; [lia | vm_compute; reflexivity]. }
    specialize (Hall 0%nat Hentry). vm_compute in Hall. apply Hall. reflexivity.
  - exists best. split; assumption.
Defined.

End MatcherOutcome.

(** ** The properties on concrete inputs *)

Section SamplingExamples.
Import Glsl.

Lemma brightnessSample_samples_inside_cell_witness :
  (1 < 2)%nat /\
  Props.inside_cell 2 2 0 0
    (BrightnessSample.m 2 2 Examples.sample_uniforms Examples.pixel_centre 1 0).
Proof.
  split; [lia |].
  apply (brightnessSample_samples_inside_cell 2 2 Examples.sample_uniforms
           Examples.pixel_centre 1 0);
    first [reflexivity | lia | vm_compute; split; [discriminate | reflexivity]].
Defined.

Lemma colorSample_samples_inside_cell_witness :
  0 < ux (ColorSample.u_inputImageSize (Examples.sampler_uniforms 1)) /\
  Props.inside_cell 1 1 0 0
    (ColorSample.s 2 2 (Examples.sampler_uniforms 1) Examples.pixel_centre 1 1).
Proof.
  split; [reflexivity |].
  apply (colorSample_samples_inside_cell 2 2 (Examples.sampler_uniforms 1)
           Examples.pixel_centre);
    first [reflexivity | lia | vm_compute; split; [discriminate | reflexivity]].
Defined.

Lemma characterSelection_mask_inside_cell_witness :
  (0 < 1)%nat /\
  exists c,
    CharacterSelection.mask 1 (Examples.matcher_uniforms Examples.white 2)
      Examples.pixel_centre 0 0 = Examples.white c /\
    Props.inside_cell 1 1 0 0 c.
Proof.
  split; [lia |].
  apply (characterSelection_mask_inside_cell 1 (Examples.matcher_uniforms Examples.white 2)
           Examples.pixel_centre 0 0);
    first [reflexivity | lia].
Defined.

Lemma characterSelection_glyph_inside_tile_witness :
  (1 < 2 * 1)%nat /\
  exists coord,
    CharacterSelection.glyph 1 (Examples.matcher_uniforms Examples.white 2) 1 0 0
    = Examples.two_glyph_atlas coord /\
    Props.inside_cell 2 1 1 0 coord /\
    Spec.in_texture_space coord.
Proof.
  split; [lia |].
  destruct (characterSelection_glyph_inside_tile 1
              (Examples.matcher_uniforms Examples.white 2) 1 1 2 1 0 0)
    as [coord [Hglyph [Htile [Hinside _]]]];
    try reflexivity; try lia.
  exists coord. split_and!; [exact Hglyph | exact Htile | apply Hinside; lia].
Defined.

Lemma characterSelection_index_round_trip_witness :
  CharacterSelection.transparent 1 (Examples.matcher_uniforms Examples.white 2)
    Examples.pixel_centre = false /\
  Props.carried_index
    (CharacterSelection.main 1 (Examples.matcher_uniforms Examples.white 2)
       Examples.pixel_centre) == 1.
Proof.
  assert (Hopaque : CharacterSelection.transparent 1
                      (Examples.matcher_uniforms Examples.white 2)
                      Examples.pixel_centre = false) by (vm_compute; reflexivity).
  split; [exact Hopaque |].
  destruct (characterSelection_index_round_trip 1
              (Examples.matcher_uniforms Examples.white 2) Examples.pixel_centre 1 Hopaque)
    as [_ [Hcarried _]]; [vm_compute; reflexivity |].
  exact Hcarried.
Defined.

Lemma brightnessSplit_average_from_grid_cell_witness :
  (0 < BrightnessSplit.u_gridCols Examples.split_uniforms)%Z /\
  exists cx cy : Z,
    BrightnessSplit.averageBrightness Examples.split_uniforms Examples.pixel_centre
    = vx (Examples.two_tone_brightness (Props.cell_centre 1 1 cx cy)).
Proof.
  split; [reflexivity |].
  destruct (brightnessSplit_average_from_grid_cell Examples.split_uniforms
              Examples.pixel_centre) as [cx [cy [_ [_ Havg]]]];
    [reflexivity | reflexivity |].
  exists cx, cy. exact Havg.
Defined.

Lemma colorSample_ranks_partition_witness :
  ColorSample.u_colorRank (Examples.sampler_uniforms 3) <> 1%Z /\
  ColorSample.selected (Examples.sampler_uniforms 1) Examples.pixel_centre
  = negb (ColorSample.selected (Examples.sampler_uniforms 2) Examples.pixel_centre) /\
  ColorSample.selected (Examples.sampler_uniforms 3) Examples.pixel_centre = false.
Proof.
  split; [discriminate |].
  destruct (colorSample_ranks_partition (Examples.sampler_uniforms 1)
              (Examples.sampler_uniforms 2) (Examples.sampler_uniforms 3)
              Examples.pixel_centre) as [Hsplit [_ Hnone]];
    try reflexivity; try discriminate.
  split; [exact Hsplit | exact Hnone].
Defined.

Lemma colorSample_selects_by_mask_witness :
  ColorSample.u_inputImageBW (Cases.grey_colors 1) Examples.pixel_centre
  = BrightnessSplit.main Cases.grey_split Examples.pixel_centre /\
  ColorSample.selected (Cases.grey_colors 1) Examples.pixel_centre = true.
Proof.
  split; [reflexivity |].
  apply (proj1 (colorSample_selects_by_mask Cases.grey_split Examples.pixel_centre
                  (Cases.grey_colors 1) Examples.pixel_centre eq_refl) eq_refl).
  vm_compute. reflexivity.
Defined.

Lemma colorSample_returns_sampled_color_witness :
  (0 < 16)%nat /\
  Spec.matching_colors 2 2 (Examples.sampler_uniforms 1) Examples.pixel_centre <> [] /\
  exists c : vec4,
    In c (Spec.matching_colors 2 2 (Examples.sampler_uniforms 1) Examples.pixel_centre) /\
    Spec.same_xyz
      (ColorSample.main 16 2 2 (Examples.sampler_uniforms 1) Examples.pixel_centre) c.
Proof.
  assert (He : (0 < 16)%nat) by lia.
  assert (Hsome : Spec.matching_colors 2 2 (Examples.sampler_uniforms 1)
                    Examples.pixel_centre <> []) by (vm_compute; discriminate).
  split; [exact He |]. split; [exact Hsome |].
  destruct (colorSample_returns_sampled_color 16 2 2 (Examples.sampler_uniforms 1)
              Examples.pixel_centre He Hsome) as [c [Hin [_ [Hxyz _]]]].
  exists c. split; assumption.
Defined.

Lemma colorSample_most_frequent_within_capacity_witness :
  (length (Spec.first_encounters
             (Spec.matching_colors 2 2 (Examples.sampler_uniforms 1)
                Examples.pixel_centre)) <= 16)%nat /\
  exists c : vec4,
    Spec.same_xyz
      (ColorSample.main 16 2 2 (Examples.sampler_uniforms 1) Examples.pixel_centre) c /\
    forall m,
      In m (Spec.matching_colors 2 2 (Examples.sampler_uniforms 1) Examples.pixel_centre) ->
      (Spec.occurrences m
         (Spec.matching_colors 2 2 (Examples.sampler_uniforms 1) Examples.pixel_centre)
       <= Spec.occurrences c
            (Spec.matching_colors 2 2 (Examples.sampler_uniforms 1)
               Examples.pixel_centre))%nat.
Proof.
  assert (He : (0 < 16)%nat) by lia.
  assert (Hsome : Spec.matching_colors 2 2 (Examples.sampler_uniforms 1)
                    Examples.pixel_centre <> []) by (vm_compute; discriminate).
  assert (Hfit : (length (Spec.first_encounters
                            (Spec.matching_colors 2 2 (Examples.sampler_uniforms 1)
                               Examples.pixel_centre)) <= 16)%nat)
    by (vm_compute; lia).
  split; [exact Hfit |].
  destruct (colorSample_most_frequent_within_capacity 16 2 2 (Examples.sampler_uniforms 1)
              Examples.pixel_centre He Hsome Hfit) as [c [_ [Hxyz Hmax]]].
  exists c. split; assumption.
Defined.

Lemma characterSelection_empty_palette_witness :
  CharacterSelection.transparent 1 (Examples.matcher_uniforms Examples.white 0)
    Examples.pixel_centre = false /\
  ux (CharacterSelection.u_charPaletteSize (Examples.matcher_uniforms Examples.white 0))
  <= 0 /\
  CharacterSelection.main 1 (Examples.matcher_uniforms Examples.white 0)
    Examples.pixel_centre = Spec.encode_index 0.
Proof.
  assert (Hopaque : CharacterSelection.transparent 1
                      (Examples.matcher_uniforms Examples.white 0)
                      Examples.pixel_centre = false) by (vm_compute; reflexivity).
  assert (Hempty : ux (CharacterSelection.u_charPaletteSize
                         (Examples.matcher_uniforms Examples.white 0)) <= 0)
    by (vm_compute; discriminate).
  split; [exact Hopaque |]. split; [exact Hempty |].
  apply (characterSelection_empty_palette 1 (Examples.matcher_uniforms Examples.white 0)
           Examples.pixel_centre Hopaque Hempty).
Defined.

Lemma characterSelection_exact_match_found_witness :
  Spec.scanned_entry (Examples.matcher_uniforms Examples.white 2) 1 /\
  exists best : nat,
    (best <= 1)%nat /\
    CharacterSelection.main 1 (Examples.matcher_uniforms Examples.white 2)
      Examples.pixel_centre
    = Spec.encode_index
        (CharacterSelection.m (Examples.matcher_uniforms Examples.white 2) best).
Proof.
  assert (Hentry : Spec.scanned_entry (Examples.matcher_uniforms Examples.white 2) 1).
  { split; [lia | vm_compute; reflexivity]. }
  split; [exact Hentry |].
  destruct (characterSelection_exact_match_found 1
              (Examples.matcher_uniforms Examples.white 2) Examples.pixel_centre 1)
    as [best [Hbest [Hmain _]]].
  - vm_compute. reflexivity.
  - exact Hentry.
  - intros u f Hu Hf.
    assert (Hu0 : u = 0%nat) by lia. assert (Hf0 : f = 0%nat) by lia. subst u f.
    vm_compute. reflexivity.
  - exists best. split; assumption.
Defined.

End SamplingExamples.

Section HostExamples.
Import Js BaseClass.

Lemma getBaseClass_returns_witness :
  getBaseClass None (Some Cases.window_with_class)
  = Return (Function "P5AsciifyAbstractFeatureRenderer2D" []) /\
  strategy1 None = None /\
  typeof (Function "P5AsciifyAbstractFeatureRenderer2D" []) = "function"%string.
Proof.
  assert (Hreturn : getBaseClass None (Some Cases.window_with_class)
                    = Return (Function "P5AsciifyAbstractFeatureRenderer2D" []))
    by reflexivity.
  split; [exact Hreturn |].
  destruct (getBaseClass_returns None (Some Cases.window_with_class) _ Hreturn)
    as [[Hfound _] | [Hnone [Htype _]]].
  - discriminate Hfound.
  - split; [exact Hnone | exact Htype].
Defined.

Lemma getCachedBaseClass_caches_witness :
  getBaseClass None (Some Cases.window_with_class)
  = Return (Function "P5AsciifyAbstractFeatureRenderer2D" []) /\
  Cache.getCachedBaseClass None (Some Examples.bare_window)
    (snd (Cache.getCachedBaseClass None (Some Cases.window_with_class) Null))
  = (Return (Function "P5AsciifyAbstractFeatureRenderer2D" []),
     Function "P5AsciifyAbstractFeatureRenderer2D" []).
Proof.
  assert (Hreturn : getBaseClass None (Some Cases.window_with_class)
                    = Return (Function "P5AsciifyAbstractFeatureRenderer2D" []))
    by reflexivity.
  split; [exact Hreturn |].
  apply (proj1 (getCachedBaseClass_caches None (Some Cases.window_with_class)) _ Hreturn).
  discriminate.
Defined.

(** A namespace under which the class is [null]: the lookup returns
    [null], and nothing is cached. *)
Example getCachedBaseClass_null_class :
  Cache.getCachedBaseClass (Some Cases.namespace_with_null) None Null = (Return Null, Null).
Proof. reflexivity. Qed.

End HostExamples.

Section PipelineExamples.
Import Glsl.

Lemma pipeline_uniform_image_witness :
  BrightnessSplit.EPSILON <= vw (Vec4 (127 # 255) (127 # 255) (127 # 255) 1) /\
  BrightnessSplit.main Cases.grey_split Examples.pixel_centre = Vec4 1 1 1 1 /\
  ColorSample.main 16 2 2 (Cases.grey_colors 2) Examples.pixel_centre
  = Vec4 (127 # 255) (127 # 255) (127 # 255) 1.
Proof.
  assert (Halpha : BrightnessSplit.EPSILON
                   <= vw (Vec4 (127 # 255) (127 # 255) (127 # 255) 1))
    by (vm_compute; discriminate).
  split; [exact Halpha |].
  destruct (pipeline_uniform_image 16 2 2 (Vec4 (127 # 255) (127 # 255) (127 # 255) 1)
              Examples.sample_uniforms Cases.grey_split (Cases.grey_colors 2))
    as [Hsplit [_ Hsecond]];
    try lia; try exact Halpha; try (intros k; reflexivity);
    try (intros k; exists Examples.pixel_centre; reflexivity).
  split; [apply Hsplit | apply Hsecond; reflexivity].
Defined.

Lemma pipeline_transparent_image_witness :
  (forall k, vw (BrightnessSplit.u_inputImage Cases.clear_split k)
             < BrightnessSplit.EPSILON) /\
  CharacterSelection.main 1 (Cases.matcher_after Cases.clear_split) Examples.pixel_centre
  = Vec4 0 0 0 0 /\
  ColorSample.main 16 2 2 (Cases.clear_colors 1) Examples.pixel_centre = Vec4 0 0 0 1.
Proof.
  assert (Hclear : forall k, vw (BrightnessSplit.u_inputImage Cases.clear_split k)
                             < BrightnessSplit.EPSILON)
    by (intros k; vm_compute; reflexivity).
  split; [exact Hclear |].
  destruct (pipeline_transparent_image 1 16 2 2 Cases.clear_split (Cases.clear_colors 1)
              (Cases.matcher_after Cases.clear_split) Hclear)
    as [_ [Hmatcher [Hfirst _]]];
    try (intros k; exists Examples.pixel_centre; reflexivity).
  split; [apply Hmatcher | apply Hfirst; reflexivity].
Defined.

Lemma characterSelection_sentinel_iff_mask_clear_witness :
  (forall k, exists S fragment,
     CharacterSelection.u_sketchTexture (Cases.matcher_after Cases.grey_split) k
     = BrightnessSplit.main S fragment) /\
  CharacterSelection.main 1 (Cases.matcher_after Cases.grey_split) Examples.pixel_centre
  <> Vec4 0 0 0 0.
Proof.
  assert (Hsketch : forall k, exists S fragment,
            CharacterSelection.u_sketchTexture (Cases.matcher_after Cases.grey_split) k
            = BrightnessSplit.main S fragment).
  { intros k. exists Cases.grey_split, Examples.pixel_centre. reflexivity. }
  split; [exact Hsketch |].
  intros Hmain.
  pose proof (proj1 (proj1 (characterSelection_sentinel_iff_mask_clear 1
                              (Cases.matcher_after Cases.grey_split)
                              Examples.pixel_centre Hsketch))
                Hmain 0%nat 0%nat ltac:(lia) ltac:(lia)) as Hmask.
  vm_compute in Hmask. discriminate Hmask.
Defined.

End PipelineExamples.

Section RenderExamples.
Import Js Renderer Render Trace.

Lemma render_fixed_color_mode_witness :
  strict_equals_number
    (option_value (_options (super Cases.fixed_renderer)) "characterColorMode") 1 = true /\
  pass_of this_primaryColorFramebuffer (render Cases.plain_view Cases.fixed_renderer)
  = [background [Str "#FFFFFF"]] /\
  _options (super Examples.plain_renderer) !! "characterColorMode" = Some (Str "sampled") /\
  In (shader this_colorSampleShader)
     (pass_of this_primaryColorFramebuffer
        (render Cases.plain_view Examples.plain_renderer)).
Proof.
  assert (Hfixed : strict_equals_number
            (option_value (_options (super Cases.fixed_renderer)) "characterColorMode") 1
            = true) by (vm_compute; reflexivity).
  assert (Hsampled : _options (super Examples.plain_renderer) !! "characterColorMode"
                     = Some (Str "sampled")) by (vm_compute; reflexivity).
  split_and!; [exact Hfixed | | exact Hsampled |].
  - rewrite (proj1 (render_fixed_color_mode Cases.plain_view Cases.fixed_renderer) Hfixed).
    vm_compute. reflexivity.
  - destruct (render_fixed_color_mode Cases.plain_view Examples.plain_renderer)
      as [_ [_ [_ [Hprimary [_ Hstring]]]]].
    apply Hprimary, (Hstring "characterColorMode"%string "sampled"%string Hsampled).
Defined.

Lemma render_samples_earlier_passes_witness :
  In (setUniform this_characterSelectionShader "u_sketchTexture"
        (sampler this_brightnessSplitFramebuffer))
     (pass_of this_characterFramebuffer
        (render Cases.plain_view Examples.plain_renderer)) /\
  this_brightnessSplitFramebuffer <> this_characterFramebuffer /\
  exists j, place this_characterFramebuffer = Some j /\ (1 < j)%nat.
Proof.
  assert (Hin : In (setUniform this_characterSelectionShader "u_sketchTexture"
                      (sampler this_brightnessSplitFramebuffer))
                   (pass_of this_characterFramebuffer
                      (render Cases.plain_view Examples.plain_renderer)))
    by (vm_compute; tauto).
  split; [exact Hin |].
  destruct (render_samples_earlier_passes Cases.plain_view Examples.plain_renderer
              _ _ _ _ Hin) as [Hother [Hearlier _]].
  split; [exact Hother |]. apply (Hearlier 1%nat). reflexivity.
Defined.

Lemma render_sets_declared_uniforms_witness :
  Spec.generated_from_current Examples.plain_renderer /\
  declared "u_colorRank" (fragSrc (_colorSampleShader Examples.plain_renderer)).
Proof.
  assert (Hgenerated : Spec.generated_from_current Examples.plain_renderer).
  { split_and!; reflexivity. }
  split; [exact Hgenerated |].
  apply (render_sets_declared_uniforms Cases.plain_view Examples.plain_renderer
           this_colorSampleShader "u_colorRank" (number 1) Hgenerated eq_refl).
  vm_compute. tauto.
Defined.

Lemma render_draws_one_fragment_per_cell_witness :
  List.filter draws
    (pass_of this_brightnessSampleFramebuffer
       (render Cases.plain_view Examples.plain_renderer))
  = [rect 0 0 (Glsl.floatn 100) (Glsl.floatn 37)] /\
  List.filter draws
    (pass_of this_brightnessSampleFramebuffer
       (render Cases.plain_view (resetShaders Examples.plain_renderer)))
  = [rect 0 0 (Glsl.floatn 100) (Glsl.floatn 37)].
Proof.
  assert (Hfits : List.filter draws
            (pass_of this_brightnessSampleFramebuffer
               (render Cases.plain_view Examples.plain_renderer))
          = [rect 0 0 (Glsl.floatn 100) (Glsl.floatn 37)] /\
          List.filter draws
            (pass_of this_brightnessSplitFramebuffer
               (render Cases.plain_view Examples.plain_renderer))
          = [rect 0 0 (Glsl.floatn 800) (Glsl.floatn 600)])
    by (split; vm_compute; reflexivity).
  split; [exact (proj1 Hfits) |].
  exact (proj1 (proj2 (proj2 (render_draws_one_fragment_per_cell Cases.plain_view
                                Examples.plain_host (fun base => base)))
                  Examples.plain_renderer Hfits)).
Defined.

End RenderExamples.
